(** * go.nut: a shallow embedding of the NUT client and its connection pool

    The development follows the Go sources file by file:
    - [GoStrings]: the functions of Go's [strings] and [strconv] packages
      that the client calls, on byte strings;
    - [quoteName], the value inference of [GetVariables] and the TYPE
      parser of [GetVariableType] (ups.go, of which the sources hold
      two copies that differ in [NewUPS] and [GetVariableType]; the
      one with the lazy [NewUPS] is followed, and the TYPE parser of
      the other is kept beside it);
    - the session: [ReadResponse], [sendCommandUnsafe],
      [SendCommandWithContext], [SendCommand] (nut.go);
    - the device registry on top of the session (ups.go);
    - the connection pool: [NewPool], [Get], [Put], [Close], [Stats]
      (nut.go);
    - the other calls on a session, [Disconnect], [Authenticate],
      [StartTLS], [GetUPSList], [GetMetrics] (nut.go), and the
      other queries on a UPS, from [NewUPS] to [ForceShutdown] (ups.go).

    Go strings are byte sequences; they are modelled by [string], whose
    characters are the 256 byte values. *)

From Stdlib Require Import String Ascii ZArith List Lia Bool Arith.
From stdpp Require Import base gmap.
Import ListNotations.

Local Open Scope string_scope.

(** ** Bytes that the sources spell with escapes *)

Definition space  : ascii := "032"%char.
Definition tab    : ascii := "009"%char.
Definition lf     : ascii := "010"%char.
Definition vtab   : ascii := "011"%char.
Definition ffeed  : ascii := "012"%char.
Definition cr     : ascii := "013"%char.
Definition dquote : ascii := "034"%char.
Definition bslash : ascii := "092"%char.

Definition str1 (c : ascii) : string := String c EmptyString.

(** * Go's strings package *)

Module GoStrings.

(** [s[n:]] *)
Fixpoint drop (n : nat) (s : string) : string :=
  match n, s with
  | O, _ => s
  | S _, EmptyString => EmptyString
  | S k, String _ r => drop k r
  end.

(** [s[:n]] *)
Fixpoint take (n : nat) (s : string) : string :=
  match n, s with
  | O, _ => EmptyString
  | S _, EmptyString => EmptyString
  | S k, String c r => String c (take k r)
  end.

Fixpoint rev_onto (s acc : string) : string :=
  match s with
  | EmptyString => acc
  | String c r => rev_onto r (String c acc)
  end.

Definition rev (s : string) : string := rev_onto s EmptyString.

(** [strings.HasPrefix(s, p)] *)
Definition HasPrefix (s p : string) : bool := String.prefix p s.

(** [strings.HasSuffix(s, p)] *)
Definition HasSuffix (s p : string) : bool := String.prefix (rev p) (rev s).

(** [strings.TrimPrefix(s, p)] *)
Definition TrimPrefix (s p : string) : string :=
  if HasPrefix s p then drop (String.length p) s else s.

(** [strings.TrimSuffix(s, p)] *)
Definition TrimSuffix (s p : string) : string :=
  if HasSuffix s p then take (String.length s - String.length p) s else s.

Fixpoint mem (c : ascii) (chars : string) : bool :=
  match chars with
  | EmptyString => false
  | String d r => Ascii.eqb c d || mem c r
  end.

(** [strings.ContainsAny(s, chars)], for a set [chars] of ASCII bytes
    (every call site passes one): some byte of [s] is in [chars]. *)
Fixpoint ContainsAny (s chars : string) : bool :=
  match s with
  | EmptyString => false
  | String c r => mem c chars || ContainsAny r chars
  end.

(** [strings.Contains(s, sub)] *)
Fixpoint Contains (s sub : string) : bool :=
  String.prefix sub s ||
  match s with
  | EmptyString => false
  | String _ r => Contains r sub
  end.

(** The scan shared by [ReplaceAll] and [Split]: occurrences of [old] are
    found from the left and do not overlap; [skip] counts the bytes of a
    matched occurrence that are still to be passed over. *)
Fixpoint replace_from (old new s : string) (skip : nat) : string :=
  match s with
  | EmptyString => EmptyString
  | String c r =>
      match skip with
      | S k => replace_from old new r k
      | O =>
          if String.prefix old s
          then new ++ replace_from old new r (String.length old - 1)
          else String c (replace_from old new r 0)
      end
  end.

(** [strings.ReplaceAll(s, old, new)] for a non-empty [old]. The sources
    only pass one-byte literals for [old]; the empty [old], which Go
    treats rune by rune, is left as the identity here. *)
Definition ReplaceAll (s old new : string) : string :=
  match old with
  | EmptyString => s
  | _ => replace_from old new s 0
  end.

Fixpoint split_from (sep s : string) (skip : nat) : string * list string :=
  match s with
  | EmptyString => (EmptyString, [])
  | String c r =>
      match skip with
      | S k => split_from sep r k
      | O =>
          if String.prefix sep s
          then (EmptyString,
                let (p, ps) := split_from sep r (String.length sep - 1) in p :: ps)
          else let (p, ps) := split_from sep r 0 in (String c p, ps)
      end
  end.

(** [strings.Split(s, sep)] for a non-empty [sep] (the sources pass a
    space, a double quote or a colon): the pieces between the
    occurrences of [sep], at least one piece. *)
Definition Split (s sep : string) : list string :=
  let (p, ps) := split_from sep s 0 in p :: ps.

Fixpoint TrimLeft (s cutset : string) : string :=
  match s with
  | EmptyString => EmptyString
  | String c r => if mem c cutset then TrimLeft r cutset else s
  end.

Definition TrimRight (s cutset : string) : string :=
  rev (TrimLeft (rev s) cutset).

(** [strings.Trim(s, cutset)] for an ASCII [cutset]. *)
Definition Trim (s cutset : string) : string :=
  TrimRight (TrimLeft s cutset) cutset.

(** The UTF-8 encodings of the code points for which [unicode.IsSpace]
    holds: U+0009..U+000D, U+0020, U+0085, U+00A0, U+1680,
    U+2000..U+200A, U+2028, U+2029, U+202F, U+205F, U+3000. *)
Definition b (n : nat) : ascii := ascii_of_nat n.

Definition seq3 (x y z : nat) : string := String (b x) (String (b y) (str1 (b z))).

Definition space_runes : list string :=
  [ str1 tab; str1 lf; str1 vtab; str1 ffeed; str1 cr; str1 space;
    String (b 194) (str1 (b 133)); String (b 194) (str1 (b 160));
    seq3 225 154 128 ]
  ++ map (fun k => seq3 226 128 (128 + k)) (seq 0 11)
  ++ [ seq3 226 128 168; seq3 226 128 169; seq3 226 128 175;
       seq3 226 129 159; seq3 227 128 128 ].

(** The first encoding of [runes] that [s] starts with. *)
Fixpoint leading (runes : list string) (s : string) : option nat :=
  match runes with
  | [] => None
  | r :: rs => if String.prefix r s then Some (String.length r) else leading rs s
  end.

(** Removes the white-space runes at the front; [fuel] bounds the number
    of runes and is the length of the string. *)
Fixpoint trim_space_left (fuel : nat) (runes : list string) (s : string) : string :=
  match fuel with
  | O => s
  | S k =>
      match leading runes s with
      | Some n => trim_space_left k runes (drop n s)
      | None => s
      end
  end.

(** [strings.TrimSpace(s)]: the white-space runes are removed at both
    ends. A trailing rune is found by [utf8.DecodeLastRuneInString],
    which, for the encodings above, recognises exactly the strings that
    end with one of them. *)
Definition TrimSpace (s : string) : string :=
  let l := trim_space_left (String.length s) space_runes s in
  rev (trim_space_left (String.length l) (map rev space_runes) (rev l)).

End GoStrings.

Import GoStrings.

(** * Go's strconv package *)

Module GoStrconv.

Local Open Scope Z_scope.

(** [strconv.ErrSyntax] and [strconv.ErrRange] *)
Inductive NumError := ErrSyntax | ErrRange.

Definition is_digit (c : ascii) : bool :=
  (48 <=? nat_of_ascii c)%nat && (nat_of_ascii c <=? 57)%nat.

Definition digit_val (c : ascii) : Z := Z.of_nat (nat_of_ascii c) - 48.

Definition maxUint64 : Z := 2 ^ 64 - 1.

(** The loop of [strconv.ParseUint(s, 10, 64)], from the accumulator
    [n]: a byte that is no digit is a syntax error, an overflow of 64
    bits a range error, whichever comes first. *)
Fixpoint parse_uint_from (s : string) (n : Z) : Z + NumError :=
  match s with
  | EmptyString => inl n
  | String c r =>
      if negb (is_digit c) then inr ErrSyntax
      else if maxUint64 / 10 + 1 <=? n then inr ErrRange
      else
        let n1 := n * 10 + digit_val c in
        if maxUint64 <? n1 then inr ErrRange else parse_uint_from r n1
  end.

Definition ParseUint (s : string) : Z + NumError :=
  match s with
  | EmptyString => inr ErrSyntax
  | _ => parse_uint_from s 0
  end.

(** [strconv.ParseInt(s, 10, 64)]: an optional sign, then [ParseUint];
    the magnitude has to fit a signed 64-bit integer. *)
Definition ParseInt (s : string) : Z + NumError :=
  match s with
  | EmptyString => inr ErrSyntax
  | String c r =>
      let neg := Ascii.eqb c "-" in
      let digits := if Ascii.eqb c "+" || neg then r else s in
      match ParseUint digits with
      | inr ErrSyntax => inr ErrSyntax
      | inr ErrRange => inr ErrRange
      | inl un =>
          if negb neg && (2 ^ 63 <=? un) then inr ErrRange
          else if neg && (2 ^ 63 <? un) then inr ErrRange
          else inl (if neg then - un else un)
      end
  end.

(** [strconv.Atoi(s)] on a platform whose [int] has 64 bits: the result
    of [ParseInt(s, 10, 0)]; the fast path for short strings computes
    the same value. *)
Definition Atoi (s : string) : Z + NumError := ParseInt s.

(** The digits at the front of [s], and what follows them. *)
Fixpoint span_digits (s : string) : string * string :=
  match s with
  | EmptyString => (EmptyString, EmptyString)
  | String c r =>
      if is_digit c then let (d, t) := span_digits r in (String c d, t)
      else (EmptyString, s)
  end.

Fixpoint digits_value (s : string) (n : Z) : Z :=
  match s with
  | EmptyString => n
  | String c r => digits_value r (n * 10 + digit_val c)
  end.

(** A decimal [mant / 10 ^ scale]. Go holds the [float64] nearest to it;
    the rounding to binary is not part of the model, the decimal that
    was read is. *)
Record Decimal := { mant : Z; scale : nat }.

(** [strconv.ParseFloat(s, 64)] on the strings its only caller passes:
    an optional minus sign, digits, a point, digits. The value is out of
    range when it is at least half a unit in the last place above the
    largest [float64], that is, from [2^1024 - 2^970] on. Other shapes,
    which the caller excludes by [numericRegex], answer [ErrSyntax]. *)
Definition ParseFloat (s : string) : Decimal + NumError :=
  let (neg, body) :=
    match s with
    | String c r => if Ascii.eqb c "-" then (true, r) else (false, s)
    | EmptyString => (false, s)
    end in
  let (ip, rest) := span_digits body in
  match ip, rest with
  | String _ _, String c fr =>
      if Ascii.eqb c "." then
        let (fp, tl) := span_digits fr in
        match fp, tl with
        | String _ _, EmptyString =>
            let m := digits_value (ip ++ fp) 0 in
            let k := String.length fp in
            if (2 ^ 1024 - 2 ^ 970) * 10 ^ Z.of_nat k <=? m then inr ErrRange
            else inl {| mant := if neg then - m else m; scale := k |}
        | _, _ => inr ErrSyntax
        end
      else inr ErrSyntax
  | _, _ => inr ErrSyntax
  end.

End GoStrconv.

Import GoStrconv.

(** * ups.go: names, variables and their types *)

(** [numericRegex = regexp.MustCompile(`^-?\d+(?:\.\d+)?$`)], as its
    [MatchString]: an optional minus sign, one digit or more, and
    optionally a point followed by one digit or more, up to the end. *)
Definition numericRegex (s : string) : bool :=
  let body :=
    match s with
    | String c r => if Ascii.eqb c "-" then r else s
    | EmptyString => s
    end in
  let (ip, rest) := span_digits body in
  match ip, rest with
  | String _ _, EmptyString => true
  | String _ _, String c fr =>
      Ascii.eqb c "." &&
      (let (fp, tl) := span_digits fr in
       match fp, tl with
       | String _ _, EmptyString => true
       | _, _ => false
       end)
  | _, _ => false
  end.

Definition dq : string := str1 dquote.
Definition bs : string := str1 bslash.

(** The set passed to [ContainsAny]: space, tab, line feed, carriage
    return and the double quote. *)
Definition quoteChars : string :=
  String space (String tab (String lf (String cr (str1 dquote)))).

(** [quoteName] quotes a name if it contains spaces or special
    characters. *)
Definition quoteName (name : string) : string :=
  if ContainsAny name quoteChars then
    let escaped := ReplaceAll name bs (bs ++ bs) in
    let escaped := ReplaceAll escaped dq (bs ++ dq) in
    dq ++ escaped ++ dq
  else name.

(** The dynamic value of [Variable.Value] (an [interface{}]): [bool],
    [int64], [float64] or [string]. *)
Inductive value :=
| VBool (x : bool)
| VInt (n : Z)
| VFloat (d : Decimal)
| VString (s : string).

(** The struct [Variable]. *)
Record NutVariable := {
  Name : string;
  Value : value;
  Type_ : string;
  Description : string;
  Writeable : bool;
  MaximumLength : Z;
  OriginalType : string
}.

Definition setInferred (v : NutVariable) (x : value) (ty orig : string) : NutVariable :=
  {| Name := Name v; Value := x; Type_ := ty; Description := Description v;
     Writeable := Writeable v; MaximumLength := MaximumLength v;
     OriginalType := orig |}.

Definition setType (v : NutVariable) (ty orig : string) : NutVariable :=
  setInferred v (Value v) ty orig.

(** The switch at the end of the loop body of [GetVariables]: [raw] is
    [splitLine[1]], [varType] the type that [GetVariableType] returned,
    and [newVar] already holds [raw] as its value and [varType] as its
    type. *)
Definition inferValue (newVar : NutVariable) (raw varType : string) : NutVariable :=
  if String.eqb raw "enabled" then setInferred newVar (VBool true) "BOOLEAN" varType
  else if String.eqb raw "disabled" then setInferred newVar (VBool false) "BOOLEAN" varType
  else
    let newVar :=
      if numericRegex raw then
        if Contains raw "." then
          match ParseFloat raw with
          | inl converted => setInferred newVar (VFloat converted) "FLOAT_64" varType
          | inr _ => newVar
          end
        else
          match ParseInt raw with
          | inl converted => setInferred newVar (VInt converted) "INTEGER" varType
          | inr _ => newVar
          end
      else newVar in
    if String.eqb (Type_ newVar) varType
    then setType newVar "STRING" varType
    else newVar.

(** * nut.go: the session *)

(** What the network reports when an operation on a connection fails. *)
Inductive NetError := EOF | Timeout | NetFailure.

(** [context.Canceled] and [context.DeadlineExceeded] *)
Inductive CtxError := Canceled | DeadlineExceeded.

(** Modelled from the spec: errors.go, which declares the typed failures
    and [errorForMessage], is not among the sources. The spec names one
    failure, the generic unknown command, and speaks of a fixed taxonomy
    for the others; they are told apart by their names here. *)
Inductive Failure :=
| UnknownCommand
| Kind (name : string).

(** Go's [error] values, as the sources build them. *)
Inductive error :=
| ErrNew (msg : string)
| ErrFmt (msg : string) (cause : error)
| ErrWrap (msg : string) (cause : error)
| ErrNet (e : NetError)
| ErrNum (fn arg : string) (e : NumError)
| ErrCtx (e : CtxError)
| ErrServer (f : Failure).

(** A [context.Context], as far as a command observes it: whether it is
    done at the first check, and whether its [Done] channel wins the
    select against the reader. *)
Record Context := {
  doneAtStart : option CtxError;
  doneWhileReading : option CtxError
}.

(** [context.Background()] is never done. *)
Definition Background : Context :=
  {| doneAtStart := None; doneWhileReading := None |}.

(** A [net.Conn] together with the [bufio.Reader] on it: [incoming] is
    what the server sends from now on, and a read that needs more
    reports [atEnd]; [wfail] and [dfail] say, for the coming writes and
    calls of [SetReadDeadline], which of them fail (none once the list
    is used up). *)
Record Conn := {
  incoming : string;
  atEnd : NetError;
  outgoing : string;
  wfail : list bool;
  dfail : list bool;
  closeFails : bool
}.

(** The struct [ClientMetrics]; the counters are [uint64]. *)
Record ClientMetrics := {
  CommandsSent : Z;
  CommandsFailed : Z;
  BytesSent : Z;
  BytesReceived : Z;
  Reconnects : Z
}.

(** The struct [Client]. [conn] is [None] for the nil connection; the
    reader is nil exactly when the connection is. The endpoint, the
    timeouts, the TLS configuration, the logger and the mutex are left
    out: calls are taken one at a time and log output is not
    observed. *)
Record Client := {
  Version : string;
  ProtocolVersion : string;
  conn : option Conn;
  UseTLS : bool;
  metrics : option ClientMetrics
}.

Definition setConn (c : Client) (k : option Conn) : Client :=
  {| Version := Version c; ProtocolVersion := ProtocolVersion c; conn := k;
     UseTLS := UseTLS c; metrics := metrics c |}.

Definition setMetrics (c : Client) (m : option ClientMetrics) : Client :=
  {| Version := Version c; ProtocolVersion := ProtocolVersion c; conn := conn c;
     UseTLS := UseTLS c; metrics := m |}.

(** [atomic.AddUint64] *)
Definition add64 (x d : Z) : Z := ((x + d) mod 2 ^ 64)%Z.

Definition addCommandsSent (d : Z) (m : ClientMetrics) : ClientMetrics :=
  {| CommandsSent := add64 (CommandsSent m) d; CommandsFailed := CommandsFailed m;
     BytesSent := BytesSent m; BytesReceived := BytesReceived m;
     Reconnects := Reconnects m |}.

Definition addCommandsFailed (d : Z) (m : ClientMetrics) : ClientMetrics :=
  {| CommandsSent := CommandsSent m; CommandsFailed := add64 (CommandsFailed m) d;
     BytesSent := BytesSent m; BytesReceived := BytesReceived m;
     Reconnects := Reconnects m |}.

Definition addBytesSent (d : Z) (m : ClientMetrics) : ClientMetrics :=
  {| CommandsSent := CommandsSent m; CommandsFailed := CommandsFailed m;
     BytesSent := add64 (BytesSent m) d; BytesReceived := BytesReceived m;
     Reconnects := Reconnects m |}.

Definition addBytesReceived (d : Z) (m : ClientMetrics) : ClientMetrics :=
  {| CommandsSent := CommandsSent m; CommandsFailed := CommandsFailed m;
     BytesSent := BytesSent m; BytesReceived := add64 (BytesReceived m) d;
     Reconnects := Reconnects m |}.

Definition addReconnects (d : Z) (m : ClientMetrics) : ClientMetrics :=
  {| CommandsSent := CommandsSent m; CommandsFailed := CommandsFailed m;
     BytesSent := BytesSent m; BytesReceived := BytesReceived m;
     Reconnects := add64 (Reconnects m) d |}.

(** [if c.metrics != nil { ... }] *)
Definition withMetrics (f : ClientMetrics -> ClientMetrics) (c : Client) : Client :=
  match metrics c with
  | Some m => setMetrics c (Some (f m))
  | None => c
  end.

(** A call on a client either returns, leaving the client in a new
    state, or panics (a method called on the nil connection). *)
Inductive outcome (A : Type) : Type :=
| Returns (a : A) (c : Client)
| Panics.
Arguments Returns {A} a c.
Arguments Panics {A}.

Definition Do (A : Type) : Type := Client -> outcome A.

Definition ret {A} (a : A) : Do A := fun c => Returns a c.

Definition bind {A B} (m : Do A) (k : A -> Do B) : Do B :=
  fun c => match m c with
           | Returns a c' => k a c'
           | Panics => Panics
           end.

Notation "x <- m ;; k" := (bind m (fun x => k))
  (at level 100, m at next level, right associativity).
Notation "m ;;; k" := (bind m (fun _ => k))
  (at level 100, right associativity).

Definition modify (f : Client -> Client) : Do unit := fun c => Returns tt (f c).

(** A Go function result [(resp []string, err error)]. *)
Definition lines_err : Type := list string * option error.

(** [bufio.Reader.ReadString] with the line feed as delimiter: the bytes
    up to and including the first line feed, and what is left; [None]
    when the input ends before a line feed. *)
Fixpoint ReadString (input : string) : option (string * string) :=
  match input with
  | EmptyString => None
  | String c r =>
      if Ascii.eqb c lf then Some (str1 lf, r)
      else match ReadString r with
           | Some (line, rest) => Some (String c line, rest)
           | None => None
           end
  end.

(** The read loop of [ReadResponse] and of the reader goroutine of
    [readResponseWithContext]. Every turn takes at least one byte, so a
    [fuel] above the length of the input is never used up. The result is
    the lines read, or [None] for a failed read, and the input left. *)
Fixpoint readLoop (fuel : nat) (endLine : string) (multiLineResponse : bool)
    (input : string) (response : list string) : option (list string) * string :=
  match fuel with
  | O => (None, EmptyString)
  | S fuel' =>
      match ReadString input with
      | None => (None, EmptyString)
      | Some (line, rest) =>
          if (0 <? String.length line)%nat then
            let cleanLine := TrimSuffix line (str1 lf) in
            let response := (response ++ [cleanLine])%list in
            if String.eqb line endLine || negb multiLineResponse
            then (Some response, rest)
            else readLoop fuel' endLine multiLineResponse rest response
          else readLoop fuel' endLine multiLineResponse rest response
      end
  end.

Definition setIncoming (k : Conn) (s : string) : Conn :=
  {| incoming := s; atEnd := atEnd k; outgoing := outgoing k;
     wfail := wfail k; dfail := dfail k; closeFails := closeFails k |}.

(** [c.conn.SetReadDeadline(...)]: [true] when it fails. *)
Definition SetReadDeadline : Do bool := fun c =>
  match conn c with
  | None => Panics
  | Some k =>
      let k' := {| incoming := incoming k; atEnd := atEnd k; outgoing := outgoing k;
                   wfail := wfail k; dfail := tl (dfail k);
                   closeFails := closeFails k |} in
      Returns (hd false (dfail k)) (setConn c (Some k'))
  end.

(** [fmt.Fprint(c.conn, text)]: the number of bytes written, or the
    error. *)
Definition Fprint (text : string) : Do (Z + error) := fun c =>
  match conn c with
  | None => Panics
  | Some k =>
      let failed := hd false (wfail k) in
      let k' := {| incoming := incoming k; atEnd := atEnd k;
                   outgoing := if failed then outgoing k else outgoing k ++ text;
                   wfail := tl (wfail k); dfail := dfail k;
                   closeFails := closeFails k |} in
      Returns (if failed then inr (ErrNet NetFailure)
               else inl (Z.of_nat (String.length text)))
              (setConn c (Some k'))
  end.

(** The reads of one response on the reader of the client. *)
Definition readLines (endLine : string) (multiLineResponse : bool)
  : Do (list string + error) := fun c =>
  match conn c with
  | None => Panics
  | Some k =>
      let (r, rest) := readLoop (S (String.length (incoming k))) endLine
                         multiLineResponse (incoming k) [] in
      Returns (match r with
               | Some lines => inl lines
               | None => inr (ErrFmt "error reading response" (ErrNet (atEnd k)))
               end)
              (setConn c (Some (setIncoming k rest)))
  end.

(** [ReadResponse] is a convenience function for reading newline
    delimited responses. *)
Definition ReadResponse (endLine : string) (multiLineResponse : bool) : Do lines_err :=
  failed <- SetReadDeadline ;;
  if failed : bool then
    ret ([], Some (ErrFmt "failed to set read deadline" (ErrNet NetFailure)))
  else
    r <- readLines endLine multiLineResponse ;;
    match r with
    | inl response => ret (response, None)
    | inr e => ret ([], Some e)
    end.

(** [readResponseWithContext] reads response with context support. When
    the context wins the select the call returns its error; the reader
    goroutine is left to itself and takes the response from the
    stream. *)
Definition readResponseWithContext (ctx : Context) (endLine : string)
    (multiLineResponse : bool) : Do lines_err :=
  failed <- SetReadDeadline ;;
  if failed : bool then
    ret ([], Some (ErrFmt "failed to set read deadline" (ErrNet NetFailure)))
  else
    r <- readLines endLine multiLineResponse ;;
    match doneWhileReading ctx with
    | Some e => ret ([], Some (ErrCtx e))
    | None =>
        match r with
        | inl lines => ret (lines, None)
        | inr e => ret ([], Some e)
        end
    end.

Section Session.

(** Modelled from the spec: the table of [errorForMessage] (errors.go)
    is not among the sources; the spec calls it a fixed taxonomy, so it
    is a parameter here. *)
Variable taxonomy : list (string * Failure).

Fixpoint lookupCode (table : list (string * Failure)) (code : string) : option Failure :=
  match table with
  | [] => None
  | (k, f) :: rest => if String.eqb k code then Some f else lookupCode rest code
  end.

(** Modelled from the spec: [errorForMessage] (errors.go) looks the code
    up in the taxonomy; a code that the taxonomy does not hold maps to
    the generic unknown-command failure. *)
Definition errorForMessage (code : string) : error :=
  match lookupCode taxonomy code with
  | Some f => ErrServer f
  | None => ErrServer UnknownCommand
  end.

(** The test on the first response line that ends both send paths:
    [Some e] when the line starts with the letters ERR and a space. *)
Definition serverError (resp : list string) : option error :=
  match resp with
  | first :: _ =>
      if HasPrefix first "ERR " then
        let errCode := Split first " " in
        if (1 <? length errCode)%nat
        then Some (errorForMessage (nth 1 errCode EmptyString))
        else Some (errorForMessage "UNKNOWN-COMMAND")
      else None
  | [] => None
  end.

Definition endLineOf (cmdTrimmed : string) (multiLineResponse : bool) : string :=
  if multiLineResponse then "END " ++ cmdTrimmed ++ str1 lf else "OK" ++ str1 lf.

(** [sendCommandUnsafe] is an internal version without mutex lock for
    use within locked contexts. *)
Definition sendCommandUnsafe (cmd : string) : Do lines_err :=
  let cmdTrimmed := TrimSpace cmd in
  let multiLineResponse := HasPrefix cmdTrimmed "LIST " in
  let cmdWithNewline := cmd ++ str1 lf in
  w <- Fprint cmdWithNewline ;;
  match w with
  | inr err =>
      modify (withMetrics (addCommandsFailed 1)) ;;;
      ret ([], Some (ErrWrap "failed to send command" err))
  | inl n =>
      modify (withMetrics (fun m => addBytesSent n (addCommandsSent 1 m))) ;;;
      let endLine := endLineOf cmdTrimmed multiLineResponse in
      r <- ReadResponse endLine multiLineResponse ;;
      match r with
      | (_, Some err) =>
          modify (withMetrics (addCommandsFailed 1)) ;;;
          ret ([], Some (ErrWrap "failed to read response" err))
      | (resp, None) =>
          modify (withMetrics (fun m =>
            fold_left (fun m line =>
              addBytesReceived (Z.of_nat (String.length line + 1)) m) resp m)) ;;;
          match serverError resp with
          | Some e =>
              modify (withMetrics (addCommandsFailed 1)) ;;;
              ret ([], Some e)
          | None => ret (resp, None)
          end
      end
  end.

(** [SendCommandWithContext] sends a command with context support for
    cancellation. *)
Definition SendCommandWithContext (ctx : Context) (cmd : string) : Do lines_err :=
  match doneAtStart ctx with
  | Some e => ret ([], Some (ErrCtx e))
  | None =>
      let cmdTrimmed := TrimSpace cmd in
      let multiLineResponse := HasPrefix cmdTrimmed "LIST " in
      let cmdWithNewline := cmd ++ str1 lf in
      w <- Fprint cmdWithNewline ;;
      match w with
      | inr err => ret ([], Some (ErrWrap "failed to send command" err))
      | inl _ =>
          let endLine := endLineOf cmdTrimmed multiLineResponse in
          r <- readResponseWithContext ctx endLine multiLineResponse ;;
          match r with
          | (_, Some err) => ret ([], Some (ErrWrap "failed to read response" err))
          | (resp, None) =>
              match serverError resp with
              | Some e => ret ([], Some e)
              | None => ret (resp, None)
              end
          end
      end
  end.

(** [SendCommand] sends the string cmd to the device, and returns the
    response. *)
Definition SendCommand (cmd : string) : Do lines_err :=
  SendCommandWithContext Background cmd.

(** * ups.go: the device registry *)

(** The struct [Command]. *)
Record Command := {
  CmdName : string;
  CmdDescription : string
}.

(** The struct [UPS]; its [nutClient] is the client that the calls
    below run on. *)
Record UPS := {
  UPSName : string;
  UPSDescription : string;
  Master : bool;
  NumberOfLogins : Z;
  Clients : list string;
  Variables : list NutVariable;
  Commands : list Command
}.

Definition setVariables (u : UPS) (vars : list NutVariable) : UPS :=
  {| UPSName := UPSName u; UPSDescription := UPSDescription u; Master := Master u;
     NumberOfLogins := NumberOfLogins u; Clients := Clients u;
     Variables := vars; Commands := Commands u |}.

(** [GetVariableDescription] returns a string that gives a brief
    explanation for the given variableName. *)
Definition GetVariableDescription (u : UPS) (variableName : string)
  : Do (string * option error) :=
  r <- SendCommand ("GET DESC " ++ quoteName (UPSName u) ++ " " ++ quoteName variableName) ;;
  match r with
  | (_, Some err) => ret (EmptyString, Some err)
  | ([], None) => ret (EmptyString, Some (ErrNew "empty response from GET DESC"))
  | (first :: _, None) =>
      let trimmedLine :=
        TrimPrefix first ("DESC " ++ UPSName u ++ " " ++ variableName ++ " ") in
      let description := ReplaceAll trimmedLine dq EmptyString in
      ret (description, None)
  end.

(** A result [(string, bool, int, error)] of [GetVariableType]. *)
Definition type_result : Type := string * bool * Z * option error.

(** The prefix that [GetVariableType] trims from the response line. *)
Definition typePrefix (u : UPS) (variableName : string) : string :=
  "TYPE " ++ UPSName u ++ " " ++ variableName ++ " ".

(** The end of [GetVariableType]: the STRING:length format, for both RW
    and RO. *)
Definition splitStringType (varType : string) (writeable : bool) : type_result :=
  if HasPrefix varType "STRING:" then
    let splitType := Split varType ":" in
    if (2 <=? length splitType)%nat then
      let varType := nth 0 splitType EmptyString in
      match Atoi (nth 1 splitType EmptyString) with
      | inl maximumLength => (varType, writeable, maximumLength, None)
      | inr e =>
          (varType, writeable, (-1)%Z,
           Some (ErrNum "Atoi" (nth 1 splitType EmptyString) e))
      end
    else (varType, writeable, 0%Z, None)
  else (varType, writeable, 0%Z, None).

(** [GetVariableType], from the response on: with the RW/RO flag of
    newer servers, or the type alone, which is taken as read-only. *)
Definition typeOfResponse (u : UPS) (variableName : string) (resp : list string)
  : type_result :=
  match resp with
  | [] => ("UNKNOWN", false, (-1)%Z, Some (ErrNew "empty response from GET TYPE"))
  | first :: _ =>
      let trimmedLine := TrimPrefix first (typePrefix u variableName) in
      let splitLine := Split trimmedLine " " in
      if (length splitLine <? 1)%nat then
        ("UNKNOWN", false, (-1)%Z, Some (ErrNew "invalid TYPE response format"))
      else
        let flag := nth 0 splitLine EmptyString in
        if (2 <=? length splitLine)%nat && (String.eqb flag "RW" || String.eqb flag "RO")
        then splitStringType (nth 1 splitLine EmptyString) (String.eqb flag "RW")
        else if (1 <=? length splitLine)%nat
        then splitStringType (nth 0 splitLine EmptyString) false
        else ("UNKNOWN", false, (-1)%Z,
              Some (ErrNew "invalid TYPE response format: got empty response after parsing"))
  end.

(** [GetVariableType] returns the variable type, writeability and
    maximum length for the given variableName. *)
Definition GetVariableType (u : UPS) (variableName : string) : Do type_result :=
  r <- SendCommand ("GET TYPE " ++ quoteName (UPSName u) ++ " " ++ quoteName variableName) ;;
  match r with
  | (_, Some err) => ret ("UNKNOWN", false, (-1)%Z, Some err)
  | (resp, None) => ret (typeOfResponse u variableName resp)
  end.

(** The same two steps in the earlier copy of ups.go, the one whose
    [NewUPS] fetches everything at construction: the type is always
    taken at index 1. *)
Definition typeOfResponseEager (u : UPS) (variableName : string) (resp : list string)
  : type_result :=
  match resp with
  | [] => ("UNKNOWN", false, (-1)%Z, Some (ErrNew "empty response from GET TYPE"))
  | first :: _ =>
      let trimmedLine := TrimPrefix first (typePrefix u variableName) in
      let splitLine := Split trimmedLine " " in
      if (length splitLine <? 1)%nat then
        ("UNKNOWN", false, (-1)%Z, Some (ErrNew "invalid TYPE response format"))
      else
        let writeable := String.eqb (nth 0 splitLine EmptyString) "RW" in
        if writeable then
          if (length splitLine <? 2)%nat then
            ("UNKNOWN", writeable, (-1)%Z, Some (ErrNew "invalid RW TYPE response format"))
          else splitStringType (nth 1 splitLine EmptyString) writeable
        else
          if (length splitLine <? 2)%nat then
            ("UNKNOWN", writeable, (-1)%Z, Some (ErrNew "invalid RO TYPE response format"))
          else splitStringType (nth 1 splitLine EmptyString) writeable
  end.

Definition GetVariableTypeEager (u : UPS) (variableName : string) : Do type_result :=
  r <- SendCommand ("GET TYPE " ++ quoteName (UPSName u) ++ " " ++ quoteName variableName) ;;
  match r with
  | (_, Some err) => ret ("UNKNOWN", false, (-1)%Z, Some err)
  | (resp, None) => ret (typeOfResponseEager u variableName resp)
  end.

(** [resp[1 : len(resp)-1]] *)
Definition middle (resp : list string) : list string := removelast (tl resp).

(** The name and the raw value that the loop of [GetVariables] takes
    from an entry line, or [None] for a line that it skips. *)
Definition entryOf (offset line : string) : option (string * string) :=
  let cleanedLine := TrimPrefix line offset in
  let splitLine := Split cleanedLine dq in
  if (length splitLine <? 2)%nat then None
  else Some (TrimSuffix (nth 0 splitLine EmptyString) " ",
             Trim (nth 1 splitLine EmptyString) " ").

(** [newVar] as the loop body of [GetVariables] has filled it in before
    the switch on the raw value. *)
Definition filledVariable (name raw description varType : string)
    (writeable : bool) (maximumLength : Z) : NutVariable :=
  {| Name := name; Value := VString raw; Type_ := varType;
     Description := description; Writeable := writeable;
     MaximumLength := maximumLength; OriginalType := EmptyString |}.

(** The loop of [GetVariables] over the entry lines; an error of one of
    the two queries ends it with the variables built so far. *)
Fixpoint variablesLoop (u : UPS) (offset : string) (lines : list string)
    (vars : list NutVariable) : Do (list NutVariable * option error) :=
  match lines with
  | [] => ret (vars, None)
  | line :: rest =>
      match entryOf offset line with
      | None => variablesLoop u offset rest vars
      | Some (name, raw) =>
          d <- GetVariableDescription u name ;;
          match d with
          | (_, Some err) => ret (vars, Some err)
          | (description, None) =>
              t <- GetVariableType u name ;;
              match t with
              | (_, _, _, Some err) => ret (vars, Some err)
              | (varType, writeable, maximumLength, None) =>
                  let newVar :=
                    filledVariable name raw description varType writeable
                      maximumLength in
                  variablesLoop u offset rest
                    (vars ++ [inferValue newVar raw varType])%list
              end
          end
      end
  end.

(** [GetVariables] returns a slice of Variable structs for the UPS. *)
Definition GetVariables (u : UPS) : Do (list NutVariable * option error * UPS) :=
  r <- SendCommand ("LIST VAR " ++ quoteName (UPSName u)) ;;
  match r with
  | (_, Some err) => ret ([], Some err, u)
  | (resp, None) =>
      if (length resp <? 2)%nat then ret ([], None, setVariables u [])
      else
        let offset := "VAR " ++ UPSName u ++ " " in
        v <- variablesLoop u offset (middle resp) [] ;;
        match v with
        | (vars, Some err) => ret (vars, Some err, u)
        | (vars, None) => ret (vars, None, setVariables u vars)
        end
  end.

(** ** The other queries on a UPS *)

Definition setDescription (u : UPS) (description : string) : UPS :=
  {| UPSName := UPSName u; UPSDescription := description; Master := Master u;
     NumberOfLogins := NumberOfLogins u; Clients := Clients u;
     Variables := Variables u; Commands := Commands u |}.

Definition setNumberOfLogins (u : UPS) (n : Z) : UPS :=
  {| UPSName := UPSName u; UPSDescription := UPSDescription u; Master := Master u;
     NumberOfLogins := n; Clients := Clients u;
     Variables := Variables u; Commands := Commands u |}.

Definition setUPSClients (u : UPS) (clientsList : list string) : UPS :=
  {| UPSName := UPSName u; UPSDescription := UPSDescription u; Master := Master u;
     NumberOfLogins := NumberOfLogins u; Clients := clientsList;
     Variables := Variables u; Commands := Commands u |}.

Definition setMaster (u : UPS) : UPS :=
  {| UPSName := UPSName u; UPSDescription := UPSDescription u; Master := true;
     NumberOfLogins := NumberOfLogins u; Clients := Clients u;
     Variables := Variables u; Commands := Commands u |}.

Definition setCommands (u : UPS) (commandsList : list Command) : UPS :=
  {| UPSName := UPSName u; UPSDescription := UPSDescription u; Master := Master u;
     NumberOfLogins := NumberOfLogins u; Clients := Clients u;
     Variables := Variables u; Commands := commandsList |}.

(** [GetNumberOfLogins] returns the number of clients which have done
    LOGIN for this UPS. *)
Definition GetNumberOfLogins (u : UPS) : Do (Z * option error * UPS) :=
  r <- SendCommand ("GET NUMLOGINS " ++ quoteName (UPSName u)) ;;
  match r with
  | (_, Some err) => ret (0%Z, Some err, u)
  | ([], None) => ret (0%Z, Some (ErrNew "empty response from GET NUMLOGINS"), u)
  | (first :: _, None) =>
      let digits := TrimPrefix first ("NUMLOGINS " ++ UPSName u ++ " ") in
      match Atoi digits with
      | inr e => ret (0%Z, Some (ErrNum "Atoi" digits e), u)
      | inl atoi => ret (atoi, None, setNumberOfLogins u atoi)
      end
  end.

(** [GetClients] returns a list of NUT clients. *)
Definition GetClients (u : UPS) : Do (list string * option error * UPS) :=
  r <- SendCommand ("LIST CLIENT " ++ quoteName (UPSName u)) ;;
  match r with
  | (_, Some err) => ret ([], Some err, u)
  | (resp, None) =>
      if (length resp <? 2)%nat then ret ([], None, u)
      else
        let linePrefix := "CLIENT " ++ UPSName u ++ " " in
        let clientsList := map (fun line => TrimPrefix line linePrefix) (middle resp) in
        ret (clientsList, None, setUPSClients u clientsList)
  end.

(** [CheckIfMaster] returns true if the session is authenticated with
    the master permission set. *)
Definition CheckIfMaster (u : UPS) : Do (bool * option error * UPS) :=
  r <- SendCommand ("MASTER " ++ quoteName (UPSName u)) ;;
  match r with
  | (_, Some err) => ret (false, Some err, u)
  | ([], None) => ret (false, None, u)
  | (first :: _, None) =>
      if String.eqb first "OK" then ret (true, None, setMaster u)
      else ret (false, None, u)
  end.

(** [GetDescription]: the value of desc= from ups.conf for this UPS. *)
Definition GetDescription (u : UPS) : Do (string * option error * UPS) :=
  r <- SendCommand ("GET UPSDESC " ++ quoteName (UPSName u)) ;;
  match r with
  | (_, Some err) => ret (EmptyString, Some err, u)
  | ([], None) => ret (EmptyString, Some (ErrNew "empty response from GET UPSDESC"), u)
  | (first :: _, None) =>
      let description :=
        TrimPrefix (ReplaceAll first dq EmptyString) ("UPSDESC " ++ UPSName u ++ " ") in
      ret (description, None, setDescription u description)
  end.

(** [NewUPS] takes a UPS name and NUT client and returns an instantiated
    UPS struct. The errors of the two queries are only logged. *)
Definition NewUPS (name : string) : Do (UPS * option error) :=
  let newUPS := {| UPSName := name; UPSDescription := EmptyString; Master := false;
                   NumberOfLogins := 0%Z; Clients := []; Variables := [];
                   Commands := [] |} in
  d <- GetDescription newUPS ;;
  let newUPS := snd d in
  n <- GetNumberOfLogins newUPS ;;
  let newUPS := snd n in
  ret (newUPS, None).

(** [GetCommandDescription] returns a string that gives a brief
    explanation for the given commandName. *)
Definition GetCommandDescription (u : UPS) (commandName : string)
  : Do (string * option error) :=
  r <- SendCommand ("GET CMDDESC " ++ quoteName (UPSName u) ++ " " ++ quoteName commandName) ;;
  match r with
  | (_, Some err) => ret (EmptyString, Some err)
  | ([], None) => ret (EmptyString, Some (ErrNew "empty response from GET CMDDESC"))
  | (first :: _, None) =>
      let trimmedLine :=
        TrimPrefix first ("CMDDESC " ++ UPSName u ++ " " ++ commandName ++ " ") in
      let description := ReplaceAll trimmedLine dq EmptyString in
      ret (description, None)
  end.

(** The loop of [GetCommands] over the entry lines; an error of the
    query ends it with the commands built so far. *)
Fixpoint commandsLoop (u : UPS) (linePrefix : string) (lines : list string)
    (commandsList : list Command) : Do (list Command * option error) :=
  match lines with
  | [] => ret (commandsList, None)
  | line :: rest =>
      let cmdName := TrimPrefix line linePrefix in
      d <- GetCommandDescription u cmdName ;;
      match d with
      | (_, Some err) => ret (commandsList, Some err)
      | (description, None) =>
          let cmd := {| CmdName := cmdName; CmdDescription := description |} in
          commandsLoop u linePrefix rest (commandsList ++ [cmd])%list
      end
  end.

(** [GetCommands] returns a slice of Command structs for the UPS. *)
Definition GetCommands (u : UPS) : Do (list Command * option error * UPS) :=
  r <- SendCommand ("LIST CMD " ++ quoteName (UPSName u)) ;;
  match r with
  | (_, Some err) => ret ([], Some err, u)
  | (resp, None) =>
      if (length resp <? 2)%nat then ret ([], None, setCommands u [])
      else
        let linePrefix := "CMD " ++ UPSName u ++ " " in
        v <- commandsLoop u linePrefix (middle resp) [] ;;
        match v with
        | (commandsList, Some err) => ret (commandsList, Some err, u)
        | (commandsList, None) => ret (commandsList, None, setCommands u commandsList)
        end
  end.

(** [SetVariable] sets the given variableName to the given value on the
    UPS. *)
Definition SetVariable (u : UPS) (variableName value : string)
  : Do (bool * option error) :=
  let escapedValue := ReplaceAll value bs (bs ++ bs) in
  let escapedValue := ReplaceAll escapedValue dq (bs ++ dq) in
  r <- SendCommand ("SET VAR " ++ quoteName (UPSName u) ++ " " ++ quoteName variableName
                    ++ " " ++ dq ++ escapedValue ++ dq) ;;
  match r with
  | (_, Some err) => ret (false, Some err)
  | ([], None) => ret (false, None)
  | (first :: _, None) => ret (String.eqb first "OK", None)
  end.

(** The method [SendCommand] of a UPS: sends a command to the UPS. *)
Definition UPS_SendCommand (u : UPS) (commandName : string)
  : Do (bool * option error) :=
  r <- SendCommand ("INSTCMD " ++ quoteName (UPSName u) ++ " " ++ quoteName commandName) ;;
  match r with
  | (_, Some err) => ret (false, Some err)
  | ([], None) => ret (false, None)
  | (first :: _, None) => ret (String.eqb first "OK", None)
  end.

(** [ForceShutdown] sets the FSD flag on the UPS. *)
Definition ForceShutdown (u : UPS) : Do (bool * option error) :=
  r <- SendCommand ("FSD " ++ quoteName (UPSName u)) ;;
  match r with
  | (_, Some err) => ret (false, Some err)
  | ([], None) => ret (false, None)
  | (first :: _, None) => ret (String.eqb first "OK FSD-SET", None)
  end.

(** * nut.go: connecting and closing *)

(** [GetVersion] returns the the version of the server currently in
    use. *)
Definition GetVersion : Do (string * option error) :=
  r <- SendCommand "VER" ;;
  match r with
  | (_, Some err) => ret (EmptyString, Some err)
  | ([], None) => ret (EmptyString, Some (ErrNew "empty response from VER command"))
  | (first :: _, None) =>
      modify (fun c => {| Version := first; ProtocolVersion := ProtocolVersion c;
                          conn := conn c; UseTLS := UseTLS c; metrics := metrics c |}) ;;;
      ret (first, None)
  end.

(** [GetNetworkProtocolVersion] returns the version of the network
    protocol currently in use. *)
Definition GetNetworkProtocolVersion : Do (string * option error) :=
  r <- SendCommand "NETVER" ;;
  match r with
  | (_, Some err) => ret (EmptyString, Some err)
  | ([], None) => ret (EmptyString, Some (ErrNew "empty response from NETVER command"))
  | (first :: _, None) =>
      modify (fun c => {| Version := Version c; ProtocolVersion := first;
                          conn := conn c; UseTLS := UseTLS c; metrics := metrics c |}) ;;;
      ret (first, None)
  end.

(** [Close] closes the connection without sending LOGOUT command. *)
Definition ClientClose (c : Client) : option error * Client :=
  match conn c with
  | None => (Some (ErrNew "connection already closed"), c)
  | Some k =>
      (if closeFails k then Some (ErrNet NetFailure) else None, setConn c None)
  end.

Definition zeroMetrics : ClientMetrics :=
  {| CommandsSent := 0; CommandsFailed := 0; BytesSent := 0; BytesReceived := 0;
     Reconnects := 0 |}.

(** [ClientOption] is a function that configures a Client. It receives
    the pointer to the client and may change whatever the client holds;
    the model takes the client and gives the client that the call leaves
    behind. An option that panics or does not return is left out. The
    options that the package offers, [WithConnectTimeout],
    [WithReadTimeout], [WithTLSConfig] and [WithLogger], set fields that
    the model leaves out: there they change nothing. *)
Definition ClientOption : Type := Client -> Client.

(** The client that [ConnectWithOptionsAndConfig] builds before it
    applies the options: no connection yet, and metrics of its own. *)
Definition newClient : Client :=
  {| Version := EmptyString; ProtocolVersion := EmptyString; conn := None;
     UseTLS := false; metrics := Some zeroMetrics |}.

(** [ConnectWithOptionsAndConfig] creates a connection with full
    configuration support. [dial] is what [DialContext] answers for the
    address. The options are applied in their order to the new client,
    before the dial; the connection is set afterwards. The result is the
    connected client or the error; a client whose version queries fail
    is closed and dropped. The two queries run on a client whose
    connection was just set, so they do not panic; that case only
    completes the match. *)
Definition ConnectWithOptionsAndConfig (opts : list ClientOption) (dial : Conn + error)
  : Client + error :=
  let client := newClient in
  let client := fold_left (fun client opt => opt client) opts client in
  match dial with
  | inr err => inr err
  | inl tcpConn =>
      let client := setConn client (Some tcpConn) in
      match GetVersion client with
      | Panics => inr (ErrNew "panic")
      | Returns (_, Some err) _ => inr (ErrWrap "failed to get version" err)
      | Returns (_, None) client =>
          match GetNetworkProtocolVersion client with
          | Panics => inr (ErrNew "panic")
          | Returns (_, Some err) _ =>
              inr (ErrWrap "failed to get network protocol version" err)
          | Returns (_, None) client => inl client
          end
      end
  end.

(** [ConnectWithOptions] creates a connection with custom options and
    context support: it passes no options on. *)
Definition ConnectWithOptions (dial : Conn + error) : Client + error :=
  ConnectWithOptionsAndConfig [] dial.

(** [Connect] accepts a hostname/IP string and an optional port, then
    creates a connection to NUT, returning a Client. *)
Definition Connect (dial : Conn + error) : Client + error :=
  ConnectWithOptions dial.

(** ** The other calls on a session *)

(** [GetMetrics] returns a copy of the current metrics. *)
Definition GetMetrics (c : Client) : ClientMetrics :=
  match metrics c with
  | None => zeroMetrics
  | Some m =>
      {| CommandsSent := CommandsSent m; CommandsFailed := CommandsFailed m;
         BytesSent := BytesSent m; BytesReceived := BytesReceived m;
         Reconnects := Reconnects m |}
  end.

(** [StartTLS] initiates a TLS/SSL connection with the NUT server using
    STARTTLS command. [handshake] is what [tls.Client] and its
    [Handshake] make of the connection once the server has accepted:
    the connection that carries the session from then on, or the
    error. *)
Definition StartTLS (handshake : Conn -> Conn + error) : Do (option error) := fun c =>
  if UseTLS c then Returns (Some (ErrNew "already in TLS mode")) c
  else
    (r <- SendCommand "STARTTLS" ;;
     match r with
     | (_, Some err) => ret (Some (ErrFmt "STARTTLS command failed" err))
     | ([], None) => ret (Some (ErrNew "server did not accept STARTTLS: empty response"))
     | (first :: _, None) =>
         if negb (String.eqb first "OK STARTTLS")
         then ret (Some (ErrNew ("server did not accept STARTTLS: " ++ first)))
         else fun c =>
           match conn c with
           | None => Panics
           | Some k =>
               match handshake k with
               | inr err => Returns (Some (ErrFmt "TLS handshake failed" err)) c
               | inl tlsConn =>
                   Returns None
                     {| Version := Version c; ProtocolVersion := ProtocolVersion c;
                        conn := Some tlsConn; UseTLS := true; metrics := metrics c |}
               end
           end
     end) c.

(** [Disconnect] gracefully disconnects from NUT by sending the LOGOUT
    command. *)
Definition Disconnect : Do (bool * option error) := fun c =>
  match conn c with
  | None => Returns (false, Some (ErrNew "connection already closed")) c
  | Some _ =>
      (r <- sendCommandUnsafe "LOGOUT" ;;
       let logoutResp := fst r in
       fun c =>
         match conn c with
         | None => Panics
         | Some k =>
             let c := setConn c None in
             if closeFails k then Returns (false, Some (ErrNet NetFailure)) c
             else
               match logoutResp with
               | first :: _ =>
                   if String.eqb first "OK Goodbye" || String.eqb first "Goodbye..."
                   then Returns (true, None) c
                   else Returns (false, None) c
               | [] => Returns (false, None) c
               end
         end) c
  end.

(** [Authenticate] accepts a username and passwords and uses them to
    authenticate the existing NUT session. *)
Definition Authenticate (username password : string) : Do (bool * option error) :=
  u <- SendCommand ("USERNAME " ++ username) ;;
  match u with
  | (_, Some err) => ret (false, Some err)
  | (usernameResp, None) =>
      p <- SendCommand ("PASSWORD " ++ password) ;;
      match p with
      | (_, Some err) => ret (false, Some err)
      | (passwordResp, None) =>
          match usernameResp, passwordResp with
          | uline :: _, pline :: _ =>
              ret (String.eqb uline "OK" && String.eqb pline "OK", None)
          | _, _ => ret (false, None)
          end
      end
  end.

(** The name that [GetUPSList] takes from a line of the listing. *)
Definition upsNameOf (line : string) : string :=
  let splitLine := Split (TrimPrefix line "UPS ") dq in
  TrimSuffix (nth 0 splitLine EmptyString) " ".

(** The loop of [GetUPSList] over the lines of the response. *)
Fixpoint upsLoop (lines : list string) (upsList : list UPS)
  : Do (list UPS * option error) :=
  match lines with
  | [] => ret (upsList, None)
  | line :: rest =>
      if HasPrefix line "UPS " then
        if (length (Split (TrimPrefix line "UPS ") dq) <? 1)%nat
        then upsLoop rest upsList
        else
          r <- NewUPS (upsNameOf line) ;;
          match r with
          | (_, Some err) => ret (upsList, Some err)
          | (newUPS, None) => upsLoop rest (upsList ++ [newUPS])%list
          end
      else upsLoop rest upsList
  end.

(** [GetUPSList] returns a list of all UPSes provided by this NUT
    instance. *)
Definition GetUPSList : Do (list UPS * option error) :=
  r <- SendCommand "LIST UPS" ;;
  match r with
  | (_, Some err) => ret ([], Some err)
  | (resp, None) => upsLoop resp []
  end.

(** * nut.go: the connection pool *)

(** A [*Client]. The clients live in a store; a pointer that the store
    does not hold stands for a client built by the literal [&Client{}],
    whose connection is nil. *)
Definition ClientId : Type := nat.

Definition zeroClient : Client :=
  {| Version := EmptyString; ProtocolVersion := EmptyString; conn := None;
     UseTLS := false; metrics := None |}.

Definition deref (heap : gmap ClientId Client) (id : ClientId) : Client :=
  default zeroClient (heap !! id).

(** The struct [PoolConfig]. *)
Record PoolConfig := {
  MaxSize : Z;
  Hostname : string;
  Port : Z;
  ClientOptions : list ClientOption
}.

(** The struct [Pool]. [clients] is the buffer of the channel, oldest
    first; its capacity is [maxSize]. [maxSize] and [activeClients] are
    of type [int]. *)
Record Pool := {
  hostname : string;
  port : Z;
  opts : list ClientOption;
  clients : list ClientId;
  maxSize : Z;
  closed : bool;
  activeClients : Z
}.

(** The pool and the store of the clients that the pointers refer to;
    [nextId] is the next pointer to be allocated. *)
Record World := {
  heap : gmap ClientId Client;
  nextId : ClientId;
  pool : Pool
}.

(** Arithmetic on [int], 64 bits wide. *)
Definition wrapInt (x : Z) : Z := ((x + 2 ^ 63) mod 2 ^ 64 - 2 ^ 63)%Z.

Definition setClients (p : Pool) (q : list ClientId) : Pool :=
  {| hostname := hostname p; port := port p; opts := opts p; clients := q;
     maxSize := maxSize p; closed := closed p; activeClients := activeClients p |}.

Definition setActive (p : Pool) (n : Z) : Pool :=
  {| hostname := hostname p; port := port p; opts := opts p; clients := clients p;
     maxSize := maxSize p; closed := closed p; activeClients := n |}.

Definition setClosed (p : Pool) : Pool :=
  {| hostname := hostname p; port := port p; opts := opts p; clients := clients p;
     maxSize := maxSize p; closed := true; activeClients := activeClients p |}.

Definition setPool (w : World) (p : Pool) : World :=
  {| heap := heap w; nextId := nextId w; pool := p |}.

Definition setHeap (w : World) (h : gmap ClientId Client) : World :=
  {| heap := h; nextId := nextId w; pool := pool w |}.

(** [p.activeClients++] and [p.activeClients--] *)
Definition incActive (w : World) : World :=
  setPool w (setActive (pool w) (wrapInt (activeClients (pool w) + 1))).

Definition decActive (w : World) : World :=
  setPool w (setActive (pool w) (wrapInt (activeClients (pool w) - 1))).

(** [client.Close()] through the pointer. *)
Definition closeAt (id : ClientId) (w : World) : option error * World :=
  let (err, c) := ClientClose (deref (heap w) id) in
  (err, setHeap w (<[ id := c ]> (heap w))).

(** [NewPool] creates a new connection pool with the given
    configuration. *)
Definition NewPool (config : PoolConfig) : Pool + error :=
  let size := if (MaxSize config <=? 0)%Z then 10%Z else MaxSize config in
  let prt := if (Port config =? 0)%Z then 3493%Z else Port config in
  if String.eqb (Hostname config) EmptyString then inr (ErrNew "hostname is required")
  else inl {| hostname := Hostname config; port := prt; opts := ClientOptions config;
              clients := []; maxSize := size; closed := false; activeClients := 0 |}.

(** What a call of [Get] meets outside the pool: the answer of the dial,
    whether the context is done while the call waits, and, when both
    cases of the select are ready, whether the context is taken. *)
Record GetEnv := {
  dial : Conn + error;
  ctxDone : option CtxError;
  ctxFirst : bool
}.

(** By which return statement [Get] handed out a client: from the queue
    at the first select, after a new connection, or from the queue at
    the select that waits. *)
Inductive GetPath := Idle | Created | Waited.

(** The result of [Get]; [GetBlocked] is the call that waits for ever
    when no other call releases a client. *)
Inductive GetResult :=
| GetOk (path : GetPath) (client : ClientId)
| GetErr (e : error)
| GetBlocked.

(** The second half of [Get]: create new client if we have not reached
    max size, otherwise wait for an available client. *)
Definition createOrWait (env : GetEnv) (w : World) : GetResult * World :=
  let p := pool w in
  if (maxSize p <=? activeClients p)%Z then
    match clients p, ctxDone env with
    | id :: rest, None => (GetOk Waited id, setPool w (setClients p rest))
    | id :: rest, Some e =>
        if ctxFirst env then (GetErr (ErrCtx e), w)
        else (GetOk Waited id, setPool w (setClients p rest))
    | [], Some e => (GetErr (ErrCtx e), w)
    | [], None => (GetBlocked, w)
    end
  else
    let w := incActive w in
    match ConnectWithOptionsAndConfig (opts p) (dial env) with
    | inr err => (GetErr err, decActive w)
    | inl client =>
        let client := withMetrics (addReconnects 1) client in
        (GetOk Created (nextId w),
         {| heap := <[ nextId w := client ]> (heap w); nextId := S (nextId w);
            pool := pool w |})
    end.

(** [Get] retrieves a client from the pool, creating a new one if
    needed. *)
Definition Get (env : GetEnv) (w : World) : GetResult * World :=
  let p := pool w in
  if closed p then (GetErr (ErrNew "pool is closed"), w)
  else
    match clients p with
    | id :: rest =>
        let w := setPool w (setClients p rest) in
        match conn (deref (heap w) id) with
        | Some _ => (GetOk Idle id, w)
        | None => createOrWait env (decActive w)
        end
    | [] => createOrWait env w
    end.

(** [Put] returns a client to the pool. If the pool is full, the client
    is closed. *)
Definition Put (client : option ClientId) (w : World) : option error * World :=
  match client with
  | None => (None, w)
  | Some id =>
      let p := pool w in
      if closed p then closeAt id w
      else if (Z.of_nat (length (clients p)) <? maxSize p)%Z
      then (None, setPool w (setClients p (clients p ++ [id])%list))
      else closeAt id (decActive w)
  end.

(** The loop of [Close] over the clients left in the channel. *)
Fixpoint closeAll (ids : list ClientId) (lastErr : option error) (w : World)
  : option error * World :=
  match ids with
  | [] => (lastErr, w)
  | id :: rest =>
      let (err, w) := closeAt id w in
      closeAll rest (match err with Some e => Some e | None => lastErr end) w
  end.

(** [Close] closes all clients in the pool and prevents new clients from
    being created. *)
Definition PoolClose (w : World) : option error * World :=
  let p := pool w in
  if closed p then (None, w)
  else
    let w := setPool w (setClosed p) in
    closeAll (clients p) None (setPool w (setClients (pool w) [])).

(** [Stats] returns statistics about the pool. *)
Definition Stats (w : World) : Z * Z :=
  (Z.of_nat (length (clients (pool w))), activeClients (pool w)).

(** ** Sequences of calls *)

(** The calls on a pool and on the clients it handed out: the three
    methods of the pool, and a holder of a pointer closing the client
    behind it. *)
Inductive Call :=
| CallGet (env : GetEnv)
| CallPut (client : option ClientId)
| CallClose
| CallClientClose (id : ClientId).

Fixpoint removeOne (id : ClientId) (l : list ClientId) : list ClientId :=
  match l with
  | [] => []
  | x :: r => if Nat.eqb x id then r else x :: removeOne id r
  end.

(** The state of a run: the world, the clients that are checked out
    (returned by [Get] and not yet given to [Put]), and whether every
    [Put] so far released a client that was checked out. *)
Record Run := {
  world : World;
  checkedOut : list ClientId;
  disciplined : bool
}.

Definition step (r : Run) (call : Call) : Run :=
  match call with
  | CallGet env =>
      let (res, w) := Get env (world r) in
      {| world := w;
         checkedOut := match res with
                       | GetOk _ id => id :: checkedOut r
                       | _ => checkedOut r
                       end;
         disciplined := disciplined r |}
  | CallPut None =>
      {| world := snd (Put None (world r)); checkedOut := checkedOut r;
         disciplined := disciplined r |}
  | CallPut (Some id) =>
      {| world := snd (Put (Some id) (world r));
         checkedOut := removeOne id (checkedOut r);
         disciplined := disciplined r && existsb (Nat.eqb id) (checkedOut r) |}
  | CallClose =>
      {| world := snd (PoolClose (world r)); checkedOut := checkedOut r;
         disciplined := disciplined r |}
  | CallClientClose id =>
      {| world := snd (closeAt id (world r)); checkedOut := checkedOut r;
         disciplined := disciplined r |}
  end.

(** The run of a sequence of calls on a pool that [NewPool] returned. *)
Definition start (p : Pool) : Run :=
  {| world := {| heap := ∅; nextId := 0; pool := p |}; checkedOut := [];
     disciplined := true |}.

Definition run (p : Pool) (calls : list Call) : Run := fold_left step calls (start p).

End Session.

(** * Definitions of the specification

    What the statements below need beside the code: the notions that
    the specification uses (escaping and unquoting of names, the two
    number patterns, the sentinel, the type token), the shape of the
    results of the code, and the inputs of the examples. *)

(** ** Names *)

(** The escaping of a name, byte by byte: a backslash becomes two, a
    double quote gets a backslash in front. *)
Fixpoint escape (s : string) : string :=
  match s with
  | EmptyString => EmptyString
  | String c r =>
      if Ascii.eqb c bslash then String bslash (String bslash (escape r))
      else if Ascii.eqb c dquote then String bslash (String dquote (escape r))
      else String c (escape r)
  end.

(** The replacement of every byte [c] of [s] by [new]. *)
Fixpoint substByte (c : ascii) (new s : string) : string :=
  match s with
  | EmptyString => EmptyString
  | String x r =>
      if Ascii.eqb x c then new ++ substByte c new r else String x (substByte c new r)
  end.

(** The characters that the specification names for quoting: space, tab
    and the double quote. *)
Definition claimedChars : string := String space (String tab (str1 dquote)).

(** The unquoting that the protocol applies to a name: the wrapping
    double quotes are stripped if present, then a backslash followed by
    a backslash or a double quote stands for that byte. *)
Definition stripQuotes (s : string) : string :=
  if HasPrefix s dq && HasSuffix s dq && (2 <=? String.length s)%nat
  then take (String.length s - 2) (drop 1 s)
  else s.

Fixpoint unescape (s : string) : string :=
  match s with
  | EmptyString => EmptyString
  | String c r =>
      if Ascii.eqb c bslash then
        match r with
        | String d r' =>
            if Ascii.eqb d bslash || Ascii.eqb d dquote
            then String d (unescape r')
            else String c (unescape r)
        | EmptyString => str1 c
        end
      else String c (unescape r)
  end.

Definition unquote (s : string) : string := unescape (stripQuotes s).

(** Backslash, double quote and the white space of ASCII. *)
Definition quotingAlphabet : string :=
  String bslash (String dquote (String space (String tab
    (String lf (String cr (String vtab (str1 ffeed))))))).

(** Every byte of [s] is in [chars]. *)
Fixpoint allIn (chars s : string) : bool :=
  match s with
  | EmptyString => true
  | String c r => mem c chars && allIn chars r
  end.

(** ** Numbers *)

Fixpoint allDigits (s : string) : bool :=
  match s with
  | EmptyString => true
  | String c r => is_digit c && allDigits r
  end.

(** One digit or more, and nothing else. *)
Definition digits1 (s : string) : bool :=
  match s with
  | EmptyString => false
  | _ => allDigits s
  end.

Definition negative (s : string) : bool :=
  match s with
  | String c _ => Ascii.eqb c "-"
  | EmptyString => false
  end.

(** [s] without its minus sign, if it has one. *)
Definition unsigned (s : string) : string :=
  match s with
  | String c r => if Ascii.eqb c "-" then r else s
  | EmptyString => s
  end.

(** The pattern of the integers: an optional minus sign and digits. *)
Definition intPattern (s : string) : bool := digits1 (unsigned s).

(** Digits, a point and digits; [seen] says that a digit came before. *)
Fixpoint floatBody (s : string) (seen : bool) : bool :=
  match s with
  | EmptyString => false
  | String c r =>
      if is_digit c then floatBody r true
      else Ascii.eqb c "." && seen && digits1 r
  end.

(** The pattern of the decimals: an optional minus sign, digits, a
    point, digits. *)
Definition floatPattern (s : string) : bool := floatBody (unsigned s) false.

(** The integer that a string of [intPattern] denotes. *)
Definition intValue (s : string) : Z :=
  let n := digits_value (unsigned s) 0 in
  if negative s then (- n)%Z else n.

(** ** Responses *)

(** The bytes of a sequence of lines on the wire. *)
Fixpoint wire (lines : list string) : string :=
  match lines with
  | [] => EmptyString
  | l :: ls => l ++ str1 lf ++ wire ls
  end.

(** A listing command, as the two send paths classify it. *)
Definition isList (cmd : string) : bool := HasPrefix (TrimSpace cmd) "LIST ".

(** The sentinel of a listing command. *)
Definition sentinel (cmd : string) : string := "END " ++ TrimSpace cmd.

(** The connection after a command went out and its response was read
    up to [rest]. *)
Definition afterExchange (k : Conn) (cmd rest : string) : Conn :=
  {| incoming := rest; atEnd := atEnd k; outgoing := outgoing k ++ cmd ++ str1 lf;
     wfail := tl (wfail k); dfail := tl (dfail k); closeFails := closeFails k |}.

(** The read of the response to [cmd] on the connection [k]: the lines,
    if the read succeeds, and the input that is left. *)
Definition responseTo (cmd : string) (k : Conn) : option (list string) * string :=
  readLoop (S (String.length (incoming k)))
    (endLineOf (TrimSpace cmd) (isList cmd)) (isList cmd) (incoming k) [].

(** The received bytes that [sendCommandUnsafe] adds for a response. *)
Definition countReceived (resp : list string) (m : ClientMetrics) : ClientMetrics :=
  fold_left (fun m line => addBytesReceived (Z.of_nat (String.length line + 1)) m)
    resp m.

(** The bytes of [s] before its first space. *)
Fixpoint untilSpace (s : string) : string :=
  match s with
  | EmptyString => EmptyString
  | String c r => if Ascii.eqb c space then EmptyString else String c (untilSpace r)
  end.

(** The token between the letters ERR with their space and the next
    space of an error line. *)
Definition errToken (first : string) : string := untilSpace (drop 4 first).

(** ** Types and variables *)

(** The commands that [GetVariableType] and [GetVariables] send. *)
Definition getTypeCommand (u : UPS) (variableName : string) : string :=
  "GET TYPE " ++ quoteName (UPSName u) ++ " " ++ quoteName variableName.

Definition listVarCommand (u : UPS) : string := "LIST VAR " ++ quoteName (UPSName u).

(** The type token of a TYPE response line, as the server wrote it: the
    word after the RW or RO flag, or the first word when there is no
    flag. *)
Definition typeToken (u : UPS) (variableName first : string) : string :=
  let splitLine := Split (TrimPrefix first (typePrefix u variableName)) " " in
  let flag := nth 0 splitLine EmptyString in
  if (2 <=? length splitLine)%nat && (String.eqb flag "RW" || String.eqb flag "RO")
  then nth 1 splitLine EmptyString
  else nth 0 splitLine EmptyString.

(** The type that [GetVariableType] returns for a token: the length of
    a STRING:length token is cut off. *)
Definition baseType (token : string) : string :=
  if HasPrefix token "STRING:" then "STRING" else token.

(** The variable that the loop of [GetVariables] appends: the filled
    variable after the switch on its raw value. *)
Definition inferred (name raw description varType : string) (writeable : bool)
    (maximumLength : Z) : NutVariable :=
  inferValue (filledVariable name raw description varType writeable maximumLength)
    raw varType.

(** [v] was built by the loop of [GetVariables] from the raw value [raw]
    and the type [varType] that [GetVariableType] returned for its
    name. *)
Definition builtFrom taxonomy (u : UPS) (raw varType : string) (v : NutVariable) : Prop :=
  exists c1 c2 c3 description writeable maximumLength,
    GetVariableDescription taxonomy u (Name v) c1 = Returns (description, None) c2 /\
    GetVariableType taxonomy u (Name v) c2
      = Returns (varType, writeable, maximumLength, None) c3 /\
    v = inferred (Name v) raw description varType writeable maximumLength.

(** [v] comes from one of the entry lines. *)
Definition fromEntry taxonomy (u : UPS) (lines : list string) (v : NutVariable) : Prop :=
  exists line raw varType,
    In line lines /\
    entryOf ("VAR " ++ UPSName u ++ " ") line = Some (Name v, raw) /\
    builtFrom taxonomy u raw varType v.


(** The loop of [GetVariables] took the entries [es] one after the
    other, from the state [c] of the client to the state [c'], and built
    the variables [vars] from them: for each entry, the description
    query ran on the state that the entry before had left and the type
    query on the state after it; the response to GET TYPE began with
    the line [first]; the variable is the one that the inference made
    of the raw value, and its original type is the type that
    [GetVariableType] returned in that call, the base type of the type
    token of [first]. *)
Fixpoint builtInTurn taxonomy (u : UPS) (es : list (string * string))
    (vars : list NutVariable) (c c' : Client) : Prop :=
  match es, vars with
  | [], [] => c' = c
  | (name, raw) :: es, v :: vars =>
      exists c2 c3 description first more varType writeable maximumLength,
        GetVariableDescription taxonomy u name c = Returns (description, None) c2 /\
        SendCommand taxonomy (getTypeCommand u name) c2
          = Returns (first :: more, None) c3 /\
        GetVariableType taxonomy u name c2
          = Returns (varType, writeable, maximumLength, None) c3 /\
        varType = baseType (typeToken u name first) /\
        v = inferred name raw description varType writeable maximumLength /\
        Name v = name /\
        OriginalType v = varType /\
        builtInTurn taxonomy u es vars c3 c'
  | _, _ => False
  end.

(** ** The pool *)

(** The invariant of a run on a pool of maximum size [M]. *)
Definition bounded (M : Z) (r : Run) : Prop :=
  let p := pool (world r) in
  (maxSize p = M /\
   Z.of_nat (length (clients p)) <= M /\
   (disciplined r = true ->
    Z.of_nat (length (checkedOut r)) + Z.of_nat (length (clients p))
      <= activeClients p <= M))%Z.

(** The pointers that a run knows, those in the queue and those in the
    hands of the callers, were allocated before: they lie below
    [nextId]. *)
Definition known (r : Run) : Prop :=
  (forall id, In id (clients (pool (world r))) -> (id < nextId (world r))%nat) /\
  (forall id, In id (checkedOut r) -> (id < nextId (world r))%nat).

(** So do the pointers of the store. *)
Definition stored (w : World) : Prop :=
  forall id c, heap w !! id = Some c -> (id < nextId w)%nat.

(** The calls name only clients of the pool: every pointer that is given
    to [Put] or closed by its holder was allocated before the call. *)
Fixpoint ownClients taxonomy (r : Run) (calls : list Call) : Prop :=
  match calls with
  | [] => True
  | call :: rest =>
      match call with
      | CallPut (Some id) | CallClientClose id => (id < nextId (world r))%nat
      | _ => True
      end /\ ownClients taxonomy (step taxonomy r call) rest
  end.

(** ** Inputs of the examples *)

(** A client on a fresh connection over which the server sends
    [lines]. *)
Definition clientOn (lines : list string) : Client :=
  {| Version := EmptyString; ProtocolVersion := EmptyString;
     conn := Some {| incoming := wire lines; atEnd := Timeout;
                     outgoing := EmptyString; wfail := []; dfail := [];
                     closeFails := false |};
     UseTLS := false; metrics := Some zeroMetrics |}.

(** A taxonomy of one code. *)
Definition sampleTaxonomy : list (string * Failure) :=
  [("ACCESS-DENIED", Kind "access denied")].

Definition sampleUPS : UPS :=
  {| UPSName := "ups"; UPSDescription := EmptyString; Master := false;
     NumberOfLogins := 0; Clients := []; Variables := []; Commands := [] |}.

(** A listing of one variable, with the answers to the two queries that
    [GetVariables] sends for it. *)
Definition listingOf (name value typeLine : string) : list string :=
  [ "BEGIN LIST VAR ups";
    "VAR ups " ++ name ++ " " ++ dq ++ value ++ dq;
    "END LIST VAR ups";
    "DESC ups " ++ name ++ " " ++ dq ++ "Description unavailable" ++ dq;
    "TYPE ups " ++ name ++ " " ++ typeLine ].

Definition chargeVariable : NutVariable :=
  {| Name := "battery.charge"; Value := VInt 100; Type_ := "INTEGER";
     Description := "Description unavailable"; Writeable := false;
     MaximumLength := 0; OriginalType := "NUMBER" |}.

(** A server that answers the two queries of a new connection. *)
Definition helloDial : Conn + error :=
  inl {| incoming := wire ["Network UPS Tools upsd 2.8.0"; "1.3"]; atEnd := Timeout;
         outgoing := EmptyString; wfail := []; dfail := []; closeFails := false |}.

Definition helloEnv : GetEnv :=
  {| dial := helloDial; ctxDone := None; ctxFirst := false |}.

Definition singleConfig : PoolConfig :=
  {| MaxSize := 1; Hostname := "localhost"; Port := 0; ClientOptions := [] |}.

Definition singlePool : Pool :=
  {| hostname := "localhost"; port := 3493; opts := []; clients := []; maxSize := 1;
     closed := false; activeClients := 0 |}.


(** The same pool with the connection of the queued client open. *)
Definition idleWorld : World :=
  {| heap := <[ 0%nat := clientOn [] ]> ∅; nextId := 1%nat;
     pool := {| hostname := "localhost"; port := 3493; opts := []; clients := [0%nat];
                maxSize := 1; closed := false; activeClients := 1 |} |}.


(** ** Notions of the further properties *)

(** The client of a connection attempt once its options have run, each
    on what the one before left. *)
Definition configured (options : list ClientOption) : Client :=
  fold_left (fun client opt => opt client) options newClient.

(** An option written by a caller: it turns TLS on in the client. *)
Definition withUseTLS : ClientOption :=
  fun c => {| Version := Version c; ProtocolVersion := ProtocolVersion c;
              conn := conn c; UseTLS := true; metrics := metrics c |}.

(** The command that [GetVariableDescription] sends. *)
Definition getDescCommand (u : UPS) (variableName : string) : string :=
  "GET DESC " ++ quoteName (UPSName u) ++ " " ++ quoteName variableName.

(** The names and raw values of the entry lines that the loop of
    [GetVariables] does not skip, in their order. *)
Fixpoint entries (offset : string) (lines : list string) : list (string * string) :=
  match lines with
  | [] => []
  | line :: rest =>
      match entryOf offset line with
      | Some e => e :: entries offset rest
      | None => entries offset rest
      end
  end.

(** Between the states [c] and [c'] of a client the commands [cmds]
    went out on its connection, one per line, and nothing else. *)
Definition sent (c c' : Client) (cmds : list string) : Prop :=
  exists k k',
    conn c = Some k /\ conn c' = Some k' /\
    outgoing k' = outgoing k ++ wire cmds.

(** The queries that [GetVariables] sends for the entries. *)
Definition variableQueries (u : UPS) (names : list string) : list string :=
  flat_map (fun name => [getDescCommand u name; getTypeCommand u name]) names.

(** The decimal numeral of an integer of 64 bits, as a server prints
    it: a minus sign for a negative number, then the digits without
    leading zeros. Twenty digits are enough. *)
Fixpoint digitsOf (fuel : nat) (n : Z) : string :=
  match fuel with
  | O => EmptyString
  | S fuel' =>
      (if (n <? 10)%Z then EmptyString else digitsOf fuel' (n / 10))
      ++ str1 (ascii_of_nat (48 + Z.to_nat (n mod 10)))
  end.

Definition decimal (n : Z) : string :=
  if (n <? 0)%Z then "-" ++ digitsOf 20 (- n) else digitsOf 20 n.

(** The flag of a TYPE response line: RW, RO or none. *)
Inductive TypeFlag := FlagRW | FlagRO | NoFlag.

Definition flagWord (f : TypeFlag) : string :=
  match f with
  | FlagRW => "RW "
  | FlagRO => "RO "
  | NoFlag => EmptyString
  end.

Definition isRW (f : TypeFlag) : bool :=
  match f with FlagRW => true | _ => false end.

(** A TYPE response line carries the RW or RO flag and a second
    word. *)
Definition flagged (u : UPS) (variableName first : string) : bool :=
  let splitLine := Split (TrimPrefix first (typePrefix u variableName)) " " in
  (2 <=? length splitLine)%nat &&
  (String.eqb (nth 0 splitLine EmptyString) "RW"
   || String.eqb (nth 0 splitLine EmptyString) "RO").

(** The commands that [SetVariable], [GetCommands] and
    [GetCommandDescription] send. *)
Definition setVarCommand (u : UPS) (variableName value : string) : string :=
  "SET VAR " ++ quoteName (UPSName u) ++ " " ++ quoteName variableName
  ++ " " ++ dq ++ escape value ++ dq.

Definition listCmdCommand (u : UPS) : string := "LIST CMD " ++ quoteName (UPSName u).

Definition getCmdDescCommand (u : UPS) (commandName : string) : string :=
  "GET CMDDESC " ++ quoteName (UPSName u) ++ " " ++ quoteName commandName.

(** ** Proof steps *)

(** The reductions of a call in the monad of the client. *)
Ltac red_do :=
  cbv beta iota zeta in *;
  cbn [conn setConn setIncoming incoming atEnd outgoing wfail dfail closeFails
       metrics setMetrics withMetrics fst snd] in *.

Ltac run_do :=
  unfold readResponseWithContext, ReadResponse in *;
  unfold Fprint, SetReadDeadline, readLines, modify in *;
  unfold bind, ret in *; red_do.

(** The three parts of [bounded], with the premise of the last one
    taken in. *)
Ltac bounded_goal Hd :=
  split; [first [assumption | congruence | lia]
         | split; [try lia
                  | let D := fresh "D" in
                    intros D; try (apply andb_true_iff in D; destruct D as [D ?]);
                    specialize (Hd D)]].

(** * Verification *)

#[local] Arguments String.append : simpl nomatch.

(** ** Byte strings *)

Lemma str_length_app (s t : string) :
  String.length (s ++ t) = String.length s + String.length t.
Proof. induction s as [|c s IH]; simpl; [reflexivity | now rewrite IH]. Qed.

Lemma str_app_empty_r (s : string) : s ++ EmptyString = s.
Proof. induction s as [|c s IH]; simpl; [reflexivity | now rewrite IH]. Qed.

Lemma str_app_assoc (s t u : string) : (s ++ t) ++ u = s ++ (t ++ u).
Proof. induction s as [|c s IH]; simpl; [reflexivity | now rewrite IH]. Qed.

Lemma str_rev_onto_app (s acc : string) : rev_onto s acc = rev s ++ acc.
Proof.
  unfold rev. revert acc.
  induction s as [|c s IH]; intros acc; simpl; [reflexivity|].
  rewrite (IH (String c acc)), (IH (String c EmptyString)), str_app_assoc.
  reflexivity.
Qed.

Lemma str_rev_cons (c : ascii) (s : string) : rev (String c s) = rev s ++ str1 c.
Proof. unfold rev at 1. simpl. apply str_rev_onto_app. Qed.

Lemma str_rev_app (s t : string) : rev (s ++ t) = rev t ++ rev s.
Proof.
  induction s as [|c s IH]; simpl.
  - now rewrite str_app_empty_r.
  - now rewrite !str_rev_cons, IH, str_app_assoc.
Qed.

Lemma str_prefix_app (p s : string) : String.prefix p (p ++ s) = true.
Proof.
  induction p as [|c p IH]; simpl; [now destruct s|].
  destruct (ascii_dec c c); [exact IH | congruence].
Qed.

Lemma str_prefix_empty (s : string) : String.prefix EmptyString s = true.
Proof. now destruct s. Qed.

Lemma str_drop_app (p s : string) : drop (String.length p) (p ++ s) = s.
Proof. induction p as [|c p IH]; simpl; [now destruct s | exact IH]. Qed.

Lemma str_take_app (p s : string) : take (String.length p) (p ++ s) = p.
Proof. induction p as [|c p IH]; simpl; [now destruct s | now rewrite IH]. Qed.

Lemma TrimPrefix_app (p s : string) : TrimPrefix (p ++ s) p = s.
Proof. unfold TrimPrefix, HasPrefix. now rewrite str_prefix_app, str_drop_app. Qed.

Lemma TrimSuffix_app (s p : string) : TrimSuffix (s ++ p) p = s.
Proof.
  unfold TrimSuffix, HasSuffix.
  rewrite str_rev_app, str_prefix_app, str_length_app.
  replace (String.length s + String.length p - String.length p) with (String.length s) by lia.
  apply str_take_app.
Qed.

(** ** quoteName *)

Lemma ReplaceAll_byte (s : string) (c : ascii) (new : string) :
  ReplaceAll s (str1 c) new = substByte c new s.
Proof.
  unfold ReplaceAll, str1.
  induction s as [|x r IH]; [reflexivity|].
  cbn [replace_from substByte String.prefix String.length Nat.sub].
  rewrite str_prefix_empty.
  destruct (ascii_dec c x) as [->|Hne].
  - rewrite Ascii.eqb_refl. now rewrite IH.
  - destruct (Ascii.eqb_spec x c) as [->|_]; [congruence | now rewrite IH].
Qed.

Lemma substByte_app (c : ascii) (new s t : string) :
  substByte c new (s ++ t) = substByte c new s ++ substByte c new t.
Proof.
  induction s as [|x r IH]; [reflexivity|].
  cbn [substByte String.append]. rewrite IH.
  destruct (Ascii.eqb x c); [now rewrite str_app_assoc | reflexivity].
Qed.

Lemma escape_two_passes (name : string) :
  ReplaceAll (ReplaceAll name bs (bs ++ bs)) dq (bs ++ dq) = escape name.
Proof.
  unfold bs, dq. rewrite !ReplaceAll_byte.
  induction name as [|c r IH]; [reflexivity|].
  cbn [substByte escape].
  destruct (Ascii.eqb_spec c bslash) as [->|Hb].
  - rewrite substByte_app, IH. reflexivity.
  - cbn [substByte]. destruct (Ascii.eqb c dquote); now rewrite IH.
Qed.

Lemma mem_claimed_quoteChars (c : ascii) :
  mem c claimedChars = true -> mem c quoteChars = true.
Proof.
  unfold claimedChars, quoteChars, str1. cbn [mem].
  destruct (Ascii.eqb c space), (Ascii.eqb c tab), (Ascii.eqb c dquote),
    (Ascii.eqb c lf), (Ascii.eqb c cr); cbn; congruence.
Qed.

Lemma ContainsAny_claimed (name : string) :
  ContainsAny name claimedChars = true -> ContainsAny name quoteChars = true.
Proof.
  induction name as [|c r IH]; cbn [ContainsAny]; [congruence|].
  intros H. apply orb_true_iff in H. apply orb_true_iff.
  destruct H as [H|H]; [left; now apply mem_claimed_quoteChars | right; auto].
Qed.

Lemma quoteName_quoted (name : string) :
  ContainsAny name quoteChars = true ->
  quoteName name = dq ++ escape name ++ dq.
Proof. intros H. unfold quoteName. now rewrite H, escape_two_passes. Qed.

(** C3 (amended): a name that contains a space, a tab, a line feed, a
    carriage return or a double quote is wrapped in double quotes after
    its backslashes, first, and then its double quotes were escaped, so
    that every backslash of the name is doubled and every double quote
    gets one backslash in front; a name that contains none of these five
    bytes is returned unchanged. *)
Theorem quoteName_spec (name : string) :
  (ContainsAny name quoteChars = true ->
     quoteName name
       = dq ++ ReplaceAll (ReplaceAll name bs (bs ++ bs)) dq (bs ++ dq) ++ dq
     /\ quoteName name = dq ++ escape name ++ dq) /\
  (ContainsAny name quoteChars = false -> quoteName name = name).
Proof.
  split.
  - intros H. rewrite escape_two_passes. split; now apply quoteName_quoted.
  - intros H. unfold quoteName. now rewrite H.
Qed.

Lemma quoteName_spec_witness :
  quoteName "my ups" = dq ++ "my ups" ++ dq /\ quoteName "ups" = "ups".
Proof.
  split.
  - destruct (quoteName_spec "my ups") as [H _].
    destruct (H eq_refl) as [_ H2]. exact H2.
  - destruct (quoteName_spec "ups") as [_ H]. exact (H eq_refl).
Defined.

(** C3 as stated fails on a line feed: the name holds no space, no tab
    and no double quote, and still it is quoted. *)
Lemma quoteName_line_feed_not_identity :
  ContainsAny (str1 lf) claimedChars = false /\ quoteName (str1 lf) <> str1 lf.
Proof. split; [reflexivity | discriminate]. Qed.

(** ** Unquoting *)

Lemma unescape_escape (name : string) : unescape (escape name) = name.
Proof.
  induction name as [|c r IH]; [reflexivity|].
  cbn [escape].
  destruct (Ascii.eqb_spec c bslash) as [->|Hb].
  - cbn. now rewrite IH.
  - destruct (Ascii.eqb_spec c dquote) as [->|Hq].
    + cbn. now rewrite IH.
    + cbn [unescape]. destruct (Ascii.eqb_spec c bslash); [congruence|].
      now rewrite IH.
Qed.

Lemma stripQuotes_wrapped (e : string) : stripQuotes (dq ++ e ++ dq) = e.
Proof.
  unfold stripQuotes, HasPrefix, HasSuffix.
  rewrite str_prefix_app, !str_rev_app, str_app_assoc, str_prefix_app.
  rewrite !str_length_app. change (String.length dq) with 1.
  replace (2 <=? 1 + (String.length e + 1))%nat with true
    by (symmetry; apply Nat.leb_le; lia).
  cbn [andb]. change (dq ++ e ++ dq) with (String dquote (e ++ dq)).
  cbn [drop].
  replace (1 + (String.length e + 1) - 2) with (String.length e) by lia.
  apply str_take_app.
Qed.

Lemma quoted_round_trip (name : string) :
  ContainsAny name quoteChars = true -> unquote (quoteName name) = name.
Proof.
  intros H. unfold unquote.
  now rewrite (quoteName_quoted _ H), stripQuotes_wrapped, unescape_escape.
Qed.

Lemma unescape_length (s : string) : String.length (unescape s) <= String.length s.
Proof.
  assert (G : forall n s, String.length s <= n ->
            String.length (unescape s) <= String.length s).
  { induction n as [|n IH]; intros [|c r] Hn; cbn [String.length] in *;
      try lia; try (cbn; lia).
    cbn [unescape]. destruct (Ascii.eqb c bslash).
    - destruct r as [|d r']; [cbn; lia|].
      destruct (Ascii.eqb d bslash || Ascii.eqb d dquote); cbn [String.length].
      + cbn [String.length] in Hn. specialize (IH r'). lia.
      + specialize (IH (String d r')). cbn [String.length] in *. lia.
    - cbn [String.length]. specialize (IH r). lia. }
  apply (G (String.length s)). lia.
Qed.

Lemma bare_unescape (s : string) :
  ContainsAny s quoteChars = false ->
  (unescape s = s <-> Contains s (bs ++ bs) = false).
Proof.
  induction s as [|c r IH]; intros Hq.
  - cbn. tauto.
  - cbn [ContainsAny] in Hq. apply orb_false_iff in Hq. destruct Hq as [Hc Hr].
    specialize (IH Hr).
    cbn [Contains unescape].
    destruct (Ascii.eqb_spec c bslash) as [->|Hb].
    + destruct r as [|d r'].
      * cbn. tauto.
      * assert (Hd : Ascii.eqb d dquote = false).
        { cbn [ContainsAny] in Hr. apply orb_false_iff in Hr. destruct Hr as [Hm _].
          unfold quoteChars, str1 in Hm. cbn [mem] in Hm.
          repeat (apply orb_false_iff in Hm; destruct Hm as [? Hm]).
          destruct (Ascii.eqb d dquote); congruence. }
        rewrite Hd, orb_false_r.
        change (bs ++ bs) with (String bslash (String bslash EmptyString)).
        cbn [String.prefix].
        destruct (ascii_dec bslash bslash) as [_|]; [|congruence].
        destruct (Ascii.eqb_spec d bslash) as [->|Hd'].
        -- destruct (ascii_dec bslash bslash) as [_|]; [|congruence].
           rewrite str_prefix_empty. cbn [orb]. split; [|discriminate].
           intros E. injection E as E.
           pose proof (unescape_length r') as L.
           rewrite E in L. cbn [String.length] in L. lia.
        -- destruct (ascii_dec bslash d) as [E|_]; [congruence|].
           cbn [orb]. destruct IH as [IH1 IH2].
           split; intros E.
           ++ apply IH1. now injection E.
           ++ f_equal. now apply IH2.
    + assert (P : String.prefix (bs ++ bs) (String c r) = false).
      { change (bs ++ bs) with (String bslash (String bslash EmptyString)).
        cbn [String.prefix]. destruct (ascii_dec bslash c) as [E|_]; [congruence | reflexivity]. }
      rewrite P. cbn [orb]. destruct IH as [IH1 IH2].
      split; intros E.
      * apply IH1. now injection E.
      * f_equal. now apply IH2.
Qed.

Lemma bare_stripQuotes (s : string) :
  ContainsAny s quoteChars = false -> stripQuotes s = s.
Proof.
  intros H. unfold stripQuotes, HasPrefix.
  destruct s as [|c r]; [reflexivity|].
  cbn [ContainsAny] in H. apply orb_false_iff in H. destruct H as [Hm _].
  unfold quoteChars, str1 in Hm. cbn [mem] in Hm.
  repeat (apply orb_false_iff in Hm; destruct Hm as [? Hm]).
  unfold dq, str1. cbn [String.prefix].
  destruct (ascii_dec dquote c) as [<-|_]; [|reflexivity].
  rewrite Ascii.eqb_refl in *. congruence.
Qed.

(** C8 (amended): quoting a name and then unquoting it, that is,
    stripping the wrapping double quotes if present and unescaping,
    gives the name back exactly when the name contains a space, a tab,
    a line feed, a carriage return or a double quote (so that it is
    quoted at all), or holds no two backslashes in a row. *)
Theorem quote_unquote_round_trip (name : string) :
  unquote (quoteName name) = name <->
  (ContainsAny name quoteChars = true \/ Contains name (bs ++ bs) = false).
Proof.
  destruct (ContainsAny name quoteChars) eqn:Hq.
  - split; [now left | intros _; now apply quoted_round_trip].
  - unfold quoteName, unquote. rewrite Hq, (bare_stripQuotes _ Hq).
    rewrite (bare_unescape _ Hq). split; [now right | intros [H|H]; congruence].
Qed.

Lemma quote_unquote_round_trip_witness :
  unquote (quoteName (bs ++ dq ++ " ")) = bs ++ dq ++ " ".
Proof.
  apply (quote_unquote_round_trip (bs ++ dq ++ " ")). left. reflexivity.
Defined.

(** C8 as stated fails on a name of two backslashes: it is sent bare
    and unquoting makes one backslash of it. *)
Lemma backslashes_do_not_round_trip :
  allIn quotingAlphabet (bs ++ bs) = true /\
  unquote (quoteName (bs ++ bs)) <> bs ++ bs.
Proof. split; [reflexivity | discriminate]. Qed.

(** ** The value patterns of the specification *)


Lemma span_digits_split (s d t : string) :
  span_digits s = (d, t) ->
  s = d ++ t /\ allDigits d = true /\
  match t with String c _ => is_digit c = false | EmptyString => True end.
Proof.
  revert d t. induction s as [|c r IH]; cbn; intros d t H.
  - injection H as <- <-. auto.
  - destruct (is_digit c) eqn:Hc.
    + destruct (span_digits r) as [d' t'] eqn:E. injection H as <- <-.
      destruct (IH _ _ eq_refl) as (-> & Hd & Ht). cbn. rewrite Hc. auto.
    + injection H as <- <-. cbn. auto.
Qed.

Lemma span_digits_app (d t : string) :
  allDigits d = true ->
  match t with String c _ => is_digit c = false | EmptyString => True end ->
  span_digits (d ++ t) = (d, t).
Proof.
  intros Hd Ht. induction d as [|c r IH]; cbn.
  - destruct t as [|c t]; [reflexivity|]. cbn. now rewrite Ht.
  - cbn in Hd. apply andb_true_iff in Hd. destruct Hd as [Hc Hr].
    now rewrite Hc, (IH Hr).
Qed.

Lemma point_not_digit : is_digit "." = false.
Proof. reflexivity. Qed.

Lemma minus_not_digit : is_digit "-" = false.
Proof. reflexivity. Qed.

Lemma floatBody_app (ip fp : string) (seen : bool) :
  allDigits ip = true ->
  floatBody (ip ++ String "." fp) seen
  = (seen || match ip with EmptyString => false | _ => true end) && digits1 fp.
Proof.
  revert seen. induction ip as [|c r IH]; intros seen H.
  - cbn. now rewrite orb_false_r.
  - cbn in H. apply andb_true_iff in H. destruct H as [Hc Hr].
    cbn [String.append floatBody]. rewrite Hc, (IH _ Hr).
    now rewrite orb_true_r.
Qed.

Lemma floatBody_split (s : string) (seen : bool) :
  floatBody s seen = true ->
  exists ip fp, s = ip ++ String "." fp /\ allDigits ip = true /\
    (seen || match ip with EmptyString => false | _ => true end) = true /\
    digits1 fp = true.
Proof.
  revert seen. induction s as [|c r IH]; intros seen H; [discriminate|].
  cbn in H. destruct (is_digit c) eqn:Hc.
  - destruct (IH _ H) as (ip & fp & -> & Hd & _ & Hf).
    exists (String c ip), fp. cbn. rewrite Hc, Hd, orb_true_r. auto.
  - apply andb_true_iff in H. destruct H as [H Hf].
    apply andb_true_iff in H. destruct H as [Hp Hs].
    apply Ascii.eqb_eq in Hp. subst c.
    exists EmptyString, r. cbn. rewrite Hs. auto.
Qed.

Lemma digits1_allDigits (s : string) : digits1 s = true -> allDigits s = true.
Proof. destruct s; [discriminate | auto]. Qed.

(** [numericRegex] accepts exactly the two patterns. *)
Lemma numericRegex_patterns (s : string) :
  numericRegex s = intPattern s || floatPattern s.
Proof.
  unfold numericRegex, intPattern, floatPattern.
  change (match s with
          | EmptyString => s
          | String c r => if Ascii.eqb c "-" then r else s
          end) with (unsigned s).
  generalize (unsigned s) as body. clear s. intros body.
  destruct (span_digits body) as [ip rest] eqn:E.
  destruct (span_digits_split _ _ _ E) as (-> & Hip & Hrest).
  destruct rest as [|c fr].
  - rewrite str_app_empty_r.
    assert (F : floatBody ip false = false).
    { destruct (floatBody ip false) eqn:F; [|reflexivity].
      destruct (floatBody_split _ _ F) as (a & f & -> & _).
      clear -Hip. induction a as [|x a IH]; cbn in Hip.
      - discriminate.
      - apply andb_true_iff in Hip. tauto. }
    rewrite F, orb_false_r. destruct ip; [reflexivity | exact (eq_sym Hip)].
  - assert (I : digits1 (ip ++ String c fr) = false).
    { destruct (digits1 (ip ++ String c fr)) eqn:I; [|reflexivity].
      apply digits1_allDigits in I. clear -I Hrest.
      induction ip as [|x a IH]; cbn in I.
      - rewrite Hrest in I. discriminate.
      - apply andb_true_iff in I. tauto. }
    rewrite I. cbn [orb].
    destruct (Ascii.eqb_spec c ".") as [->|Hc].
    + rewrite (floatBody_app _ _ _ Hip). cbn [orb andb].
      destruct (span_digits fr) as [fp tl] eqn:F.
      destruct (span_digits_split _ _ _ F) as (-> & Hfp & Htl).
      destruct tl as [|x tl].
      * rewrite str_app_empty_r.
        destruct ip, fp; cbn [andb digits1]; try reflexivity.
        exact (eq_sym Hfp).
      * assert (D : digits1 (fp ++ String x tl) = false).
        { destruct (digits1 (fp ++ String x tl)) eqn:D; [|reflexivity].
          apply digits1_allDigits in D. clear -D Htl.
          induction fp as [|y a IH]; cbn in D.
          - rewrite Htl in D. discriminate.
          - apply andb_true_iff in D. tauto. }
        rewrite D, andb_false_r. now destruct ip, fp.
    + cbn [andb].
      destruct (floatBody (ip ++ String c fr) false) eqn:F; [|now destruct ip].
      exfalso. destruct (floatBody_split _ _ F) as (a & f & Ea & Ha & _).
      assert (S1 := span_digits_app ip (String c fr) Hip Hrest).
      rewrite Ea in S1.
      rewrite (span_digits_app a (String "." f) Ha point_not_digit) in S1.
      congruence.
Qed.

Lemma allDigits_no_point (s : string) :
  allDigits s = true -> Contains s "." = false.
Proof.
  induction s as [|c r IH]; [reflexivity|].
  cbn [allDigits Contains String.prefix]. intros H.
  apply andb_true_iff in H. destruct H as [Hc Hr].
  destruct (ascii_dec "." c) as [<-|_]; [discriminate|].
  cbn [orb]. auto.
Qed.

Lemma intPattern_no_point (s : string) :
  intPattern s = true -> Contains s "." = false.
Proof.
  unfold intPattern. intros H. apply digits1_allDigits in H.
  destruct s as [|c r]; [reflexivity|]. cbn [unsigned] in H.
  destruct (Ascii.eqb_spec c "-") as [->|_].
  - cbn [Contains String.prefix].
    destruct (ascii_dec "." "-"); [discriminate|]. now apply allDigits_no_point.
  - now apply allDigits_no_point.
Qed.

Lemma Contains_app_point (ip fp : string) :
  Contains (ip ++ String "." fp) "." = true.
Proof.
  induction ip as [|c r IH].
  - cbn. destruct (ascii_dec "." "."); [now rewrite str_prefix_empty | congruence].
  - cbn [String.append Contains]. rewrite IH. apply orb_true_r.
Qed.

Lemma floatPattern_point (s : string) :
  floatPattern s = true -> Contains s "." = true.
Proof.
  unfold floatPattern. intros H.
  destruct (floatBody_split _ _ H) as (ip & fp & E & _).
  destruct s as [|c r]; [discriminate|]. cbn [unsigned] in E.
  destruct (Ascii.eqb c "-").
  - cbn [Contains]. rewrite E, Contains_app_point. apply orb_true_r.
  - rewrite E. apply Contains_app_point.
Qed.

Lemma patterns_disjoint (s : string) :
  intPattern s = true -> floatPattern s = false.
Proof.
  intros H. destruct (floatPattern s) eqn:F; [|reflexivity].
  apply intPattern_no_point in H. apply floatPattern_point in F. congruence.
Qed.

(** ** Integers of 64 bits *)

Local Open Scope Z_scope.

Lemma digit_val_range (c : ascii) : is_digit c = true -> 0 <= digit_val c <= 9.
Proof.
  unfold is_digit, digit_val. intros H.
  apply andb_true_iff in H. destruct H as [H1 H2].
  apply Nat.leb_le in H1. apply Nat.leb_le in H2. lia.
Qed.

Lemma digits_value_ge (s : string) (n : Z) :
  allDigits s = true -> 0 <= n -> n <= digits_value s n.
Proof.
  revert n. induction s as [|c r IH]; intros n H Hn; cbn; [lia|].
  cbn in H. apply andb_true_iff in H. destruct H as [Hc Hr].
  pose proof (digit_val_range c Hc).
  specialize (IH (n * 10 + digit_val c) Hr). lia.
Qed.

Lemma maxUint64_eq : maxUint64 = 18446744073709551615.
Proof. reflexivity. Qed.

Lemma parse_uint_from_spec (s : string) (n : Z) :
  allDigits s = true -> 0 <= n <= maxUint64 ->
  parse_uint_from s n
  = if digits_value s n <=? maxUint64 then inl (digits_value s n) else inr ErrRange.
Proof.
  revert n. induction s as [|c r IH]; intros n H Hn.
  - cbn. destruct (Z.leb_spec n maxUint64); [reflexivity | lia].
  - cbn in H. apply andb_true_iff in H. destruct H as [Hc Hr].
    pose proof (digit_val_range c Hc) as Hd.
    cbn [parse_uint_from digits_value]. rewrite Hc. cbn [negb].
    pose proof (digits_value_ge r (n * 10 + digit_val c) Hr) as G.
    rewrite maxUint64_eq in *.
    change (18446744073709551615 / 10 + 1) with 1844674407370955162.
    destruct (Z.leb_spec 1844674407370955162 n).
    + destruct (Z.leb_spec (digits_value r (n * 10 + digit_val c)) 18446744073709551615);
        [lia | reflexivity].
    + destruct (Z.ltb_spec 18446744073709551615 (n * 10 + digit_val c)).
      * destruct (Z.leb_spec (digits_value r (n * 10 + digit_val c)) 18446744073709551615);
          [lia | reflexivity].
      * rewrite IH by (auto; lia). reflexivity.
Qed.

Lemma ParseUint_spec (s : string) :
  digits1 s = true ->
  ParseUint s
  = if digits_value s 0 <=? maxUint64 then inl (digits_value s 0) else inr ErrRange.
Proof.
  intros H. destruct s as [|c r]; [discriminate|].
  unfold ParseUint. apply parse_uint_from_spec; [exact H|].
  rewrite maxUint64_eq. lia.
Qed.

(** On the strings of the integer pattern [ParseInt] fails exactly when
    the integer does not fit 64 bits. *)
Lemma ParseInt_spec (s : string) :
  intPattern s = true ->
  ParseInt s
  = if (- 2 ^ 63 <=? intValue s) && (intValue s <=? 2 ^ 63 - 1)
    then inl (intValue s) else inr ErrRange.
Proof.
  unfold intPattern, intValue. intros H.
  destruct s as [|c r]; [discriminate|].
  cbn [unsigned negative] in *. unfold ParseInt.
  pose proof (digits_value_ge _ 0 (digits1_allDigits _ H) ltac:(lia)) as G.
  assert (Hp : Ascii.eqb c "-" = false -> Ascii.eqb c "+" = false).
  { intros Hm. rewrite Hm in H. cbn in H.
    apply andb_true_iff in H. destruct H as [Hc _].
    destruct (Ascii.eqb_spec c "+") as [->|_]; [discriminate | reflexivity]. }
  destruct (Ascii.eqb c "-").
  - rewrite orb_true_r, (ParseUint_spec _ H), maxUint64_eq.
    set (v := digits_value r 0) in *.
    change (2 ^ 63) with 9223372036854775808.
    repeat match goal with
           | |- context [Z.leb ?a ?b] => destruct (Z.leb_spec a b)
           | |- context [Z.ltb ?a ?b] => destruct (Z.ltb_spec a b)
           end; cbn [negb andb]; try reflexivity; exfalso; lia.
  - rewrite (Hp eq_refl). cbn [orb].
    rewrite (ParseUint_spec _ H), maxUint64_eq.
    set (v := digits_value (String c r) 0) in *.
    change (2 ^ 63) with 9223372036854775808.
    repeat match goal with
           | |- context [Z.leb ?a ?b] => destruct (Z.leb_spec a b)
           | |- context [Z.ltb ?a ?b] => destruct (Z.ltb_spec a b)
           end; cbn [negb andb]; try reflexivity; exfalso; lia.
Qed.


Local Close Scope Z_scope.

(** ** The inference of [GetVariables] *)







(** The original type is the type that [GetVariableType] returned, in
    every branch of the inference. *)
Lemma infer_OriginalType name raw description varType writeable maximumLength :
  OriginalType (inferred name raw description varType writeable maximumLength)
  = varType.
Proof.
  unfold inferred, inferValue.
  destruct (String.eqb raw "enabled"); [reflexivity|].
  destruct (String.eqb raw "disabled"); [reflexivity|].
  destruct (numericRegex raw).
  - destruct (Contains raw ".").
    + destruct (ParseFloat raw); cbn [setInferred Type_ filledVariable].
      * destruct (String.eqb "FLOAT_64" varType); reflexivity.
      * rewrite String.eqb_refl. reflexivity.
    + destruct (ParseInt raw); cbn [setInferred Type_ filledVariable].
      * destruct (String.eqb "INTEGER" varType); reflexivity.
      * rewrite String.eqb_refl. reflexivity.
  - cbn [filledVariable Type_]. rewrite String.eqb_refl. reflexivity.
Qed.

(** ** Reading a response *)

Lemma wire_app (a b : list string) : wire (a ++ b) = wire a ++ wire b.
Proof.
  induction a as [|l a IH]; [reflexivity|].
  cbn [wire app]. change ((l :: a) ++ b)%list with (l :: (a ++ b)%list).
  cbn [wire]. now rewrite IH, !str_app_assoc.
Qed.

Lemma ReadString_some (input line rest : string) :
  ReadString input = Some (line, rest) ->
  exists body, line = body ++ str1 lf /\ input = body ++ str1 lf ++ rest.
Proof.
  revert line. induction input as [|c r IH]; intros line H; [discriminate|].
  cbn [ReadString] in H. destruct (Ascii.eqb_spec c lf) as [->|Hc].
  - injection H as <- <-. now exists EmptyString.
  - destruct (ReadString r) as [[l t]|] eqn:E; [|discriminate].
    injection H as <- <-. destruct (IH _ eq_refl) as (body & -> & ->).
    now exists (String c body).
Qed.

Lemma ReadString_shorter (input line rest : string) :
  ReadString input = Some (line, rest) -> String.length rest < String.length input.
Proof.
  intros H. destruct (ReadString_some _ _ _ H) as (body & _ & ->).
  rewrite !str_length_app. cbn. lia.
Qed.

(** The fuel of [readLoop] is never used up. *)
Lemma readLoop_fuel (f1 f2 : nat) (endLine : string) (multi : bool)
    (input : string) (acc : list string) :
  String.length input < f1 -> String.length input < f2 ->
  readLoop f1 endLine multi input acc = readLoop f2 endLine multi input acc.
Proof.
  revert f2 input acc. induction f1 as [|f1 IH]; intros f2 input acc H1 H2; [lia|].
  destruct f2 as [|f2]; [lia|]. cbn [readLoop].
  destruct (ReadString input) as [[line rest]|] eqn:E; [|reflexivity].
  pose proof (ReadString_shorter _ _ _ E) as L.
  destruct (0 <? String.length line)%nat; [|apply IH; lia].
  destruct (String.eqb line endLine || negb multi); [reflexivity|].
  apply IH; lia.
Qed.

Lemma clean_line (body : string) : TrimSuffix (body ++ str1 lf) (str1 lf) = body.
Proof. apply TrimSuffix_app. Qed.

(** What a successful read returns: the lines of the input up to the
    one that ends the response, each without its line feed; in a
    multi-line response the last one is the end line and no earlier
    one is. *)
Lemma readLoop_some (fuel : nat) (endLine : string) (multi : bool)
    (input : string) (acc resp : list string) (rest : string) :
  readLoop fuel endLine multi input acc = (Some resp, rest) ->
  exists lines final,
    resp = (acc ++ lines ++ [final])%list /\
    input = wire (lines ++ [final]) ++ rest /\
    (if multi
     then final ++ str1 lf = endLine /\
          Forall (fun l => l ++ str1 lf <> endLine) lines
     else lines = []).
Proof.
  revert input acc. induction fuel as [|fuel IH]; intros input acc H; [discriminate|].
  cbn [readLoop] in H.
  destruct (ReadString input) as [[line t]|] eqn:E; [|discriminate].
  destruct (ReadString_some _ _ _ E) as (body & -> & ->).
  rewrite str_length_app, Nat.add_comm in H. cbn [String.length Nat.add Nat.ltb Nat.leb] in H.
  rewrite clean_line in H.
  destruct (String.eqb_spec (body ++ str1 lf) endLine) as [Heq|Hne].
  - cbn [orb] in H. injection H as <- <-.
    exists [], body. cbn [app wire]. rewrite str_app_empty_r, str_app_assoc.
    repeat split; auto. destruct multi; auto.
  - destruct multi; cbn [orb negb] in H.
    + destruct (IH _ _ H) as (lines & final & -> & -> & Hf & Hl).
      exists (body :: lines), final. cbn [app wire].
      rewrite <- !app_assoc. cbn [app]. rewrite !str_app_assoc.
      repeat split; auto.
    + injection H as <- <-. exists [], body. cbn [app wire].
      rewrite str_app_empty_r, str_app_assoc. auto.
Qed.

(** ** Sending a command *)

(** A call of [SendCommandWithContext] that returns lines without an
    error, taken apart. *)
Lemma SendCommandWithContext_ok taxonomy ctx cmd c resp c' :
  SendCommandWithContext taxonomy ctx cmd c = Returns (resp, None) c' ->
  exists k rest,
    conn c = Some k /\
    responseTo cmd k = (Some resp, rest) /\
    serverError taxonomy resp = None /\
    c' = setConn c (Some (afterExchange k cmd rest)).
Proof.
  unfold SendCommandWithContext. intros H.
  destruct (doneAtStart ctx); [discriminate|].
  run_do. destruct (conn c) as [k|] eqn:Ek; [|discriminate].
  red_do. destruct (hd false (wfail k)) eqn:W; red_do; [discriminate|].
  destruct (hd false (dfail k)) eqn:D; red_do; [discriminate|].
  fold (isList cmd) in H.
  destruct (readLoop _ _ _ (incoming k) []) as [r rest] eqn:R. red_do.
  destruct (doneWhileReading ctx); [discriminate|].
  destruct r as [lines|]; [|discriminate].
  destruct (serverError taxonomy lines) eqn:S; [discriminate|].
  injection H as <- <-.
  exists k, rest. unfold responseTo. rewrite R. repeat split; auto.
Qed.

(** The other way round: what a call returns when the context is not
    done, the write and the deadline go through and the read
    succeeds. *)
Lemma SendCommandWithContext_run taxonomy ctx cmd c k resp rest :
  doneAtStart ctx = None -> doneWhileReading ctx = None ->
  conn c = Some k ->
  hd false (wfail k) = false -> hd false (dfail k) = false ->
  responseTo cmd k = (Some resp, rest) ->
  SendCommandWithContext taxonomy ctx cmd c
  = Returns (match serverError taxonomy resp with
             | Some e => ([], Some e)
             | None => (resp, None)
             end)
            (setConn c (Some (afterExchange k cmd rest))).
Proof.
  intros H1 H2 Hk W D R. unfold SendCommandWithContext. rewrite H1.
  run_do. rewrite Hk. red_do. rewrite W. red_do. rewrite D. red_do.
  fold (isList cmd).
  unfold responseTo in R. rewrite R. red_do. rewrite H2.
  destruct (serverError taxonomy resp); reflexivity.
Qed.

(** [SendCommandWithContext] never touches the metrics. *)
Lemma SendCommandWithContext_metrics taxonomy ctx cmd c r c' :
  SendCommandWithContext taxonomy ctx cmd c = Returns r c' ->
  metrics c' = metrics c.
Proof.
  unfold SendCommandWithContext. intros H.
  destruct (doneAtStart ctx); [now injection H as _ <-|].
  run_do. destruct (conn c) as [k|] eqn:Ek; [|discriminate].
  red_do. destruct (hd false (wfail k)); red_do; [now injection H as _ <-|].
  destruct (hd false (dfail k)); red_do; [now injection H as _ <-|].
  destruct (readLoop _ _ _ (incoming k) []) as [res rest]. red_do.
  destruct (doneWhileReading ctx); [now injection H as _ <-|].
  destruct res as [lines|]; [|now injection H as _ <-].
  destruct (serverError taxonomy lines); now injection H as _ <-.
Qed.

(** The same for [sendCommandUnsafe], which also keeps the counters. *)
Lemma sendCommandUnsafe_run taxonomy cmd c k resp rest :
  conn c = Some k ->
  hd false (wfail k) = false -> hd false (dfail k) = false ->
  responseTo cmd k = (Some resp, rest) ->
  sendCommandUnsafe taxonomy cmd c
  = Returns (match serverError taxonomy resp with
             | Some e => ([], Some e)
             | None => (resp, None)
             end)
            (withMetrics
               (fun m =>
                  let m := countReceived resp
                             (addBytesSent (Z.of_nat (String.length (cmd ++ str1 lf)))
                                (addCommandsSent 1 m)) in
                  match serverError taxonomy resp with
                  | Some _ => addCommandsFailed 1 m
                  | None => m
                  end)
               (setConn c (Some (afterExchange k cmd rest)))).
Proof.
  intros Hk W D R. unfold sendCommandUnsafe.
  destruct c as [ver pv cn tls mt]. cbn [conn] in Hk. subst cn.
  fold (isList cmd). unfold responseTo in R.
  destruct mt as [m|]; run_do; rewrite W; red_do; rewrite D; red_do;
    rewrite R; red_do;
    destruct (serverError taxonomy resp); reflexivity.
Qed.

(** ** The error line *)

Lemma str_prefix_drop (p s : string) :
  String.prefix p s = true -> s = p ++ drop (String.length p) s.
Proof.
  revert s. induction p as [|a p IH]; intros s H; [now destruct s|].
  destruct s as [|x s]; [discriminate|]. cbn in H.
  destruct (ascii_dec a x) as [->|]; [|discriminate].
  cbn. f_equal. now apply IH.
Qed.

Lemma split_from_space_fst (s : string) :
  fst (split_from " " s 0) = untilSpace s.
Proof.
  induction s as [|c r IH]; [reflexivity|].
  cbn [split_from untilSpace String.prefix String.length Nat.sub].
  rewrite str_prefix_empty.
  destruct (ascii_dec " " c) as [<-|Hne].
  - reflexivity.
  - destruct (Ascii.eqb_spec c space) as [->|_]; [now elim Hne|].
    destruct (split_from " " r 0) as [p ps]. cbn in *. now rewrite IH.
Qed.

Lemma Split_error_line (first : string) :
  HasPrefix first "ERR " = true ->
  exists more, Split first " " = "ERR" :: errToken first :: more.
Proof.
  unfold HasPrefix, errToken. intros H.
  pose proof (str_prefix_drop _ _ H) as E.
  change (String.length "ERR ") with 4 in E.
  set (rest := drop 4 first) in *. clearbody rest. subst first.
  unfold Split. cbn.
  rewrite <- (split_from_space_fst rest).
  destruct (split_from " " rest 0) as [p ps]. rewrite str_prefix_empty.
  now exists ps.
Qed.

Lemma serverError_error_line taxonomy first more :
  HasPrefix first "ERR " = true ->
  serverError taxonomy (first :: more)
  = Some (errorForMessage taxonomy (errToken first)).
Proof.
  intros H. unfold serverError. rewrite H.
  destruct (Split_error_line _ H) as (ps & ->). reflexivity.
Qed.

Lemma errorForMessage_lookup taxonomy code :
  errorForMessage taxonomy code
  = ErrServer (match lookupCode taxonomy code with
               | Some f => f
               | None => UnknownCommand
               end).
Proof. unfold errorForMessage. now destruct (lookupCode taxonomy code). Qed.

(** When the response that is read for a command has a first line that
    begins with the letters ERR and a space, [SendCommand], and
    [sendCommandUnsafe] alike, return no lines and the typed failure
    that the taxonomy holds for the token between that prefix and the
    next space, the generic unknown-command failure when the taxonomy
    does not hold the token. *)
Lemma error_line_is_typed_failure taxonomy cmd c k first more rest :
  conn c = Some k ->
  hd false (wfail k) = false -> hd false (dfail k) = false ->
  responseTo cmd k = (Some (first :: more), rest) ->
  HasPrefix first "ERR " = true ->
  let failure :=
    ErrServer (match lookupCode taxonomy (errToken first) with
               | Some f => f
               | None => UnknownCommand
               end) in
  (exists c', SendCommand taxonomy cmd c = Returns ([], Some failure) c') /\
  (exists c', sendCommandUnsafe taxonomy cmd c = Returns ([], Some failure) c').
Proof.
  intros Hk W D R E failure. subst failure.
  rewrite <- errorForMessage_lookup. split.
  - unfold SendCommand.
    rewrite (SendCommandWithContext_run taxonomy Background cmd c k _ rest
               eq_refl eq_refl Hk W D R).
    rewrite (serverError_error_line _ _ _ E). eauto.
  - rewrite (sendCommandUnsafe_run taxonomy cmd c k _ rest Hk W D R).
    rewrite (serverError_error_line _ _ _ E). eauto.
Qed.

Lemma error_line_is_typed_failure_witness :
  (exists c', SendCommand sampleTaxonomy "GET VAR ups ups.status"
                (clientOn ["ERR ACCESS-DENIED"])
              = Returns ([], Some (ErrServer (Kind "access denied"))) c') /\
  (exists c', sendCommandUnsafe sampleTaxonomy "GET VAR ups ups.status"
                (clientOn ["ERR ACCESS-DENIED"])
              = Returns ([], Some (ErrServer (Kind "access denied"))) c').
Proof.
  eapply (error_line_is_typed_failure sampleTaxonomy "GET VAR ups ups.status"
            (clientOn ["ERR ACCESS-DENIED"]) _ "ERR ACCESS-DENIED" [] EmptyString);
    reflexivity.
Defined.

(** C7: the server answers the one line ERR ACCESS-DENIED and nothing
    more. To the command GET VAR, [SendCommand] returns no lines and the
    typed failure that the taxonomy holds for the token ACCESS-DENIED.
    To the listing command LIST VAR, both send paths read on, since
    that line is not the sentinel, and return the wrapped error of the
    read that follows in place of the typed failure; the typed failure
    comes back for a listing command only when the sentinel follows the
    error line. *)
Theorem listing_error_line_is_lost :
  let answer := ["ERR ACCESS-DENIED"] in
  let failure :=
    ErrServer (match lookupCode sampleTaxonomy (errToken "ERR ACCESS-DENIED") with
               | Some f => f
               | None => UnknownCommand
               end) in
  let readError :=
    ErrWrap "failed to read response"
      (ErrFmt "error reading response" (ErrNet Timeout)) in
  HasPrefix "ERR ACCESS-DENIED" "ERR " = true /\
  failure = ErrServer (Kind "access denied") /\
  failure <> readError /\
  (exists c', SendCommand sampleTaxonomy "GET VAR ups ups.status" (clientOn answer)
              = Returns ([], Some failure) c') /\
  (exists c', SendCommand sampleTaxonomy "LIST VAR ups" (clientOn answer)
              = Returns ([], Some readError) c') /\
  (exists c', sendCommandUnsafe sampleTaxonomy "LIST VAR ups" (clientOn answer)
              = Returns ([], Some readError) c') /\
  (exists c', SendCommand sampleTaxonomy "LIST VAR ups"
                (clientOn (answer ++ ["END LIST VAR ups"]))
              = Returns ([], Some failure) c').
Proof.
  intros answer failure readError.
  split; [reflexivity|]. split; [reflexivity|]. split; [discriminate|].
  repeat split; eexists; vm_compute; reflexivity.
Qed.

(** ** Listings *)

Lemma app_inv_lf (s t : string) : s ++ str1 lf = t ++ str1 lf -> s = t.
Proof.
  intros H. apply (f_equal (fun x => TrimSuffix x (str1 lf))) in H.
  now rewrite !TrimSuffix_app in H.
Qed.

Lemma middle_framed (header last : string) (entries : list string) :
  middle (header :: entries ++ [last]) = entries.
Proof. unfold middle. cbn [tl]. apply removelast_last. Qed.

Lemma endLineOf_list (cmd : string) :
  isList cmd = true -> endLineOf (TrimSpace cmd) (isList cmd) = sentinel cmd ++ str1 lf.
Proof. intros ->. unfold endLineOf, sentinel. now rewrite str_app_assoc. Qed.



(** ** The TYPE response *)

Lemma Split_nonempty (s sep : string) : (1 <= length (Split s sep))%nat.
Proof. unfold Split. destruct (split_from sep s 0). cbn. lia. Qed.

Lemma split_from_colon_fst (s : string) :
  fst (split_from ":" ("STRING:" ++ s) 0) = "STRING" /\
  (1 <= length (snd (split_from ":" ("STRING:" ++ s) 0)))%nat.
Proof.
  cbn. rewrite str_prefix_empty. destruct (split_from ":" s 0). cbn. split; [reflexivity | lia].
Qed.

Lemma splitStringType_base (token : string) (writeable : bool) :
  fst (fst (fst (splitStringType token writeable))) = baseType token.
Proof.
  unfold splitStringType, baseType.
  destruct (HasPrefix token "STRING:") eqn:P; [|reflexivity].
  unfold HasPrefix in P. rewrite (str_prefix_drop _ _ P).
  destruct (split_from_colon_fst (drop (String.length "STRING:") token)) as [F L].
  unfold Split.
  destruct (split_from ":" ("STRING:" ++ drop (String.length "STRING:") token) 0)
    as [p ps].
  cbn [fst snd] in F, L. subst p.
  destruct ps as [|q ps]; [cbn in L; lia|].
  cbn [length Nat.leb nth]. now destruct (Atoi q).
Qed.

Lemma typeOfResponse_token (u : UPS) (variableName first : string)
    (more : list string) :
  exists writeable,
    typeOfResponse u variableName (first :: more)
    = splitStringType (typeToken u variableName first) writeable.
Proof.
  unfold typeOfResponse, typeToken.
  pose proof (Split_nonempty (TrimPrefix first (typePrefix u variableName)) " ") as L.
  set (splitLine := Split _ " ") in *.
  replace (length splitLine <? 1)%nat with false
    by (symmetry; apply Nat.ltb_ge; lia).
  replace (1 <=? length splitLine)%nat with true
    by (symmetry; apply Nat.leb_le; lia).
  destruct ((2 <=? length splitLine)%nat &&
            (String.eqb (nth 0 splitLine EmptyString) "RW"
             || String.eqb (nth 0 splitLine EmptyString) "RO")); eauto.
Qed.

(** A call of [GetVariableType] that returns without an error has read
    a response, and returns the base type of its token. *)
Lemma GetVariableType_ok taxonomy u variableName c varType writeable maximumLength c' :
  GetVariableType taxonomy u variableName c
    = Returns (varType, writeable, maximumLength, None) c' ->
  exists first more,
    SendCommand taxonomy (getTypeCommand u variableName) c
      = Returns (first :: more, None) c' /\
    varType = baseType (typeToken u variableName first).
Proof.
  unfold GetVariableType, bind, ret. fold (getTypeCommand u variableName).
  intros H.
  destruct (SendCommand taxonomy (getTypeCommand u variableName) c)
    as [[resp [err|]] c1|]; try discriminate.
  destruct resp as [|first more]; [discriminate|].
  assert (E1 : typeOfResponse u variableName (first :: more)
               = (varType, writeable, maximumLength, None)) by congruence.
  assert (E2 : c1 = c') by congruence. subst c1. clear H.
  exists first, more. split; [reflexivity|].
  destruct (typeOfResponse_token u variableName first more) as (w & E).
  rewrite E in E1. rewrite <- (splitStringType_base _ w), E1. reflexivity.
Qed.

(** C1: on the modern response, whose payload after the TYPE prefix is
    RW STRING:20, [GetVariableType] returns the type STRING, writeable
    true and the maximum length 20; on the legacy response, whose
    payload is the single token STRING:5, it returns the type STRING,
    writeable false and the maximum length 5, and no error. *)
Theorem GetVariableType_both_shapes taxonomy u variableName c first more c' :
  SendCommand taxonomy (getTypeCommand u variableName) c
    = Returns (first :: more, None) c' ->
  (first = typePrefix u variableName ++ "RW STRING:20" ->
   GetVariableType taxonomy u variableName c
     = Returns ("STRING", true, 20%Z, None) c') /\
  (first = typePrefix u variableName ++ "STRING:5" ->
   GetVariableType taxonomy u variableName c
     = Returns ("STRING", false, 5%Z, None) c').
Proof.
  intros H. unfold GetVariableType, bind, ret.
  fold (getTypeCommand u variableName). rewrite H.
  split; intros ->; unfold typeOfResponse; rewrite TrimPrefix_app; reflexivity.
Qed.

(** The earlier copy of the function, on the legacy shape. *)
Lemma GetVariableTypeEager_legacy_rejected taxonomy u variableName c more c' :
  SendCommand taxonomy (getTypeCommand u variableName) c
    = Returns ((typePrefix u variableName ++ "STRING:5") :: more, None) c' ->
  GetVariableTypeEager taxonomy u variableName c
  = Returns ("UNKNOWN", false, (-1)%Z,
             Some (ErrNew "invalid RO TYPE response format")) c'.
Proof.
  intros H. unfold GetVariableTypeEager, bind, ret.
  fold (getTypeCommand u variableName). rewrite H.
  unfold typeOfResponseEager. rewrite TrimPrefix_app. reflexivity.
Qed.

Lemma GetVariableType_both_shapes_witness :
  (exists c', GetVariableType [] sampleUPS "ups.id"
                (clientOn ["TYPE ups ups.id RW STRING:20"])
              = Returns ("STRING", true, 20%Z, None) c') /\
  (exists c', GetVariableType [] sampleUPS "ups.id"
                (clientOn ["TYPE ups ups.id STRING:5"])
              = Returns ("STRING", false, 5%Z, None) c').
Proof.
  split; eexists.
  - eapply (GetVariableType_both_shapes [] sampleUPS "ups.id"
              (clientOn ["TYPE ups ups.id RW STRING:20"])
              "TYPE ups ups.id RW STRING:20" []);
      [vm_compute; reflexivity | reflexivity].
  - eapply (GetVariableType_both_shapes [] sampleUPS "ups.id"
              (clientOn ["TYPE ups ups.id STRING:5"])
              "TYPE ups ups.id STRING:5" []);
      [vm_compute; reflexivity | reflexivity].
Defined.

(** ** The variables of a listing *)

Lemma inferValue_Name newVar raw varType :
  Name (inferValue newVar raw varType) = Name newVar.
Proof.
  unfold inferValue.
  destruct (String.eqb raw "enabled"); [reflexivity|].
  destruct (String.eqb raw "disabled"); [reflexivity|].
  destruct (numericRegex raw); [destruct (Contains raw ".");
    [destruct (ParseFloat raw) | destruct (ParseInt raw)]|];
  cbn [setInferred Type_];
  match goal with |- context [String.eqb ?a ?b] => destruct (String.eqb a b) end;
  reflexivity.
Qed.

Lemma fromEntry_more taxonomy u line lines v :
  fromEntry taxonomy u lines v -> fromEntry taxonomy u (line :: lines) v.
Proof.
  intros (l & raw & ty & Hin & He & Hb). exists l, raw, ty.
  repeat split; auto. now right.
Qed.

Lemma variablesLoop_built taxonomy u lines :
  forall vars0 c vars err c',
    variablesLoop taxonomy u ("VAR " ++ UPSName u ++ " ") lines vars0 c
      = Returns (vars, err) c' ->
    exists extra, vars = (vars0 ++ extra)%list /\
                  Forall (fromEntry taxonomy u lines) extra.
Proof.
  induction lines as [|line rest IH]; intros vars0 c vars err c' H.
  - cbn in H. injection H as <- <- <-. exists []. now rewrite app_nil_r.
  - cbn [variablesLoop] in H.
    destruct (entryOf _ line) as [[name raw]|] eqn:E.
    + unfold bind in H.
      destruct (GetVariableDescription taxonomy u name c)
        as [[description [e|]] c2|] eqn:D; try discriminate.
      { injection H as <- <- <-. exists []. now rewrite app_nil_r. }
      destruct (GetVariableType taxonomy u name c2)
        as [[[[varType writeable] maximumLength] [e|]] c3|] eqn:T; try discriminate.
      { injection H as <- <- <-. exists []. now rewrite app_nil_r. }
      destruct (IH _ _ _ _ _ H) as (extra & -> & F).
      fold (inferred name raw description varType writeable maximumLength) in *.
      set (v := inferred name raw description varType writeable maximumLength) in *.
      exists (v :: extra). rewrite <- app_assoc. split; [reflexivity|].
      constructor.
      * assert (N : Name v = name) by (subst v; unfold inferred; now rewrite inferValue_Name).
        exists line, raw, varType. rewrite N.
        split; [now left|]. split; [exact E|].
        exists c, c2, c3, description, writeable, maximumLength.
        rewrite N. auto.
      * eapply List.Forall_impl; [|exact F]. intros a. apply fromEntry_more.
    + destruct (IH _ _ _ _ _ H) as (extra & -> & F). exists extra.
      split; [reflexivity|].
      eapply List.Forall_impl; [|exact F]. intros a. apply fromEntry_more.
Qed.

(** Every variable that [GetVariables] returns comes from an entry line
    of the listing, between its first and its last line. *)
Lemma GetVariables_built taxonomy u c vars err u' c' :
  GetVariables taxonomy u c = Returns (vars, err, u') c' ->
  vars = [] \/
  exists resp c1,
    SendCommand taxonomy (listVarCommand u) c = Returns (resp, None) c1 /\
    Forall (fromEntry taxonomy u (middle resp)) vars.
Proof.
  unfold GetVariables, bind, ret. fold (listVarCommand u). intros H.
  destruct (SendCommand taxonomy (listVarCommand u) c) as [[resp [e|]] c1|];
    try discriminate.
  - left. congruence.
  - destruct (length resp <? 2)%nat; [left; congruence|].
    destruct (variablesLoop _ _ _ _ _ c1) as [[vs [e|]] c2|] eqn:L; try discriminate.
    + right. exists resp, c1. split; [reflexivity|].
      destruct (variablesLoop_built _ _ _ _ _ _ _ _ L) as (extra & -> & F).
      assert (vars = ([] ++ extra)%list) by congruence. now subst.
    + right. exists resp, c1. split; [reflexivity|].
      destruct (variablesLoop_built _ _ _ _ _ _ _ _ L) as (extra & -> & F).
      assert (vars = ([] ++ extra)%list) by congruence. now subst.
Qed.


(** The loop of [GetVariables] builds a variable for each entry in turn
    until a query fails. *)
Lemma variablesLoop_turns taxonomy u lines :
  forall vars0 c vars err c',
    variablesLoop taxonomy u ("VAR " ++ UPSName u ++ " ") lines vars0 c
      = Returns (vars, err) c' ->
    exists processed later extra cm,
      entries ("VAR " ++ UPSName u ++ " ") lines = (processed ++ later)%list /\
      vars = (vars0 ++ extra)%list /\
      builtInTurn taxonomy u processed extra c cm /\
      (err = None -> later = [] /\ cm = c') /\
      (err <> None -> later <> []).
Proof.
  induction lines as [|line rest IH]; intros vars0 c vars err c' H.
  - cbn in H. injection H as <- <- <-. exists [], [], [], c.
    split; [reflexivity|]. split; [now rewrite app_nil_r|]. split; [reflexivity|].
    split; [auto|]. intros N. now elim N.
  - cbn [variablesLoop entries] in *.
    destruct (entryOf _ line) as [[name raw]|] eqn:E; [|exact (IH _ _ _ _ _ H)].
    unfold bind in H.
    destruct (GetVariableDescription taxonomy u name c)
      as [[description [e|]] c2|] eqn:D; try discriminate.
    { injection H as <- <- <-. eexists [], _, [], c.
      split; [reflexivity|]. split; [now rewrite app_nil_r|]. split; [reflexivity|].
      split; discriminate. }
    destruct (GetVariableType taxonomy u name c2)
      as [[[[varType writeable] maximumLength] [e|]] c3|] eqn:T; try discriminate.
    { injection H as <- <- <-. eexists [], _, [], c.
      split; [reflexivity|]. split; [now rewrite app_nil_r|]. split; [reflexivity|].
      split; discriminate. }
    destruct (IH _ _ _ _ _ H) as (processed & later & extra & cm & L & -> & B & N1 & N2).
    fold (inferred name raw description varType writeable maximumLength) in *.
    set (v := inferred name raw description varType writeable maximumLength) in *.
    exists ((name, raw) :: processed), later, (v :: extra), cm.
    rewrite <- app_assoc. cbn [app]. rewrite L.
    split; [reflexivity|]. split; [reflexivity|]. split; [|auto].
    destruct (GetVariableType_ok _ _ _ _ _ _ _ _ T) as (first & more & S & Ety).
    cbn [builtInTurn]. exists c2, c3, description, first, more, varType, writeable,
      maximumLength.
    split; [exact D|]. split; [exact S|]. split; [exact T|]. split; [exact Ety|].
    split; [reflexivity|].
    split; [subst v; unfold inferred; now rewrite inferValue_Name|].
    split; [subst v; apply infer_OriginalType | exact B].
Qed.

Lemma GetVariables_turns taxonomy u c vars err u' c' :
  GetVariables taxonomy u c = Returns (vars, err, u') c' ->
  (exists resp e c1,
     SendCommand taxonomy (listVarCommand u) c = Returns (resp, Some e) c1 /\
     vars = [] /\ err = Some e) \/
  exists resp c1 processed later cm,
    SendCommand taxonomy (listVarCommand u) c = Returns (resp, None) c1 /\
    entries ("VAR " ++ UPSName u ++ " ") (middle resp) = (processed ++ later)%list /\
    builtInTurn taxonomy u processed vars c1 cm /\
    (err = None -> later = [] /\ cm = c') /\
    (err <> None -> later <> []).
Proof.
  unfold GetVariables, bind, ret. fold (listVarCommand u). intros H.
  destruct (SendCommand taxonomy (listVarCommand u) c) as [[resp [e|]] c1|];
    try discriminate.
  - left. exists resp, e, c1. split; [reflexivity|]. split; congruence.
  - right. exists resp, c1.
    destruct (length resp <? 2)%nat eqn:Len.
    + exists [], [], c1.
      assert (M : middle resp = []).
      { apply Nat.ltb_lt in Len. destruct resp as [|a [|b resp]]; cbn in Len; try lia;
          reflexivity. }
      rewrite M. injection H as <- <- _ <-. cbn. repeat split; auto.
    + destruct (variablesLoop _ _ _ _ _ c1) as [[vs [e|]] c2|] eqn:L; try discriminate;
        destruct (variablesLoop_turns _ _ _ _ _ _ _ _ L)
          as (processed & later & extra & cm & En & -> & B & N1 & N2);
        exists processed, later, cm; injection H as <- <- _ <-; cbn [app];
        repeat split; auto; try (now apply N1); try (now apply N2).
Qed.



(** C5 (amended): for every variable that [GetVariables] returns, the
    original type is the type that [GetVariableType] returned for it in
    that run, whatever the inference made of the value: the loop takes
    the entries of the listing in turn, from the state that the listing
    left; for each it sends the description query and then the type
    query, and the original type of the variable that it builds is the
    type token of the first line of that TYPE response without its RW or
    RO flag, and, for a token STRING:length, the word STRING without the
    length. *)
Theorem GetVariables_OriginalType taxonomy u c vars err u' c' :
  GetVariables taxonomy u c = Returns (vars, err, u') c' ->
  (exists resp e c1,
     SendCommand taxonomy (listVarCommand u) c = Returns (resp, Some e) c1 /\
     vars = [] /\ err = Some e) \/
  exists resp c1 processed later cm,
    SendCommand taxonomy (listVarCommand u) c = Returns (resp, None) c1 /\
    entries ("VAR " ++ UPSName u ++ " ") (middle resp) = (processed ++ later)%list /\
    builtInTurn taxonomy u processed vars c1 cm /\
    (err = None -> later = [] /\ cm = c') /\
    (err <> None -> later <> []).
Proof. exact (GetVariables_turns taxonomy u c vars err u' c'). Qed.

Lemma GetVariables_charge :
  exists c',
    GetVariables [] sampleUPS (clientOn (listingOf "battery.charge" "100" "NUMBER"))
    = Returns ([chargeVariable], None, setVariables sampleUPS [chargeVariable]) c'.
Proof. eexists. vm_compute. reflexivity. Defined.


Lemma GetVariables_OriginalType_witness :
  exists c1 cm,
    builtInTurn [] sampleUPS [("battery.charge", "100")] [chargeVariable] c1 cm /\
    OriginalType chargeVariable
    = baseType (typeToken sampleUPS "battery.charge" "TYPE ups battery.charge NUMBER").
Proof.
  destruct GetVariables_charge as (c' & H).
  destruct (GetVariables_OriginalType [] sampleUPS _ _ _ _ _ H)
    as [(resp & e & c1 & _ & _ & E)|(resp & c1 & processed & later & cm & S & En & B & N1 & _)];
    [discriminate|].
  exists c1, cm. split; [|reflexivity].
  destruct (N1 eq_refl) as [-> _]. rewrite app_nil_r in En. subst processed.
  vm_compute in S. injection S as <- _. exact B.
Defined.


(** C5 as stated fails on a bounded string: the server reports
    STRING:20 and the original type is STRING. *)
Lemma OriginalType_loses_length :
  typeToken sampleUPS "ups.id" "TYPE ups ups.id RW STRING:20" = "STRING:20" /\
  exists v u' c',
    GetVariables [] sampleUPS (clientOn (listingOf "ups.id" "rack 4" "RW STRING:20"))
    = Returns ([v], None, u') c' /\
    OriginalType v = "STRING" /\
    OriginalType v <> typeToken sampleUPS "ups.id" "TYPE ups ups.id RW STRING:20".
Proof.
  split; [reflexivity|]. do 3 eexists. split; [vm_compute; reflexivity|].
  split; [reflexivity | discriminate].
Qed.

(** ** The received bytes *)

(** On the path of [sendCommandUnsafe] every line of the response adds
    its length and one to the counter. *)
Lemma countReceived_BytesReceived resp m :
  BytesReceived (countReceived resp m)
  = fold_left (fun n line => add64 n (Z.of_nat (String.length line + 1)))
      resp (BytesReceived m).
Proof.
  unfold countReceived. revert m.
  induction resp as [|line resp IH]; intros m; [reflexivity|].
  cbn [fold_left]. now rewrite IH.
Qed.

(** C6: the received bytes are counted on one of the two sending paths
    only. After the answer OK to the command VER, [SendCommand] leaves
    the counter of received bytes at 0, while [sendCommandUnsafe] adds
    3, the length of the line and one for its line feed. *)
Theorem SendCommand_skips_BytesReceived :
  exists c1 c2,
    SendCommand [] "VER" (clientOn ["OK"]) = Returns (["OK"], None) c1 /\
    option_map BytesReceived (metrics c1) = Some 0%Z /\
    sendCommandUnsafe [] "VER" (clientOn ["OK"]) = Returns (["OK"], None) c2 /\
    option_map BytesReceived (metrics c2) = Some 3%Z.
Proof.
  do 2 eexists. split; [vm_compute; reflexivity|].
  split; [reflexivity|]. split; [vm_compute; reflexivity | reflexivity].
Qed.

(** ** Connections of the pool *)

Lemma SendCommandWithContext_conn taxonomy ctx cmd c r c' :
  SendCommandWithContext taxonomy ctx cmd c = Returns r c' ->
  conn c <> None -> conn c' <> None.
Proof.
  unfold SendCommandWithContext. intros H.
  destruct (doneAtStart ctx); [now injection H as _ <-|].
  run_do. destruct (conn c) as [k|] eqn:Ek; [|discriminate].
  red_do. destruct (hd false (wfail k)); red_do; [now injection H as _ <-|].
  destruct (hd false (dfail k)); red_do; [now injection H as _ <-|].
  destruct (readLoop _ _ _ (incoming k) []) as [res rest]. red_do.
  destruct (doneWhileReading ctx); [now injection H as _ <-|].
  destruct res as [lines|]; [|now injection H as _ <-].
  destruct (serverError taxonomy lines); now injection H as _ <-.
Qed.

Lemma GetVersion_conn taxonomy c r c' :
  GetVersion taxonomy c = Returns r c' -> conn c <> None -> conn c' <> None.
Proof.
  unfold GetVersion, bind, ret, modify, SendCommand. intros H Hc.
  destruct (SendCommandWithContext taxonomy Background "VER" c)
    as [[resp err] c1|] eqn:S; [|discriminate].
  pose proof (SendCommandWithContext_conn _ _ _ _ _ _ S Hc) as Hc1.
  destruct resp, err; cbv beta iota zeta in H; injection H as _ <-; exact Hc1.
Qed.

Lemma GetNetworkProtocolVersion_conn taxonomy c r c' :
  GetNetworkProtocolVersion taxonomy c = Returns r c' ->
  conn c <> None -> conn c' <> None.
Proof.
  unfold GetNetworkProtocolVersion, bind, ret, modify, SendCommand. intros H Hc.
  destruct (SendCommandWithContext taxonomy Background "NETVER" c)
    as [[resp err] c1|] eqn:S; [|discriminate].
  pose proof (SendCommandWithContext_conn _ _ _ _ _ _ S Hc) as Hc1.
  destruct resp, err; cbv beta iota zeta in H; injection H as _ <-; exact Hc1.
Qed.

(** A command on a connected client returns. *)
Lemma SendCommandWithContext_returns taxonomy ctx cmd c :
  conn c <> None ->
  exists r c', SendCommandWithContext taxonomy ctx cmd c = Returns r c'.
Proof.
  unfold SendCommandWithContext. intros Hc.
  destruct (doneAtStart ctx); [unfold ret; eauto|].
  run_do. destruct (conn c) as [k|] eqn:Ek; [|congruence].
  red_do. destruct (hd false (wfail k)); red_do; [eauto|].
  destruct (hd false (dfail k)); red_do; [eauto|].
  destruct (readLoop _ _ _ (incoming k) []) as [res rest]. red_do.
  destruct (doneWhileReading ctx); [eauto|].
  destruct res as [lines|]; [|eauto].
  destruct (serverError taxonomy lines); eauto.
Qed.

Lemma GetVersion_returns taxonomy c :
  conn c <> None -> GetVersion taxonomy c <> Panics.
Proof.
  intros Hc. unfold GetVersion, bind, ret, modify, SendCommand.
  destruct (SendCommandWithContext_returns taxonomy Background "VER" c Hc)
    as ([resp err] & c1 & ->).
  destruct resp, err; discriminate.
Qed.

Lemma GetNetworkProtocolVersion_returns taxonomy c :
  conn c <> None -> GetNetworkProtocolVersion taxonomy c <> Panics.
Proof.
  intros Hc. unfold GetNetworkProtocolVersion, bind, ret, modify, SendCommand.
  destruct (SendCommandWithContext_returns taxonomy Background "NETVER" c Hc)
    as ([resp err] & c1 & ->).
  destruct resp, err; discriminate.
Qed.

(** A client that [ConnectWithOptionsAndConfig] returns is connected. *)
Lemma Connect_conn taxonomy options dial client :
  ConnectWithOptionsAndConfig taxonomy options dial = inl client -> conn client <> None.
Proof.
  unfold ConnectWithOptionsAndConfig. intros H. cbv zeta in H.
  destruct dial as [tcpConn|]; [|discriminate].
  destruct (GetVersion taxonomy _) as [[v [e|]] c1|] eqn:V; try discriminate.
  destruct (GetNetworkProtocolVersion taxonomy c1) as [[n [e|]] c2|] eqn:N;
    try discriminate.
  injection H as <-.
  eapply GetNetworkProtocolVersion_conn; [exact N|].
  eapply GetVersion_conn; [exact V|]. unfold setConn. cbn [conn]. discriminate.
Qed.

Lemma withMetrics_conn f c : conn (withMetrics f c) = conn c.
Proof. unfold withMetrics. now destruct (metrics c). Qed.

(** ** The bounds of the pool *)

Local Open Scope Z_scope.

Lemma wrapInt_id (x : Z) : - 2 ^ 63 <= x <= 2 ^ 63 - 1 -> wrapInt x = x.
Proof.
  intros H. unfold wrapInt.
  change (2 ^ 63) with 9223372036854775808 in *.
  change (2 ^ 64) with 18446744073709551616.
  rewrite Z.mod_small; lia.
Qed.

Lemma closeAt_pool id w : pool (snd (closeAt id w)) = pool w.
Proof. unfold closeAt. now destruct (ClientClose (deref (heap w) id)). Qed.

Lemma closeAll_pool ids lastErr w : pool (snd (closeAll ids lastErr w)) = pool w.
Proof.
  revert lastErr w. induction ids as [|id ids IH]; intros lastErr w; [reflexivity|].
  cbn [closeAll]. pose proof (closeAt_pool id w) as P.
  destruct (closeAt id w) as [err w1]. cbn [snd] in P. now rewrite IH.
Qed.

Lemma removeOne_length id l :
  existsb (Nat.eqb id) l = true ->
  (length l = S (length (removeOne id l)))%nat.
Proof.
  induction l as [|x l IH]; [discriminate|].
  cbn [existsb removeOne]. rewrite (Nat.eqb_sym id x).
  destruct (Nat.eqb x id); cbn [orb length]; [reflexivity|].
  intros H. now rewrite (IH H).
Qed.

(** The facts about a [createOrWait] that matter for the counters. *)
Lemma createOrWait_pool taxonomy env w res w' :
  createOrWait taxonomy env w = (res, w') ->
  let p := pool w in
  let p' := pool w' in
  maxSize p' = maxSize p /\ closed p' = closed p /\
  ((maxSize p <= activeClients p /\ activeClients p' = activeClients p /\
    ((exists id, res = GetOk Waited id /\ clients p = id :: clients p') \/
     ((forall path id, res <> GetOk path id) /\ clients p' = clients p))) \/
   (activeClients p < maxSize p /\ clients p' = clients p /\
    ((exists e, res = GetErr e /\
                activeClients p' = wrapInt (wrapInt (activeClients p + 1) - 1)) \/
     (res = GetOk Created (nextId w) /\
      activeClients p' = wrapInt (activeClients p + 1) /\
      conn (deref (heap w') (nextId w)) <> None)))).
Proof.
  unfold createOrWait. intros H. cbv zeta.
  destruct (Z.leb_spec (maxSize (pool w)) (activeClients (pool w))) as [L|L].
  - destruct (clients (pool w)) as [|id rest] eqn:Q.
    + destruct (ctxDone env); injection H as <- <-;
        (split; [reflexivity|]; split; [reflexivity|]; left;
         split; [exact L|]; split; [reflexivity|]; right; split; [discriminate | auto]).
    + destruct (ctxDone env) as [e|]; [destruct (ctxFirst env)|];
        injection H as <- <-; cbn [pool setPool setClients maxSize closed activeClients clients];
        (split; [reflexivity|]; split; [reflexivity|]; left;
         split; [exact L|]; split; [reflexivity|]).
      * right. split; [discriminate | auto].
      * left. eauto.
      * left. eauto.
  - destruct (ConnectWithOptionsAndConfig taxonomy (opts (pool w)) (dial env))
      as [client|err] eqn:C;
      injection H as <- <-;
      cbn [pool setPool setActive incActive decActive maxSize closed activeClients
           clients heap nextId];
      (split; [reflexivity|]; split; [reflexivity|]; right;
       split; [exact L|]; split; [reflexivity|]).
    + right. split; [reflexivity|]. split; [reflexivity|].
      unfold deref. rewrite lookup_insert_eq. cbn [default]. unfold id.
      rewrite withMetrics_conn. now apply (Connect_conn _ _ _ _ C).
    + left. eauto.
Qed.

Lemma Get_bounded taxonomy M env r :
  M <= 2 ^ 63 - 1 -> bounded M r -> bounded M (step taxonomy r (CallGet env)).
Proof.
  intros HM (Hm & Hq & Hd). unfold bounded, step.
  destruct (Get taxonomy env (world r)) as [res w'] eqn:G.
  cbn [world checkedOut disciplined]. unfold Get in G.
  change (2 ^ 63) with 9223372036854775808 in HM.
  destruct (closed (pool (world r))) eqn:Cl.
  { injection G as <- <-. auto. }
  destruct (clients (pool (world r))) as [|id rest] eqn:Q.
  - destruct (createOrWait_pool _ _ _ _ _ G) as (E1 & _ & [(L & A & W)|(L & Qe & W)]);
      cbv zeta in *; rewrite ?Q in *; cbn [length] in *.
    + destruct W as [(i & -> & Qi)|(N & Qe)]; [discriminate|].
      rewrite E1, Qe, A. cbn [length]. bounded_goal Hd.
      destruct res; try lia. now elim (N path client).
    + rewrite E1, Qe. cbn [length]. bounded_goal Hd.
      destruct W as [(e & -> & A)|(-> & A & _)]; rewrite A.
      * rewrite (wrapInt_id (_ + 1)) by lia. rewrite wrapInt_id by lia. lia.
      * rewrite wrapInt_id by lia. cbn [length]. lia.
  - cbn [heap setPool] in G.
    destruct (conn (deref (heap (world r)) id)).
    + injection G as <- <-. cbn [pool setPool setClients maxSize clients activeClients length].
      cbn [length] in *. bounded_goal Hd. lia.
    + destruct (createOrWait_pool _ _ _ _ _ G) as (E1 & _ & [(L & A & W)|(L & Qe & W)]);
        cbv zeta in *;
        cbn [pool setPool setClients setActive decActive maxSize clients activeClients] in *;
        cbn [length] in *.
      * destruct W as [(i & -> & Qi)|(N & Qe)].
        -- rewrite E1, A. rewrite Qi in *. cbn [length] in *.
           bounded_goal Hd. rewrite wrapInt_id in L |- * by lia. lia.
        -- rewrite E1, A, Qe. bounded_goal Hd.
           rewrite wrapInt_id in L |- * by lia. lia.
      * rewrite E1, Qe. bounded_goal Hd.
        assert (W1 : wrapInt (activeClients (pool (world r)) - 1)
                     = activeClients (pool (world r)) - 1)
          by (apply wrapInt_id; lia).
        rewrite W1 in *.
        destruct W as [(e & -> & A)|(-> & A & _)]; rewrite A.
        -- rewrite (wrapInt_id (_ + 1)) by lia. rewrite wrapInt_id by lia. lia.
        -- rewrite wrapInt_id by lia. cbn [length]. lia.
Qed.

Lemma Put_bounded taxonomy M client r :
  M <= 2 ^ 63 - 1 -> bounded M r -> bounded M (step taxonomy r (CallPut client)).
Proof.
  intros HM (Hm & Hq & Hd). unfold bounded, step.
  change (2 ^ 63) with 9223372036854775808 in HM.
  destruct client as [id|]; cbn [world checkedOut disciplined Put snd]; [|auto].
  destruct (closed (pool (world r))).
  { rewrite closeAt_pool. bounded_goal Hd.
    pose proof (removeOne_length _ _ H). unfold ClientId in *. lia. }
  destruct (Z.ltb_spec (Z.of_nat (length (clients (pool (world r)))))
              (maxSize (pool (world r)))) as [L|L].
  - cbn [snd pool setPool setClients maxSize clients activeClients].
    rewrite List.length_app. cbn [length]. bounded_goal Hd.
    pose proof (removeOne_length _ _ H). unfold ClientId in *. lia.
  - rewrite closeAt_pool.
    cbn [pool setPool setActive decActive maxSize clients activeClients].
    bounded_goal Hd.
    pose proof (removeOne_length _ _ H). unfold ClientId in *.
    rewrite wrapInt_id by lia. lia.
Qed.

Lemma step_bounded taxonomy M call r :
  0 <= M <= 2 ^ 63 - 1 -> bounded M r -> bounded M (step taxonomy r call).
Proof.
  intros HM B. destruct call as [env|client| |id].
  - apply Get_bounded; [lia | exact B].
  - apply Put_bounded; [lia | exact B].
  - destruct B as (Hm & Hq & Hd). unfold bounded, step, PoolClose.
    cbn [world checkedOut disciplined].
    destruct (closed (pool (world r))); cbn [snd]; [auto|].
    rewrite closeAll_pool.
    cbn [pool setPool setClients setClosed maxSize clients activeClients length].
    bounded_goal Hd. lia.
  - destruct B as (Hm & Hq & Hd). unfold bounded, step.
    cbn [world checkedOut disciplined]. rewrite closeAt_pool. auto.
Qed.

Lemma run_bounded taxonomy M calls r :
  0 <= M <= 2 ^ 63 - 1 -> bounded M r ->
  bounded M (fold_left (step taxonomy) calls r).
Proof.
  intros HM. revert r. induction calls as [|call calls IH]; intros r B; [exact B|].
  cbn [fold_left]. apply IH. now apply step_bounded.
Qed.

Lemma NewPool_start config p :
  NewPool config = inl p -> MaxSize config <= 2 ^ 63 - 1 ->
  0 <= maxSize p <= 2 ^ 63 - 1 /\ bounded (maxSize p) (start p).
Proof.
  unfold NewPool. intros H HM.
  change (2 ^ 63) with 9223372036854775808 in *.
  destruct (String.eqb (Hostname config) EmptyString); [discriminate|].
  injection H as <-. cbn [maxSize].
  assert (R : 0 <= (if MaxSize config <=? 0 then 10 else MaxSize config)
                <= 9223372036854775808 - 1)
    by (destruct (Z.leb_spec (MaxSize config) 0); lia).
  split; [exact R|]. unfold bounded, start.
  cbn [world pool maxSize clients activeClients checkedOut length].
  split; [reflexivity|]. split; [lia|]. intros _. lia.
Qed.

(** C2 (amended): after every sequence of calls of [Get], [Put] and
    [Close] on a pool that [NewPool] returned, with clients closed by
    their holders in between, the queue holds at most the maximum size
    of idle clients; and as long as every [Put] released a client that a
    [Get] had returned and that was not released since, the number of
    checked-out clients plus the number of idle clients is at most the
    counter of active clients, which is at most the maximum size. The
    pair of [Stats] is the number of idle clients and that counter,
    which counts the idle clients too. *)
Theorem pool_bounds taxonomy config p calls :
  NewPool config = inl p -> MaxSize config <= 2 ^ 63 - 1 ->
  let r := run taxonomy p calls in
  let idle := fst (Stats (world r)) in
  let active := snd (Stats (world r)) in
  maxSize (pool (world r)) = maxSize p /\
  idle <= maxSize p /\
  (disciplined r = true ->
   Z.of_nat (length (checkedOut r)) + idle <= active <= maxSize p).
Proof.
  intros H HM. destruct (NewPool_start _ _ H HM) as [R B].
  exact (run_bounded taxonomy (maxSize p) calls (start p) R B).
Qed.

Lemma pool_bounds_witness :
  let r := run [] singlePool [CallGet helloEnv; CallPut (Some 0%nat)] in
  maxSize (pool (world r)) = 1 /\
  fst (Stats (world r)) <= 1 /\
  Z.of_nat (length (checkedOut r)) + fst (Stats (world r))
    <= snd (Stats (world r)) <= 1.
Proof.
  intros r.
  destruct (pool_bounds [] singleConfig singlePool
              [CallGet helloEnv; CallPut (Some 0%nat)] eq_refl)
    as (A & B & C); [vm_compute; discriminate|].
  exact (conj A (conj B (C eq_refl))).
Defined.

(** C2 as stated fails after one [Get] and the [Put] of its client: the
    pair of [Stats] is (1, 1) on a pool of maximum size 1. *)
Lemma Stats_counts_idle_as_active :
  let r := run [] singlePool [CallGet helloEnv; CallPut (Some 0%nat)] in
  NewPool singleConfig = inl singlePool /\
  Stats (world r) = (1, 1) /\
  ~ (fst (Stats (world r)) + snd (Stats (world r)) <= maxSize (pool (world r))).
Proof.
  intros r. split; [reflexivity|]. split; [reflexivity|].
  vm_compute. intros H. now apply H.
Qed.


Local Close Scope Z_scope.

(** * Further properties of the code

    Properties read off the sources, beside those that the
    specification states: what the other calls on a session and on a
    UPS return, send and store, and how the pool behaves at its edges. *)

(** ** Lines of the stream *)

Lemma ReadString_line (body rest : string) :
  mem lf body = false ->
  ReadString (body ++ str1 lf ++ rest) = Some (body ++ str1 lf, rest).
Proof.
  induction body as [|c r IH]; intros H.
  - reflexivity.
  - cbn [mem] in H. apply orb_false_iff in H as [H1 H2].
    cbn [String.append ReadString]. rewrite Ascii.eqb_sym, H1.
    change (r ++ String lf rest) with (r ++ str1 lf ++ rest).
    now rewrite (IH H2).
Qed.

Lemma ReadString_none (tail : string) :
  mem lf tail = false -> ReadString tail = None.
Proof.
  induction tail as [|c r IH]; intros H; [reflexivity|].
  cbn [mem] in H. apply orb_false_iff in H as [H1 H2].
  cbn [ReadString]. rewrite Ascii.eqb_sym, H1. now rewrite (IH H2).
Qed.

Lemma readLoop_one_line (fuel : nat) (endLine body rest : string) :
  mem lf body = false ->
  readLoop (S fuel) endLine false (body ++ str1 lf ++ rest) [] = (Some [body], rest).
Proof.
  intros H. cbn [readLoop]. rewrite (ReadString_line _ _ H).
  rewrite str_length_app, Nat.add_comm. cbn [String.length Nat.add Nat.ltb Nat.leb].
  rewrite clean_line, orb_true_r. reflexivity.
Qed.

Lemma readLoop_no_end (fuel : nat) (endLine : string) (lines : list string)
    (tail : string) (acc : list string) :
  mem lf tail = false ->
  Forall (fun l => mem lf l = false /\ l ++ str1 lf <> endLine) lines ->
  readLoop fuel endLine true (wire lines ++ tail) acc = (None, EmptyString).
Proof.
  intros Ht. revert fuel acc. induction lines as [|l ls IH]; intros fuel acc Hl.
  - destruct fuel; [reflexivity|]. cbn [readLoop wire String.append].
    now rewrite (ReadString_none _ Ht).
  - destruct fuel; [reflexivity|]. inversion Hl as [|? ? [H1 H2] Hls]; subst.
    cbn [readLoop wire]. rewrite !str_app_assoc.
    rewrite (ReadString_line _ _ H1).
    rewrite str_length_app, Nat.add_comm. cbn [String.length Nat.add Nat.ltb Nat.leb].
    rewrite clean_line.
    destruct (String.eqb_spec (l ++ str1 lf) endLine) as [E|_]; [contradiction|].
    cbn [orb negb]. apply IH, Hls.
Qed.

(** ** Commands that are no listing *)

Lemma str_rev_involutive (s : string) : rev (rev s) = s.
Proof.
  induction s as [|c s IH]; [reflexivity|].
  rewrite str_rev_cons, str_rev_app, IH. reflexivity.
Qed.

Lemma str_take_drop (n : nat) (s : string) : take n s ++ drop n s = s.
Proof.
  revert s. induction n as [|n IH]; intros [|c s]; cbn [take drop String.append];
    try reflexivity. now rewrite IH.
Qed.

Lemma trim_space_left_drop (fuel : nat) (runes : list string) (s : string) :
  exists n, trim_space_left fuel runes s = drop n s.
Proof.
  revert s. induction fuel as [|fuel IH]; intros s; [now exists 0|].
  cbn [trim_space_left]. destruct (leading runes s) as [m|]; [|now exists 0].
  destruct (IH (drop m s)) as [n ->]. exists (m + n).
  clear. revert s. induction m as [|m IHm]; intros s; [reflexivity|].
  destruct s as [|c s]; cbn [drop Nat.add]; [now destruct n|apply IHm].
Qed.

Lemma trim_space_left_head (fuel : nat) (runes : list string) (s : string) :
  leading runes s = None -> trim_space_left fuel runes s = s.
Proof. intros H. destruct fuel; cbn [trim_space_left]; [|rewrite H]; reflexivity. Qed.

(** A command whose first byte starts no white space and is not the
    letter L is no listing command. *)
Lemma isList_head (c : ascii) (r : string) :
  leading space_runes (String c r) = None -> c <> "L"%char ->
  isList (String c r) = false.
Proof.
  intros H Hc. unfold isList, TrimSpace.
  rewrite (trim_space_left_head _ _ _ H).
  set (s := String c r).
  destruct (trim_space_left_drop (String.length s) (map rev space_runes) (rev s))
    as [m ->].
  assert (P : exists z, s = rev (drop m (rev s)) ++ z).
  { exists (rev (take m (rev s))).
    now rewrite <- str_rev_app, str_take_drop, str_rev_involutive. }
  destruct P as [z P]. destruct (rev (drop m (rev s))) as [|d p]; [reflexivity|].
  unfold s in P. cbn [String.append] in P. injection P as <- _.
  unfold HasPrefix. cbn [String.prefix].
  destruct (ascii_dec "L" c) as [E|_]; [now subst|reflexivity].
Qed.

Lemma responseTo_one_line (cmd : string) (k : Conn) (body rest : string) :
  isList cmd = false -> mem lf body = false ->
  incoming k = body ++ str1 lf ++ rest ->
  responseTo cmd k = (Some [body], rest).
Proof.
  intros L B I. unfold responseTo. rewrite L, I. now apply readLoop_one_line.
Qed.

Lemma SendCommand_one_line taxonomy cmd c k body rest :
  conn c = Some k ->
  hd false (wfail k) = false -> hd false (dfail k) = false ->
  isList cmd = false ->
  mem lf body = false ->
  incoming k = body ++ str1 lf ++ rest ->
  SendCommand taxonomy cmd c
  = Returns (match serverError taxonomy [body] with
             | Some e => ([], Some e)
             | None => ([body], None)
             end)
            (setConn c (Some (afterExchange k cmd rest))).
Proof.
  intros Hk W D L B I. unfold SendCommand.
  apply SendCommandWithContext_run; auto using responseTo_one_line.
Qed.

(** X1: a command that is no listing command takes exactly one line from
    the stream, on both send paths: when the write and the deadline go
    through and the context is not done, the call returns that line
    alone, or the failure that the line stands for when it starts with
    ERR and a space; the command went out followed by a line feed, and
    every byte after the first line feed stays in the stream for the
    next command. *)
Theorem commands_take_one_line taxonomy cmd c k body rest :
  conn c = Some k ->
  hd false (wfail k) = false -> hd false (dfail k) = false ->
  isList cmd = false ->
  mem lf body = false ->
  incoming k = body ++ str1 lf ++ rest ->
  let result := match serverError taxonomy [body] with
                | Some e => ([], Some e)
                | None => ([body], None)
                end in
  (forall ctx,
     doneAtStart ctx = None -> doneWhileReading ctx = None ->
     SendCommandWithContext taxonomy ctx cmd c
     = Returns result (setConn c (Some (afterExchange k cmd rest)))) /\
  (exists c',
     sendCommandUnsafe taxonomy cmd c = Returns result c' /\
     conn c' = Some (afterExchange k cmd rest)).
Proof.
  intros Hk W D L B I result. split.
  - intros ctx H1 H2.
    apply SendCommandWithContext_run; auto using responseTo_one_line.
  - rewrite (sendCommandUnsafe_run taxonomy cmd c k [body] rest Hk W D
               (responseTo_one_line _ _ _ _ L B I)).
    eexists. split; [reflexivity|]. now rewrite withMetrics_conn.
Qed.

Lemma commands_take_one_line_witness :
  SendCommandWithContext [] Background "GET NUMLOGINS ups"
    (clientOn ["NUMLOGINS ups 1"; "OK"])
  = Returns (["NUMLOGINS ups 1"], None)
      (setConn (clientOn ["NUMLOGINS ups 1"; "OK"])
         (Some {| incoming := wire ["OK"]; atEnd := Timeout;
                  outgoing := "GET NUMLOGINS ups" ++ str1 lf; wfail := []; dfail := [];
                  closeFails := false |})).
Proof.
  exact (proj1 (commands_take_one_line [] "GET NUMLOGINS ups"
                  (clientOn ["NUMLOGINS ups 1"; "OK"]) _ "NUMLOGINS ups 1" (wire ["OK"])
                  eq_refl eq_refl eq_refl eq_refl eq_refl eq_refl)
           Background eq_refl eq_refl).
Defined.

(** X2: a listing command whose sentinel never arrives fails with the
    wrapped read error, whatever lines the server sent, an ERR line
    included: the reader reads past such a line, so its typed failure
    is never returned, and the whole input is consumed. *)
Theorem listing_without_sentinel_fails taxonomy cmd c k lines tail :
  conn c = Some k ->
  hd false (wfail k) = false -> hd false (dfail k) = false ->
  isList cmd = true ->
  incoming k = wire lines ++ tail ->
  mem lf tail = false ->
  Forall (fun l => mem lf l = false /\ l <> sentinel cmd) lines ->
  SendCommand taxonomy cmd c
  = Returns ([], Some (ErrWrap "failed to read response"
                         (ErrFmt "error reading response" (ErrNet (atEnd k)))))
            (setConn c (Some (afterExchange k cmd EmptyString))).
Proof.
  intros Hk W D L I T F. unfold SendCommand, SendCommandWithContext.
  cbn [Background doneAtStart doneWhileReading].
  run_do. rewrite Hk. red_do. rewrite W. red_do. rewrite D. red_do.
  fold (isList cmd). rewrite (endLineOf_list _ L), L, I.
  rewrite (readLoop_no_end _ _ _ _ _ T).
  - reflexivity.
  - eapply List.Forall_impl; [|exact F]. cbn beta. intros l [H1 H2]. split; [exact H1|].
    intros E. apply H2. now apply app_inv_lf.
Qed.

Lemma listing_without_sentinel_fails_witness :
  SendCommand sampleTaxonomy "LIST VAR ups" (clientOn ["ERR ACCESS-DENIED"])
  = Returns ([], Some (ErrWrap "failed to read response"
                         (ErrFmt "error reading response" (ErrNet Timeout))))
            (setConn (clientOn ["ERR ACCESS-DENIED"])
               (Some {| incoming := EmptyString; atEnd := Timeout;
                        outgoing := "LIST VAR ups" ++ str1 lf; wfail := []; dfail := [];
                        closeFails := false |})).
Proof.
  refine (listing_without_sentinel_fails sampleTaxonomy "LIST VAR ups"
            (clientOn ["ERR ACCESS-DENIED"]) _ ["ERR ACCESS-DENIED"] EmptyString
            eq_refl eq_refl eq_refl eq_refl eq_refl eq_refl _).
  repeat constructor. discriminate.
Defined.

(** ** The connection attempt *)

(** A command changes nothing of the client but its connection. *)
Lemma SendCommandWithContext_frame taxonomy ctx cmd c r c' :
  SendCommandWithContext taxonomy ctx cmd c = Returns r c' ->
  c' = setConn c (conn c').
Proof.
  unfold SendCommandWithContext. intros H.
  destruct (doneAtStart ctx); [injection H as _ <-; now destruct c|].
  run_do. destruct (conn c) as [k|] eqn:Ek; [|discriminate].
  red_do. destruct (hd false (wfail k)); red_do; [now injection H as _ <-|].
  destruct (hd false (dfail k)); red_do; [now injection H as _ <-|].
  destruct (readLoop _ _ _ (incoming k) []) as [res rest]. red_do.
  destruct (doneWhileReading ctx); [now injection H as _ <-|].
  destruct res as [lines|]; [|now injection H as _ <-].
  destruct (serverError taxonomy lines); now injection H as _ <-.
Qed.

(** A command that fails returns no lines. *)
Lemma SendCommandWithContext_failed taxonomy ctx cmd c r c' :
  SendCommandWithContext taxonomy ctx cmd c = Returns r c' ->
  snd r <> None -> fst r = [].
Proof.
  unfold SendCommandWithContext. intros H.
  destruct (doneAtStart ctx); [now injection H as <- _|].
  run_do. destruct (conn c) as [k|] eqn:Ek; [|discriminate].
  red_do. destruct (hd false (wfail k)); red_do; [now injection H as <- _|].
  destruct (hd false (dfail k)); red_do; [now injection H as <- _|].
  destruct (readLoop _ _ _ (incoming k) []) as [res rest]. red_do.
  destruct (doneWhileReading ctx); [now injection H as <- _|].
  destruct res as [lines|]; [|now injection H as <- _].
  destruct (serverError taxonomy lines); now injection H as <- _.
Qed.

(** A command that is no listing and returns lines returns one line,
    the next one of the stream. *)
Lemma SendCommand_line_ok taxonomy cmd c resp c' :
  isList cmd = false ->
  SendCommand taxonomy cmd c = Returns (resp, None) c' ->
  exists k body rest,
    conn c = Some k /\ resp = [body] /\
    incoming k = body ++ str1 lf ++ rest /\
    serverError taxonomy [body] = None /\
    c' = setConn c (Some (afterExchange k cmd rest)).
Proof.
  intros L H. apply SendCommandWithContext_ok in H as (k & rest & Hk & R & S & ->).
  unfold responseTo in R. rewrite L in R.
  apply readLoop_some in R as (lines & final & -> & I & ->).
  cbn [app wire] in *. rewrite str_app_empty_r, str_app_assoc in I.
  exists k, final, rest. auto.
Qed.

Lemma GetVersion_ok taxonomy c v c' :
  GetVersion taxonomy c = Returns (v, None) c' ->
  exists k rest,
    conn c = Some k /\ incoming k = v ++ str1 lf ++ rest /\
    serverError taxonomy [v] = None /\
    c' = {| Version := v; ProtocolVersion := ProtocolVersion c;
            conn := Some (afterExchange k "VER" rest); UseTLS := UseTLS c;
            metrics := metrics c |}.
Proof.
  unfold GetVersion, bind. intros H.
  destruct (SendCommand taxonomy "VER" c) as [[resp err] c1|] eqn:E; [|discriminate].
  destruct err as [e|]; [destruct resp; discriminate|].
  apply SendCommand_line_ok in E as (k & body & rest & Hk & -> & I & S & ->);
    [|reflexivity].
  unfold modify, ret in H. injection H as <- <-.
  exists k, rest. cbn. auto.
Qed.

Lemma GetNetworkProtocolVersion_ok taxonomy c v c' :
  GetNetworkProtocolVersion taxonomy c = Returns (v, None) c' ->
  exists k rest,
    conn c = Some k /\ incoming k = v ++ str1 lf ++ rest /\
    serverError taxonomy [v] = None /\
    c' = {| Version := Version c; ProtocolVersion := v;
            conn := Some (afterExchange k "NETVER" rest); UseTLS := UseTLS c;
            metrics := metrics c |}.
Proof.
  unfold GetNetworkProtocolVersion, bind. intros H.
  destruct (SendCommand taxonomy "NETVER" c) as [[resp err] c1|] eqn:E; [|discriminate].
  destruct err as [e|]; [destruct resp; discriminate|].
  apply SendCommand_line_ok in E as (k & body & rest & Hk & -> & I & S & ->);
    [|reflexivity].
  unfold modify, ret in H. injection H as <- <-.
  exists k, rest. cbn. auto.
Qed.

Lemma Connect_ok taxonomy options k client :
  ConnectWithOptionsAndConfig taxonomy options (inl k) = inl client ->
  exists v pv rest,
    incoming k = wire [v; pv] ++ rest /\
    serverError taxonomy [v] = None /\ serverError taxonomy [pv] = None /\
    client = {| Version := v; ProtocolVersion := pv;
                conn := Some (afterExchange (afterExchange k "VER" (wire [pv] ++ rest))
                                "NETVER" rest);
                UseTLS := UseTLS (configured options);
                metrics := metrics (configured options) |}.
Proof.
  unfold ConnectWithOptionsAndConfig. intros H. cbv zeta in H.
  fold (configured options) in H.
  destruct (GetVersion _ _) as [[v [e|]] c1|] eqn:V; try discriminate.
  destruct (GetNetworkProtocolVersion _ c1) as [[pv [e|]] c2|] eqn:P; try discriminate.
  injection H as <-.
  apply GetVersion_ok in V as (k1 & rest1 & Hk1 & I1 & S1 & ->).
  unfold setConn in Hk1. cbn [conn] in Hk1. injection Hk1 as <-.
  apply GetNetworkProtocolVersion_ok in P as (k2 & rest2 & Hk2 & I2 & S2 & ->).
  cbn [conn] in Hk2. injection Hk2 as <-. cbn [afterExchange incoming] in I2. subst rest1.
  exists v, pv, rest2. cbn [wire]. rewrite !str_app_assoc, I1.
  unfold setConn.
  cbn [Version ProtocolVersion UseTLS metrics]. cbn [String.append].
  repeat split; auto.
Qed.

(** X3: a connection attempt that returns a client never returns a
    half-initialised one: the dial succeeded, VER and NETVER went out
    in this order, the server answered them with two lines that are no
    error lines, and the client holds these as its version and its
    protocol version, whatever the options wrote there. Its TLS flag
    and its metrics are those that the options left; when no options
    are passed, as [Connect] and [ConnectWithOptions] do, TLS is off and
    all counters are zero. *)
Theorem Connect_initialised taxonomy options dial client :
  ConnectWithOptionsAndConfig taxonomy options dial = inl client ->
  exists k v pv rest,
    dial = inl k /\
    incoming k = wire [v; pv] ++ rest /\
    serverError taxonomy [v] = None /\ serverError taxonomy [pv] = None /\
    sent (setConn client (Some k)) client ["VER"; "NETVER"] /\
    client = {| Version := v; ProtocolVersion := pv;
                conn := Some (afterExchange (afterExchange k "VER" (wire [pv] ++ rest))
                                "NETVER" rest);
                UseTLS := UseTLS (configured options);
                metrics := metrics (configured options) |} /\
    (forall plain,
       Connect taxonomy dial = inl plain \/ ConnectWithOptions taxonomy dial = inl plain ->
       UseTLS plain = false /\ metrics plain = Some zeroMetrics).
Proof.
  intros H. destruct dial as [k|e]; [|unfold ConnectWithOptionsAndConfig in H; discriminate].
  destruct (Connect_ok _ _ _ _ H) as (v & pv & rest & I & S1 & S2 & ->).
  exists k, v, pv, rest.
  split; [reflexivity|]. split; [exact I|]. split; [exact S1|]. split; [exact S2|].
  split; [|split; [reflexivity|]].
  - eexists k, _. cbn [conn setConn]. repeat split.
    cbn [afterExchange outgoing wire]. now rewrite !str_app_assoc, str_app_empty_r.
  - intros plain P.
    assert (P' : ConnectWithOptionsAndConfig taxonomy [] (inl k) = inl plain)
      by (destruct P as [P|P]; exact P).
    destruct (Connect_ok _ _ _ _ P') as (v' & pv' & rest' & _ & _ & _ & ->).
    split; reflexivity.
Qed.

Lemma Connect_initialised_witness :
  exists v pv rest client,
    ConnectWithOptionsAndConfig [] [withUseTLS] helloDial = inl client /\
    wire ["Network UPS Tools upsd 2.8.0"; "1.3"] = wire [v; pv] ++ rest /\
    Version client = v /\ ProtocolVersion client = pv /\ UseTLS client = true /\
    forall plain, Connect [] helloDial = inl plain -> UseTLS plain = false.
Proof.
  destruct (ConnectWithOptionsAndConfig [] [withUseTLS] helloDial) as [client|e] eqn:E;
    [|vm_compute in E; discriminate].
  destruct (Connect_initialised [] _ _ client E)
    as (k & v & pv & rest & D & I & _ & _ & _ & C & P).
  injection D as <-. exists v, pv, rest, client. subst client.
  repeat split; auto. intros plain H. exact (proj1 (P plain (or_introl H))).
Defined.

(** ** The counters of [sendCommandUnsafe] *)

Lemma countReceived_others resp m :
  CommandsSent (countReceived resp m) = CommandsSent m /\
  CommandsFailed (countReceived resp m) = CommandsFailed m /\
  BytesSent (countReceived resp m) = BytesSent m /\
  Reconnects (countReceived resp m) = Reconnects m.
Proof.
  unfold countReceived. revert m. induction resp as [|l resp IH]; intros m; [auto|].
  cbn [fold_left]. destruct (IH (addBytesReceived (Z.of_nat (String.length l + 1)) m))
    as (-> & -> & -> & ->). auto.
Qed.

Lemma GetMetrics_some (c : Client) (m : ClientMetrics) :
  metrics c = Some m -> GetMetrics c = m.
Proof. unfold GetMetrics. intros ->. now destruct m. Qed.

Lemma sendCommandUnsafe_counts taxonomy cmd c k m :
  conn c = Some k -> metrics c = Some m ->
  exists resp err c' m',
    sendCommandUnsafe taxonomy cmd c = Returns (resp, err) c' /\
    metrics c' = Some m' /\
    CommandsFailed m'
    = match err with
      | Some _ => add64 (CommandsFailed m) 1
      | None => CommandsFailed m
      end /\
    CommandsSent m'
    = (if hd false (wfail k) then CommandsSent m else add64 (CommandsSent m) 1) /\
    BytesSent m'
    = (if hd false (wfail k) then BytesSent m
       else add64 (BytesSent m) (Z.of_nat (String.length cmd + 1))) /\
    Reconnects m' = Reconnects m /\
    (err = None ->
     BytesReceived m'
     = fold_left (fun n line => add64 n (Z.of_nat (String.length line + 1)))
         resp (BytesReceived m)) /\
    (err <> None -> resp = []).
Proof.
  intros Hk Hm. unfold sendCommandUnsafe.
  destruct c as [ver pv cn tls mt]. cbn [conn metrics] in Hk, Hm. subst cn mt.
  run_do. destruct (hd false (wfail k)) eqn:W; red_do.
  { do 4 eexists. split; [reflexivity|]. cbn. repeat split; auto. }
  destruct (hd false (dfail k)) eqn:D; red_do.
  { do 4 eexists. split; [reflexivity|]. cbn.
    rewrite str_length_app. cbn [String.length str1]. repeat split; auto; try discriminate. }
  destruct (readLoop _ _ _ (incoming k) []) as [[lines|] rest] eqn:R; red_do.
  - fold (countReceived lines (addBytesSent (Z.of_nat (String.length (cmd ++ str1 lf)))
                                 (addCommandsSent 1 m))).
    set (m1 := addBytesSent _ _).
    destruct (countReceived_others lines m1) as (E1 & E2 & E3 & E4).
    pose proof (countReceived_BytesReceived lines m1) as E5.
    destruct (serverError taxonomy lines) eqn:S; red_do;
      do 4 eexists; (split; [reflexivity|]); (split; [reflexivity|]); cbn;
      rewrite ?E1, ?E2, ?E3, ?E4, ?E5; unfold m1; cbn;
      rewrite str_length_app; cbn [String.length str1]; repeat split; auto;
      try discriminate; try congruence.
  - do 4 eexists. split; [reflexivity|]. cbn.
    rewrite str_length_app. cbn [String.length str1]. repeat split; auto; try discriminate.
Qed.

(** X4: the counters that [GetMetrics] reports after [sendCommandUnsafe]
    on a connected client that has metrics. The call returns.
    CommandsFailed grows by one (modulo 2^64) exactly when an error is
    returned; CommandsSent grows by one and BytesSent by the length of
    the command plus one exactly when the write went through;
    Reconnects is unchanged; without an error BytesReceived grows by the
    length plus one of every line returned; with an error no line is
    returned. *)
Theorem sendCommandUnsafe_counters taxonomy cmd c k m :
  conn c = Some k -> metrics c = Some m ->
  exists resp err c',
    sendCommandUnsafe taxonomy cmd c = Returns (resp, err) c' /\
    CommandsFailed (GetMetrics c')
    = match err with
      | Some _ => add64 (CommandsFailed m) 1
      | None => CommandsFailed m
      end /\
    CommandsSent (GetMetrics c')
    = (if hd false (wfail k) then CommandsSent m else add64 (CommandsSent m) 1) /\
    BytesSent (GetMetrics c')
    = (if hd false (wfail k) then BytesSent m
       else add64 (BytesSent m) (Z.of_nat (String.length cmd + 1))) /\
    Reconnects (GetMetrics c') = Reconnects m /\
    (err = None ->
     BytesReceived (GetMetrics c')
     = fold_left (fun n line => add64 n (Z.of_nat (String.length line + 1)))
         resp (BytesReceived m)) /\
    (err <> None -> resp = []).
Proof.
  intros Hk Hm.
  destruct (sendCommandUnsafe_counts taxonomy cmd c k m Hk Hm)
    as (resp & err & c' & m' & E & M & H).
  exists resp, err, c'. rewrite (GetMetrics_some _ _ M). auto.
Qed.

Lemma sendCommandUnsafe_counters_witness :
  exists resp err c',
    sendCommandUnsafe sampleTaxonomy "LOGIN ups" (clientOn ["ERR ACCESS-DENIED"])
      = Returns (resp, err) c' /\
    CommandsFailed (GetMetrics c') = 1%Z /\ CommandsSent (GetMetrics c') = 1%Z /\
    BytesSent (GetMetrics c') = 10%Z.
Proof.
  destruct (sendCommandUnsafe_counters sampleTaxonomy "LOGIN ups"
              (clientOn ["ERR ACCESS-DENIED"]) _ _ eq_refl eq_refl)
    as (resp & err & c' & E & F & S & B & _).
  exists resp, err, c'. split; [exact E|].
  assert (Q : err <> None).
  { intros ->. vm_compute in E. discriminate. }
  destruct err as [e|]; [|contradiction]. cbn in F, S, B. auto.
Defined.

(** ** Closing a session *)

Lemma sendCommandUnsafe_returns taxonomy cmd c k :
  conn c = Some k ->
  exists r c' k',
    sendCommandUnsafe taxonomy cmd c = Returns r c' /\
    conn c' = Some k' /\ closeFails k' = closeFails k.
Proof.
  intros Hk. unfold sendCommandUnsafe.
  destruct c as [ver pv cn tls mt]. cbn [conn] in Hk. subst cn.
  destruct mt as [m|]; run_do;
    (destruct (hd false (wfail k)); red_do; [do 3 eexists; split; [reflexivity|]; cbn; auto|]);
    (destruct (hd false (dfail k)); red_do; [do 3 eexists; split; [reflexivity|]; cbn; auto|]);
    destruct (readLoop _ _ _ (incoming k) []) as [[lines|] rest]; red_do;
    try destruct (serverError taxonomy lines); red_do;
    do 3 eexists; (split; [reflexivity|]); cbn; auto.
Qed.

(** The lines that [sendCommandUnsafe] returns are the response that
    was read. *)
Lemma sendCommandUnsafe_lines taxonomy cmd c k first more err c' :
  conn c = Some k ->
  sendCommandUnsafe taxonomy cmd c = Returns (first :: more, err) c' ->
  exists rest, responseTo cmd k = (Some (first :: more), rest).
Proof.
  intros Hk. unfold sendCommandUnsafe.
  destruct c as [ver pv cn tls mt]. cbn [conn] in Hk. subst cn. fold (isList cmd).
  unfold responseTo.
  destruct mt as [m|]; run_do;
    (destruct (hd false (wfail k)); red_do; [discriminate|]);
    (destruct (hd false (dfail k)); red_do; [discriminate|]);
    destruct (readLoop _ _ _ (incoming k) []) as [[lines|] rest]; red_do;
    try discriminate;
    (destruct (serverError taxonomy lines); red_do; [discriminate|]);
    intros H; injection H as <- _; now exists rest.
Qed.

(** X5: [Disconnect] on a connected client always returns and always
    leaves the connection nil, whatever became of LOGOUT. Its error is
    the error of closing the connection, if any. It answers true only
    if closing succeeded and the line that the server sent was OK
    Goodbye or Goodbye followed by three points. A second [Disconnect]
    reports that the connection is already closed. *)
Theorem Disconnect_always_closes taxonomy c k :
  conn c = Some k ->
  exists ok c',
    Disconnect taxonomy c
    = Returns (ok, if closeFails k then Some (ErrNet NetFailure) else None) c' /\
    conn c' = None /\
    (ok = true ->
     closeFails k = false /\
     exists body rest,
       incoming k = body ++ str1 lf ++ rest /\
       (body = "OK Goodbye" \/ body = "Goodbye...")) /\
    Disconnect taxonomy c' = Returns (false, Some (ErrNew "connection already closed")) c'.
Proof.
  intros Hk. unfold Disconnect at 1. rewrite Hk. unfold bind.
  destruct (sendCommandUnsafe_returns taxonomy "LOGOUT" c k Hk)
    as ([resp err] & c1 & k1 & E & Hk1 & Hf).
  rewrite E, Hk1, Hf. cbn [fst].
  assert (D2 : Disconnect taxonomy (setConn c1 None)
               = Returns (false, Some (ErrNew "connection already closed"))
                   (setConn c1 None)) by reflexivity.
  destruct (closeFails k) eqn:F.
  { exists false, (setConn c1 None). repeat split; auto; discriminate. }
  destruct resp as [|first more].
  { exists false, (setConn c1 None). repeat split; auto; discriminate. }
  destruct (String.eqb first "OK Goodbye" || String.eqb first "Goodbye...") eqn:G.
  - exists true, (setConn c1 None). repeat split; auto.
    destruct (sendCommandUnsafe_lines _ _ _ _ _ _ _ _ Hk E) as [rest R].
    unfold responseTo in R. change (isList "LOGOUT") with false in R.
    apply readLoop_some in R as (lines & final & L & I & ->).
    cbn [app wire] in *. injection L as -> ->.
    rewrite str_app_empty_r, str_app_assoc in I.
    exists final, rest. split; [exact I|].
    apply orb_true_iff in G as [G|G]; apply String.eqb_eq in G; auto.
  - exists false, (setConn c1 None). repeat split; auto; try discriminate.
Qed.

Lemma Disconnect_always_closes_witness :
  exists c',
    Disconnect [] (clientOn ["OK Goodbye"]) = Returns (true, None) c' /\ conn c' = None.
Proof.
  destruct (Disconnect_always_closes [] (clientOn ["OK Goodbye"]) _ eq_refl)
    as (ok & c' & D & C & _).
  exists c'. split; [|exact C].
  assert (O : ok = true).
  { destruct ok; [reflexivity|]. vm_compute in D. discriminate. }
  subst ok. exact D.
Defined.

(** X6: after [Close] the connection of a client is nil. From then on
    [Close] and [Disconnect] report that the connection is already
    closed and leave the client as it is, [SendCommand] panics, since
    it writes to the nil connection, and [SendCommandWithContext] with
    a context that is done returns the error of the context without
    touching the connection. *)
Theorem closed_session_calls taxonomy c :
  let c' := snd (ClientClose c) in
  conn c' = None /\
  ClientClose c' = (Some (ErrNew "connection already closed"), c') /\
  Disconnect taxonomy c'
  = Returns (false, Some (ErrNew "connection already closed")) c' /\
  (forall cmd, SendCommand taxonomy cmd c' = Panics) /\
  (forall ctx e cmd,
     doneAtStart ctx = Some e ->
     SendCommandWithContext taxonomy ctx cmd c' = Returns ([], Some (ErrCtx e)) c').
Proof.
  cbn zeta. assert (N : conn (snd (ClientClose c)) = None).
  { unfold ClientClose. destruct (conn c) eqn:E; cbn; auto. }
  set (c' := snd (ClientClose c)) in *. clearbody c'.
  split; [exact N|]. split; [unfold ClientClose; now rewrite N|].
  split; [unfold Disconnect; now rewrite N|]. split.
  - intros cmd. unfold SendCommand, SendCommandWithContext.
    cbn [Background doneAtStart]. run_do. now rewrite N.
  - intros ctx e cmd H. unfold SendCommandWithContext. now rewrite H.
Qed.

(** ** Authentication *)

(** X7: [Authenticate] answers true only if the server answered the line
    OK to the USERNAME command and the line OK to the PASSWORD command,
    which went out in this order and carry the credentials as given;
    and for these two answers it does answer true, when no write and no
    deadline fails. *)
Theorem Authenticate_both_OK taxonomy username password c :
  (forall c',
     Authenticate taxonomy username password c = Returns (true, None) c' ->
     exists k rest,
       conn c = Some k /\
       incoming k = wire ["OK"; "OK"] ++ rest /\
       c' = setConn c (Some (afterExchange
                               (afterExchange k ("USERNAME " ++ username)
                                  (wire ["OK"] ++ rest))
                               ("PASSWORD " ++ password) rest))) /\
  (forall k rest,
     conn c = Some k -> wfail k = [] -> dfail k = [] ->
     incoming k = wire ["OK"; "OK"] ++ rest ->
     exists c', Authenticate taxonomy username password c = Returns (true, None) c' /\
                option_map outgoing (conn c')
                = Some (outgoing k ++ wire ["USERNAME " ++ username;
                                            "PASSWORD " ++ password])).
Proof.
  split.
  - intros c' H. unfold Authenticate, bind in H.
    destruct (SendCommand taxonomy ("USERNAME " ++ username) c)
      as [[ur [e|]] c1|] eqn:U; try discriminate.
    destruct (SendCommand taxonomy ("PASSWORD " ++ password) c1)
      as [[pr [e|]] c2|] eqn:P; try discriminate.
    apply SendCommand_line_ok in U as (k & ub & rest1 & Hk & -> & I1 & _ & ->);
      [|(apply isList_head; [reflexivity | discriminate])].
    apply SendCommand_line_ok in P as (k2 & pb & rest2 & Hk2 & -> & I2 & _ & ->);
      [|(apply isList_head; [reflexivity | discriminate])].
    cbn [conn setConn] in Hk2. injection Hk2 as <-.
    cbn [afterExchange incoming] in I2. unfold ret in H. injection H as H <-.
    apply andb_true_iff in H as [H1 H2].
    apply String.eqb_eq in H1, H2. subst ub pb rest1.
    exists k, rest2. cbn [wire]. rewrite !str_app_assoc. cbn [String.append] in *.
    repeat split; auto.
  - intros k rest Hk W D I. unfold Authenticate, bind.
    rewrite (SendCommand_one_line taxonomy _ c k "OK" (wire ["OK"] ++ rest) Hk);
      [| now rewrite W | now rewrite D | (apply isList_head; [reflexivity | discriminate]) | reflexivity
       | rewrite I; cbn [wire]; now rewrite !str_app_assoc ].
    change (serverError taxonomy ["OK"]) with (@None error). cbv iota beta.
    rewrite (SendCommand_one_line taxonomy _ (setConn c (Some _)) _ "OK" rest
               eq_refl);
      [| cbn; now rewrite W | cbn; now rewrite D | (apply isList_head; [reflexivity | discriminate]) | reflexivity
       | cbn [afterExchange incoming wire]; now rewrite str_app_empty_r ].
    change (serverError taxonomy ["OK"]) with (@None error). cbv iota beta.
    eexists. split; [reflexivity|]. cbn [conn setConn option_map afterExchange outgoing wire].
    now rewrite !str_app_assoc, str_app_empty_r.
Qed.

Lemma Authenticate_both_OK_witness :
  exists c',
    Authenticate [] "monuser" "secret" (clientOn ["OK"; "OK"]) = Returns (true, None) c' /\
    option_map outgoing (conn c')
    = Some (wire ["USERNAME monuser"; "PASSWORD secret"]).
Proof.
  exact (proj2 (Authenticate_both_OK [] "monuser" "secret" (clientOn ["OK"; "OK"]))
           _ EmptyString eq_refl eq_refl eq_refl eq_refl).
Defined.

(** ** STARTTLS *)

(** X8: [StartTLS] on a client that is in TLS mode fails without sending
    anything. Whenever it returns an error the TLS flag is as before.
    It returns no error only if TLS was off, the server answered
    exactly OK STARTTLS and the handshake on the connection succeeded;
    the flag is set then and the connection is the one that the
    handshake made. *)
Theorem StartTLS_upgrades_or_keeps taxonomy handshake c err c' :
  StartTLS taxonomy handshake c = Returns err c' ->
  (UseTLS c = true -> err = Some (ErrNew "already in TLS mode") /\ c' = c) /\
  (err <> None -> UseTLS c' = UseTLS c) /\
  (err = None ->
   UseTLS c = false /\ UseTLS c' = true /\
   exists k rest tlsConn,
     conn c = Some k /\
     incoming k = wire ["OK STARTTLS"] ++ rest /\
     handshake (afterExchange k "STARTTLS" rest) = inl tlsConn /\
     conn c' = Some tlsConn).
Proof.
  unfold StartTLS. intros H. destruct (UseTLS c) eqn:T.
  { injection H as <- <-. repeat split; auto; discriminate. }
  split; [discriminate|]. unfold bind in H.
  destruct (SendCommand taxonomy "STARTTLS" c) as [[resp [e|]] c1|] eqn:S;
    try discriminate.
  { assert (U : UseTLS c1 = UseTLS c).
    { rewrite (SendCommandWithContext_frame _ _ _ _ _ _ S). reflexivity. }
    destruct resp; injection H as <- <-; (split; [intros _; congruence | discriminate]). }
  apply SendCommand_line_ok in S as (k & body & rest & Hk & -> & I & _ & ->);
    [|reflexivity].
  destruct (String.eqb_spec body "OK STARTTLS") as [->|N]; cbn [negb] in H.
  - cbn [conn setConn] in H.
    destruct (handshake (afterExchange k "STARTTLS" rest)) as [tlsConn|e] eqn:Hs.
    + injection H as <- <-. cbn [UseTLS conn]. split; [congruence|]. intros _.
      repeat split; auto. exists k, rest, tlsConn. cbn [wire].
      rewrite str_app_assoc. cbn [String.append] in *. auto.
    + injection H as <- <-. cbn [UseTLS setConn]. split; [auto|discriminate].
  - unfold ret in H. injection H as <- <-. cbn [UseTLS setConn].
    split; [auto|discriminate].
Qed.

Lemma StartTLS_upgrades_or_keeps_witness :
  exists c',
    StartTLS [] (fun k => inl k) (clientOn ["OK STARTTLS"]) = Returns None c' /\
    UseTLS c' = true.
Proof.
  destruct (StartTLS [] (fun k => inl k) (clientOn ["OK STARTTLS"])) as [err c'|] eqn:E;
    [|vm_compute in E; discriminate].
  assert (N : err = None) by (vm_compute in E; congruence).
  destruct (StartTLS_upgrades_or_keeps [] _ _ err c' E) as (_ & _ & H).
  subst err. exists c'. split; [reflexivity|]. exact (proj1 (proj2 (H eq_refl))).
Defined.

(** ** Descriptions *)

Lemma substByte_absent (c : ascii) (new s : string) :
  mem c s = false -> substByte c new s = s.
Proof.
  induction s as [|x s IH]; intros H; [reflexivity|].
  cbn [mem] in H. apply orb_false_iff in H as [H1 H2].
  cbn [substByte]. rewrite Ascii.eqb_sym, H1. now rewrite (IH H2).
Qed.

Lemma substByte_removes (c : ascii) (s : string) :
  mem c (substByte c EmptyString s) = false.
Proof.
  induction s as [|x s IH]; [reflexivity|].
  cbn [substByte]. destruct (Ascii.eqb x c) eqn:E; [exact IH|].
  cbn [mem]. now rewrite Ascii.eqb_sym, E, IH.
Qed.

Lemma mem_drop (c : ascii) (n : nat) (s : string) :
  mem c s = false -> mem c (drop n s) = false.
Proof.
  revert s. induction n as [|n IH]; intros [|x s] H; cbn [drop]; auto.
  cbn [mem] in H. apply orb_false_iff in H as [_ H]. auto.
Qed.

Lemma mem_TrimPrefix (c : ascii) (s p : string) :
  mem c s = false -> mem c (TrimPrefix s p) = false.
Proof. intros H. unfold TrimPrefix. destruct (HasPrefix s p); auto using mem_drop. Qed.

Lemma ReplaceAll_dq_removes (s : string) :
  mem dquote (ReplaceAll s dq EmptyString) = false.
Proof. unfold dq. rewrite ReplaceAll_byte. apply substByte_removes. Qed.

Lemma unquoted_line (p d : string) :
  mem dquote d = false ->
  ReplaceAll (TrimPrefix (p ++ dq ++ d ++ dq) p) dq EmptyString = d.
Proof.
  intros H. rewrite TrimPrefix_app. unfold dq at 3. rewrite ReplaceAll_byte.
  rewrite !substByte_app, (substByte_absent _ _ _ H). cbn.
  now rewrite str_app_empty_r.
Qed.

Lemma mem_app (c : ascii) (s t : string) : mem c (s ++ t) = mem c s || mem c t.
Proof.
  induction s as [|x s IH]; [reflexivity|].
  cbn [String.append mem]. now rewrite IH, orb_assoc.
Qed.

Lemma unquoted_whole (p d : string) :
  mem dquote p = false -> mem dquote d = false ->
  TrimPrefix (ReplaceAll (p ++ dq ++ d ++ dq) dq EmptyString) p = d.
Proof.
  intros Hp Hd. unfold dq at 3. rewrite ReplaceAll_byte.
  rewrite !substByte_app, (substByte_absent _ _ _ Hd), (substByte_absent _ _ _ Hp).
  cbn [substByte dq str1 Ascii.eqb Bool.eqb dquote]. cbn [String.append].
  rewrite str_app_empty_r. apply TrimPrefix_app.
Qed.

(** X9: a description that [GetDescription], [GetVariableDescription] or
    [GetCommandDescription] returns holds no double quote: every double
    quote of the response line is removed, not only the pair around
    the description. [GetDescription] stores what it returns in the
    UPS. *)
Theorem descriptions_hold_no_quote taxonomy u name c :
  (forall d u' c',
     GetDescription taxonomy u c = Returns (d, None, u') c' ->
     mem dquote d = false /\ u' = setDescription u d) /\
  (forall d c',
     GetVariableDescription taxonomy u name c = Returns (d, None) c' ->
     mem dquote d = false) /\
  (forall d c',
     GetCommandDescription taxonomy u name c = Returns (d, None) c' ->
     mem dquote d = false).
Proof.
  split; [|split].
  - intros d u' c'. unfold GetDescription, bind, ret.
    destruct (SendCommand _ _ c) as [[[|first more] [e|]] c1|]; try discriminate.
    intros H. injection H as <- <- <-. split; [|reflexivity].
    apply mem_TrimPrefix. exact (ReplaceAll_dq_removes first).
  - intros d c'. unfold GetVariableDescription, bind, ret.
    destruct (SendCommand _ _ c) as [[[|first more] [e|]] c1|]; try discriminate.
    intros H. injection H as <- <-. apply ReplaceAll_dq_removes.
  - intros d c'. unfold GetCommandDescription, bind, ret.
    destruct (SendCommand _ _ c) as [[[|first more] [e|]] c1|]; try discriminate.
    intros H. injection H as <- <-. apply ReplaceAll_dq_removes.
Qed.

Lemma descriptions_hold_no_quote_witness :
  exists d c',
    GetVariableDescription [] sampleUPS "ups.model"
      (clientOn ["DESC ups ups.model " ++ dq ++ "The " ++ bs ++ dq ++ "model" ++ bs
                 ++ dq ++ dq])
    = Returns (d, None) c' /\
    d = "The " ++ bs ++ "model" ++ bs /\ mem dquote d = false.
Proof.
  set (c := clientOn _).
  destruct (GetVariableDescription [] sampleUPS "ups.model" c) as [[d [e|]] c'|] eqn:E;
    try (vm_compute in E; discriminate).
  exists d, c'. split; [reflexivity|]. split.
  - vm_compute in E. now injection E as <- _.
  - exact (proj1 (proj2 (descriptions_hold_no_quote [] sampleUPS "ups.model" c)) d c' E).
Defined.

(** X10: for a description without double quotes that the server sends
    between double quotes after the echo of the request, the three
    description queries return the description itself. For
    [GetDescription], which removes the quotes before it trims the
    echo, the name of the UPS must not hold a double quote either. *)
Theorem descriptions_unquoted taxonomy u name desc more c c' :
  mem dquote desc = false ->
  (mem dquote (UPSName u) = false ->
   SendCommand taxonomy ("GET UPSDESC " ++ quoteName (UPSName u)) c
   = Returns (("UPSDESC " ++ UPSName u ++ " " ++ dq ++ desc ++ dq) :: more, None) c' ->
   GetDescription taxonomy u c = Returns (desc, None, setDescription u desc) c') /\
  (SendCommand taxonomy
     ("GET DESC " ++ quoteName (UPSName u) ++ " " ++ quoteName name) c
   = Returns (("DESC " ++ UPSName u ++ " " ++ name ++ " " ++ dq ++ desc ++ dq) :: more,
              None) c' ->
   GetVariableDescription taxonomy u name c = Returns (desc, None) c') /\
  (SendCommand taxonomy
     ("GET CMDDESC " ++ quoteName (UPSName u) ++ " " ++ quoteName name) c
   = Returns (("CMDDESC " ++ UPSName u ++ " " ++ name ++ " " ++ dq ++ desc ++ dq) :: more,
              None) c' ->
   GetCommandDescription taxonomy u name c = Returns (desc, None) c').
Proof.
  intros Hd. split; [|split].
  - intros Hn S. unfold GetDescription, bind. rewrite S. cbv iota beta.
    replace ("UPSDESC " ++ UPSName u ++ " " ++ dq ++ desc ++ dq)
      with (("UPSDESC " ++ UPSName u ++ " ") ++ dq ++ desc ++ dq)
      by (now rewrite !str_app_assoc).
    rewrite unquoted_whole; [reflexivity| |exact Hd].
    change ("UPSDESC " ++ UPSName u ++ " ") with ("UPSDESC " ++ (UPSName u ++ " ")).
    now rewrite !mem_app, Hn.
  - intros S. unfold GetVariableDescription, bind. rewrite S. cbv iota beta.
    replace ("DESC " ++ UPSName u ++ " " ++ name ++ " " ++ dq ++ desc ++ dq)
      with (("DESC " ++ UPSName u ++ " " ++ name ++ " ") ++ dq ++ desc ++ dq)
      by (now rewrite !str_app_assoc).
    now rewrite (unquoted_line _ _ Hd).
  - intros S. unfold GetCommandDescription, bind. rewrite S. cbv iota beta.
    replace ("CMDDESC " ++ UPSName u ++ " " ++ name ++ " " ++ dq ++ desc ++ dq)
      with (("CMDDESC " ++ UPSName u ++ " " ++ name ++ " ") ++ dq ++ desc ++ dq)
      by (now rewrite !str_app_assoc).
    now rewrite (unquoted_line _ _ Hd).
Qed.

Lemma descriptions_unquoted_witness :
  exists c',
    GetVariableDescription [] sampleUPS "battery.charge"
      (clientOn ["DESC ups battery.charge " ++ dq ++ "Battery charge (percent)" ++ dq])
    = Returns ("Battery charge (percent)", None) c'.
Proof.
  set (c := clientOn _).
  destruct (SendCommand [] ("GET DESC " ++ quoteName (UPSName sampleUPS) ++ " "
                            ++ quoteName "battery.charge") c)
    as [[resp err] c'|] eqn:E; [|vm_compute in E; discriminate].
  assert (R : resp = ["DESC ups battery.charge " ++ dq ++ "Battery charge (percent)" ++ dq]
              /\ err = None) by (vm_compute in E |- *; split; congruence).
  destruct R as [-> ->]. exists c'.
  exact (proj1 (proj2 (descriptions_unquoted [] sampleUPS "battery.charge"
                         "Battery charge (percent)" [] c c' eq_refl)) E).
Defined.

(** ** The list of the devices *)

Lemma SendCommand_total taxonomy cmd c :
  conn c <> None ->
  exists r c', SendCommand taxonomy cmd c = Returns r c' /\ conn c' <> None.
Proof.
  intros H. destruct (SendCommandWithContext_returns taxonomy Background cmd c H)
    as (r & c' & E).
  exists r, c'. split; [exact E|]. eapply SendCommandWithContext_conn; eauto.
Qed.

Lemma GetDescription_total taxonomy u c :
  conn c <> None ->
  exists d e u' c',
    GetDescription taxonomy u c = Returns (d, e, u') c' /\ conn c' <> None /\
    (u' = u \/ u' = setDescription u d).
Proof.
  intros H. unfold GetDescription, bind, ret.
  destruct (SendCommand_total taxonomy ("GET UPSDESC " ++ quoteName (UPSName u)) c H)
    as ([resp err] & c' & -> & C).
  destruct resp as [|first more], err as [e|]; do 4 eexists; (split; [reflexivity|]); (split; [exact C|]); auto.
Qed.

Lemma GetNumberOfLogins_total taxonomy u c :
  conn c <> None ->
  exists n e u' c',
    GetNumberOfLogins taxonomy u c = Returns (n, e, u') c' /\ conn c' <> None /\
    (u' = u \/ u' = setNumberOfLogins u n).
Proof.
  intros H. unfold GetNumberOfLogins, bind, ret.
  destruct (SendCommand_total taxonomy ("GET NUMLOGINS " ++ quoteName (UPSName u)) c H)
    as ([resp err] & c' & -> & C).
  destruct resp as [|first more], err as [e|]; try destruct (Atoi _); do 4 eexists; (split; [reflexivity|]); (split; [exact C|]); auto.
Qed.

Lemma NewUPS_total taxonomy name c :
  conn c <> None ->
  exists u c',
    NewUPS taxonomy name c = Returns (u, None) c' /\ conn c' <> None /\
    UPSName u = name /\ Master u = false /\
    Clients u = [] /\ Variables u = [] /\ Commands u = [].
Proof.
  intros H. unfold NewUPS, bind, ret.
  set (u0 := {| UPSName := name |}).
  destruct (GetDescription_total taxonomy u0 c H) as (d & e & u1 & c1 & -> & C1 & U1).
  cbn [snd].
  destruct (GetNumberOfLogins_total taxonomy u1 c1 C1) as (n & e' & u2 & c2 & -> & C2 & U2).
  cbn [snd]. exists u2, c2. split; [reflexivity|]. split; [exact C2|].
  destruct U1 as [-> | ->], U2 as [-> | ->]; cbn; auto.
Qed.

(** X11: [NewUPS] on a connected client always returns a UPS and no error,
    whatever the server answers: the UPS bears the name given, is no
    master and has empty lists of clients, variables and commands. When
    both of its queries fail, the description is empty and the number
    of logins is 0. *)
Theorem NewUPS_never_fails taxonomy name c :
  conn c <> None ->
  exists u c',
    NewUPS taxonomy name c = Returns (u, None) c' /\ conn c' <> None /\
    UPSName u = name /\ Master u = false /\
    Clients u = [] /\ Variables u = [] /\ Commands u = [] /\
    (forall e1 e2 c1 c2,
       SendCommand taxonomy ("GET UPSDESC " ++ quoteName name) c
         = Returns ([], Some e1) c1 ->
       SendCommand taxonomy ("GET NUMLOGINS " ++ quoteName name) c1
         = Returns ([], Some e2) c2 ->
       UPSDescription u = EmptyString /\ NumberOfLogins u = 0%Z /\ c' = c2).
Proof.
  intros H.
  destruct (NewUPS_total taxonomy name c H) as (u & c' & E & C & N & M & L & V & K).
  exists u, c'. repeat (split; [assumption|]).
  intros e1 e2 c1 c2 S1 S2. unfold NewUPS, bind, ret in E.
  unfold GetDescription at 1 in E. unfold bind, ret in E.
  cbn [UPSName] in E. rewrite S1 in E. cbn [snd] in E.
  unfold GetNumberOfLogins, bind, ret in E. cbn [UPSName] in E. rewrite S2 in E.
  cbn [snd] in E. injection E as <- <-. auto.
Qed.

Lemma NewUPS_never_fails_witness :
  exists u c',
    NewUPS sampleTaxonomy "ups" (clientOn ["ERR ACCESS-DENIED"; "ERR ACCESS-DENIED"])
    = Returns (u, None) c' /\
    UPSName u = "ups" /\ Variables u = [] /\ Commands u = [].
Proof.
  destruct (NewUPS_never_fails sampleTaxonomy "ups"
              (clientOn ["ERR ACCESS-DENIED"; "ERR ACCESS-DENIED"]))
    as (u & c' & E & _ & N & _ & _ & V & K & _); [discriminate|].
  exists u, c'. auto.
Defined.

Lemma upsLoop_names taxonomy lines :
  forall upsList c,
    conn c <> None ->
    exists more c',
      upsLoop taxonomy lines upsList c = Returns ((upsList ++ more)%list, None) c' /\
      conn c' <> None /\
      map UPSName more
      = map upsNameOf (List.filter (fun line => HasPrefix line "UPS ") lines).
Proof.
  induction lines as [|line rest IH]; intros upsList c H.
  - exists [], c. cbn. rewrite app_nil_r. auto.
  - cbn [upsLoop List.filter]. destruct (HasPrefix line "UPS ") eqn:P.
    + pose proof (Split_nonempty (TrimPrefix line "UPS ") dq) as L.
      destruct (Nat.ltb_spec (length (Split (TrimPrefix line "UPS ") dq)) 1) as [L'|_];
        [lia|].
      unfold bind.
      destruct (NewUPS_total taxonomy (upsNameOf line) c H)
        as (u & c1 & -> & C1 & N & _).
      destruct (IH (upsList ++ [u])%list c1 C1) as (more & c' & -> & C' & M).
      exists (u :: more), c'. rewrite <- app_assoc. cbn [app map].
      rewrite N, M. auto.
    + apply IH, H.
Qed.

(** X12: [GetUPSList] on a connected client always returns. It returns an
    error only if the LIST UPS command failed, and no UPS then.
    Otherwise it returns one UPS for every response line that starts
    with UPS and a space, in the order of the lines, named by the text
    between that prefix and the first double quote, without one
    trailing space; the other lines, the header and the sentinel among
    them, are passed over. *)
Theorem GetUPSList_names taxonomy c :
  conn c <> None ->
  exists upsList err c',
    GetUPSList taxonomy c = Returns (upsList, err) c' /\
    (forall e, err = Some e ->
       upsList = [] /\ SendCommand taxonomy "LIST UPS" c = Returns ([], Some e) c') /\
    (err = None ->
     exists resp c1,
       SendCommand taxonomy "LIST UPS" c = Returns (resp, None) c1 /\
       map UPSName upsList
       = map upsNameOf (List.filter (fun line => HasPrefix line "UPS ") resp)).
Proof.
  intros H. unfold GetUPSList, bind, ret.
  destruct (SendCommand_total taxonomy "LIST UPS" c H) as ([resp err] & c1 & E & C1).
  rewrite E. destruct err as [e|].
  - exists [], (Some e), c1. split; [reflexivity|]. split; [|discriminate].
    intros e' [= <-]. split; [reflexivity|].
    assert (R : resp = []); [|now subst].
    now apply (SendCommandWithContext_failed _ _ _ _ _ _ E).
  - destruct (upsLoop_names taxonomy resp [] c1 C1) as (more & c' & -> & C' & M).
    exists more, None, c'. split; [reflexivity|]. split; [discriminate|].
    intros _. exists resp, c1. auto.
Qed.

Lemma GetUPSList_names_witness :
  exists upsList c',
    GetUPSList []
      (clientOn ["BEGIN LIST UPS"; "UPS rack1 " ++ dq ++ "Rack 1" ++ dq;
                 "UPS rack2 " ++ dq ++ "Rack 2" ++ dq; "END LIST UPS";
                 "UPSDESC rack1 " ++ dq ++ "Rack 1" ++ dq; "NUMLOGINS rack1 0";
                 "UPSDESC rack2 " ++ dq ++ "Rack 2" ++ dq; "NUMLOGINS rack2 1"])
    = Returns (upsList, None) c' /\
    map UPSName upsList = ["rack1"; "rack2"].
Proof.
  set (c := clientOn _).
  destruct (GetUPSList_names [] c) as (upsList & err & c' & E & _ & N); [discriminate|].
  assert (Q : err = None).
  { destruct err; [|reflexivity]. vm_compute in E. discriminate. }
  subst err. exists upsList, c'. split; [exact E|].
  destruct (N eq_refl) as (resp & c1 & S & M). rewrite M.
  vm_compute in S. injection S as <- _. reflexivity.
Defined.

(** ** The exchanges of [GetVariables] *)

Lemma sent_nil (c : Client) : conn c <> None -> sent c c [].
Proof.
  destruct (conn c) as [k|] eqn:E; [|congruence]. intros _.
  exists k, k. cbn [wire]. now rewrite str_app_empty_r.
Qed.

Lemma sent_app (c1 c2 c3 : Client) (a b : list string) :
  sent c1 c2 a -> sent c2 c3 b -> sent c1 c3 (a ++ b).
Proof.
  intros (k1 & k2 & H1 & H2 & O1) (k2' & k3 & H2' & H3 & O2).
  rewrite H2 in H2'. injection H2' as <-.
  exists k1, k3. repeat split; auto. now rewrite O2, O1, wire_app, str_app_assoc.
Qed.

Lemma SendCommand_sent taxonomy cmd c resp c' :
  SendCommand taxonomy cmd c = Returns (resp, None) c' -> sent c c' [cmd].
Proof.
  intros H. apply SendCommandWithContext_ok in H as (k & rest & Hk & _ & _ & ->).
  exists k, (afterExchange k cmd rest). cbn [conn setConn afterExchange outgoing wire].
  now rewrite str_app_empty_r.
Qed.

Lemma GetVariableDescription_ok taxonomy u name c d c' :
  GetVariableDescription taxonomy u name c = Returns (d, None) c' ->
  exists resp, SendCommand taxonomy (getDescCommand u name) c = Returns (resp, None) c'.
Proof.
  unfold GetVariableDescription, bind, ret. fold (getDescCommand u name).
  destruct (SendCommand taxonomy (getDescCommand u name) c)
    as [[[|first more] [e|]] c1|]; try discriminate.
  intros H. injection H as _ <-. eauto.
Qed.

Lemma variablesLoop_order taxonomy u offset lines :
  forall vars0 c vars err c',
    conn c <> None ->
    variablesLoop taxonomy u offset lines vars0 c = Returns (vars, err) c' ->
    exists extra,
      vars = (vars0 ++ extra)%list /\
      (exists later, map fst (entries offset lines) = (map Name extra ++ later)%list /\
                     (err = None -> later = [])) /\
      (err = None -> sent c c' (variableQueries u (map Name extra))).
Proof.
  induction lines as [|line rest IH]; intros vars0 c vars err c' C H.
  - cbn in H. injection H as <- <- <-. exists []. rewrite app_nil_r.
    split; [reflexivity|]. split; [exists []; auto|]. intros _. now apply sent_nil.
  - cbn [variablesLoop entries] in *.
    destruct (entryOf offset line) as [[name raw]|] eqn:E; [|eauto].
    unfold bind in H.
    destruct (GetVariableDescription taxonomy u name c)
      as [[description [e|]] c2|] eqn:D; try discriminate.
    { injection H as <- <- <-. exists []. rewrite app_nil_r.
      split; [reflexivity|]. split; [|discriminate]. eexists. split; [reflexivity|].
      discriminate. }
    destruct (GetVariableDescription_ok _ _ _ _ _ _ D) as [r1 S1].
    pose proof (SendCommand_sent _ _ _ _ _ S1) as T1.
    assert (C2 : conn c2 <> None) by (destruct T1 as (? & ? & _ & -> & _); discriminate).
    destruct (GetVariableType taxonomy u name c2)
      as [[[[varType writeable] maximumLength] [e|]] c3|] eqn:T; try discriminate.
    { injection H as <- <- <-. exists []. rewrite app_nil_r.
      split; [reflexivity|]. split; [|discriminate]. eexists. split; [reflexivity|].
      discriminate. }
    destruct (GetVariableType_ok _ _ _ _ _ _ _ _ T) as (first & more & S2 & _).
    pose proof (SendCommand_sent _ _ _ _ _ S2) as T2.
    assert (C3 : conn c3 <> None) by (destruct T2 as (? & ? & _ & -> & _); discriminate).
    destruct (IH _ _ _ _ _ C3 H) as (extra & -> & (later & L1 & L2) & Q).
    set (v := inferValue _ raw varType).
    assert (N : Name v = name) by (subst v; now rewrite inferValue_Name).
    exists (v :: extra). rewrite <- app_assoc. split; [reflexivity|].
    cbn [map fst]. rewrite N. split.
    + exists later. cbn [app]. now rewrite L1.
    + intros He. cbn [variableQueries flat_map].
      change (getDescCommand u name :: getTypeCommand u name
              :: flat_map (fun name => [getDescCommand u name; getTypeCommand u name])
                   (map Name extra))%list
        with ([getDescCommand u name] ++ [getTypeCommand u name]
              ++ variableQueries u (map Name extra))%list.
      apply (sent_app c c2 c' [getDescCommand u name] _ T1).
      apply (sent_app c2 c3 c' [getTypeCommand u name] _ T2). auto.
Qed.

(** X13: when [GetVariables] returns an error, the UPS is as it was. When it
    returns no error, the variables are cached in the UPS, their names
    are those of the entry lines that hold a double quote, in the order
    of the listing, and exactly these commands went out, one per line:
    LIST VAR, then GET DESC and GET TYPE for each variable in turn. *)
Theorem GetVariables_in_listing_order taxonomy u c vars err u' c' :
  GetVariables taxonomy u c = Returns (vars, err, u') c' ->
  (err <> None -> u' = u) /\
  (err = None ->
   u' = setVariables u vars /\
   exists resp c1,
     SendCommand taxonomy (listVarCommand u) c = Returns (resp, None) c1 /\
     map Name vars = map fst (entries ("VAR " ++ UPSName u ++ " ") (middle resp)) /\
     sent c c' (listVarCommand u :: variableQueries u (map Name vars))).
Proof.
  unfold GetVariables, bind, ret. fold (listVarCommand u). intros H.
  destruct (SendCommand taxonomy (listVarCommand u) c) as [[resp [e|]] c1|] eqn:S;
    try discriminate.
  { injection H as <- <- <- <-. split; [reflexivity|discriminate]. }
  pose proof (SendCommand_sent _ _ _ _ _ S) as T0.
  assert (C1 : conn c1 <> None) by (destruct T0 as (? & ? & _ & -> & _); discriminate).
  destruct (Nat.ltb_spec (length resp) 2) as [L|L].
  { injection H as <- <- <- <-. split; [congruence|]. intros _. split; [reflexivity|].
    exists resp, c1. split; [reflexivity|].
    destruct resp as [|h [|h2 t]]; cbn in L; try lia; cbn; auto. }
  destruct (variablesLoop _ _ _ _ _ c1) as [[vs [e|]] c2|] eqn:V; try discriminate.
  { injection H as <- <- <- <-. split; [reflexivity|discriminate]. }
  injection H as <- <- <- <-. split; [congruence|]. intros _. split; [reflexivity|].
  destruct (variablesLoop_order _ _ _ _ _ _ _ _ _ C1 V)
    as (extra & -> & (later & L1 & L2) & Q).
  cbn [app]. exists resp, c1. split; [reflexivity|].
  rewrite L1, (L2 eq_refl), app_nil_r. split; [reflexivity|].
  change (listVarCommand u :: variableQueries u (map Name extra))
    with ([listVarCommand u] ++ variableQueries u (map Name extra))%list.
  apply (sent_app c c1 c2 [listVarCommand u] _ T0). auto.
Qed.

Lemma GetVariables_in_listing_order_witness :
  exists c',
    GetVariables [] sampleUPS (clientOn (listingOf "battery.charge" "100" "NUMBER"))
    = Returns ([chargeVariable], None, setVariables sampleUPS [chargeVariable]) c' /\
    sent (clientOn (listingOf "battery.charge" "100" "NUMBER")) c'
      ["LIST VAR ups"; "GET DESC ups battery.charge"; "GET TYPE ups battery.charge"].
Proof.
  destruct GetVariables_charge as [c' E]. exists c'. split; [exact E|].
  destruct (GetVariables_in_listing_order [] _ _ _ _ _ _ E) as [_ H].
  destruct (H eq_refl) as (_ & resp & c1 & _ & _ & S). exact S.
Defined.

(** ** The type tags of the variables *)

Lemma inferred_tags name raw description varType writeable maximumLength :
  let v := inferred name raw description varType writeable maximumLength in
  match Value v with
  | VBool _ => Type_ v = "BOOLEAN"
  | VInt _ => if String.eqb varType "INTEGER" then Type_ v = "STRING"
              else Type_ v = "INTEGER"
  | VFloat _ => if String.eqb varType "FLOAT_64" then Type_ v = "STRING"
                else Type_ v = "FLOAT_64"
  | VString s => Type_ v = "STRING" /\ s = raw
  end.
Proof.
  unfold inferred, inferValue.
  destruct (String.eqb raw "enabled"); [reflexivity|].
  destruct (String.eqb raw "disabled"); [reflexivity|].
  destruct (numericRegex raw).
  - destruct (Contains raw ".").
    + destruct (ParseFloat raw); cbn [setInferred Type_ filledVariable].
      * destruct (String.eqb "FLOAT_64" varType) eqn:E; cbn;
          rewrite String.eqb_sym, E; reflexivity.
      * rewrite String.eqb_refl. cbn. auto.
    + destruct (ParseInt raw); cbn [setInferred Type_ filledVariable].
      * destruct (String.eqb "INTEGER" varType) eqn:E; cbn;
          rewrite String.eqb_sym, E; reflexivity.
      * rewrite String.eqb_refl. cbn. auto.
  - cbn [filledVariable Type_]. rewrite String.eqb_refl. cbn. auto.
Qed.

Lemma GetVariables_inferred taxonomy u c vars err u' c' v :
  GetVariables taxonomy u c = Returns (vars, err, u') c' ->
  In v vars ->
  exists raw description writeable maximumLength,
    v = inferred (Name v) raw description (OriginalType v) writeable maximumLength.
Proof.
  intros H Hin. destruct (GetVariables_built _ _ _ _ _ _ _ H) as [->|(resp & c1 & _ & F)];
    [contradiction|].
  rewrite List.Forall_forall in F.
  destruct (F v Hin) as (line & raw & ty & _ & _ & B).
  destruct B as (x1 & x2 & x3 & d & w & m & _ & _ & E).
  exists raw, d, w, m. rewrite E at 1.
  assert (O : OriginalType v = ty) by (rewrite E; apply infer_OriginalType).
  now rewrite O.
Qed.

(** X14: the type tag of every variable that [GetVariables] returns is one
    of BOOLEAN, INTEGER, FLOAT_64 and STRING, whatever type the device
    reported. The tag is BOOLEAN exactly for the boolean values; the
    tag INTEGER comes with an int64 value and the tag FLOAT_64 with a
    float64 value. *)
Theorem GetVariables_type_tags taxonomy u c vars err u' c' v :
  GetVariables taxonomy u c = Returns (vars, err, u') c' ->
  In v vars ->
  (Type_ v = "BOOLEAN" \/ Type_ v = "INTEGER" \/ Type_ v = "FLOAT_64"
   \/ Type_ v = "STRING") /\
  (Type_ v = "BOOLEAN" <-> exists x, Value v = VBool x) /\
  (Type_ v = "INTEGER" -> exists n, Value v = VInt n) /\
  (Type_ v = "FLOAT_64" -> exists d, Value v = VFloat d).
Proof.
  intros H Hin.
  destruct (GetVariables_inferred _ _ _ _ _ _ _ _ H Hin) as (raw & d & w & m & E).
  pose proof (inferred_tags (Name v) raw d (OriginalType v) w m) as T.
  cbv zeta in T. rewrite <- E in T.
  destruct (Value v) as [x|n|f|s] eqn:V.
  - rewrite T. repeat split; eauto; discriminate.
  - destruct (String.eqb (OriginalType v) "INTEGER"); rewrite T;
      repeat split; eauto; try discriminate; intros [x Hx]; discriminate.
  - destruct (String.eqb (OriginalType v) "FLOAT_64"); rewrite T;
      repeat split; eauto; try discriminate; intros [x Hx]; discriminate.
  - destruct T as [T _]. rewrite T.
    repeat split; eauto; try discriminate; intros [x Hx]; discriminate.
Qed.

Lemma GetVariables_type_tags_witness :
  Type_ chargeVariable = "INTEGER" /\ exists n, Value chargeVariable = VInt n.
Proof.
  destruct GetVariables_charge as [c' E].
  destruct (GetVariables_type_tags [] _ _ _ _ _ _ chargeVariable E) as (_ & _ & I & _);
    [now left|].
  split; [reflexivity|]. exact (I eq_refl).
Defined.

(** X15: a value that [GetVariables] converted to int64 bears the tag
    INTEGER exactly when the device did not report the type INTEGER;
    when it did, the last test of the loop body takes the new tag for
    the reported type and sets STRING. The same holds for float64 and
    FLOAT_64. *)
Theorem converted_value_of_same_named_type taxonomy u c vars err u' c' v :
  GetVariables taxonomy u c = Returns (vars, err, u') c' ->
  In v vars ->
  (forall n, Value v = VInt n ->
     (OriginalType v = "INTEGER" -> Type_ v = "STRING") /\
     (OriginalType v <> "INTEGER" -> Type_ v = "INTEGER")) /\
  (forall d, Value v = VFloat d ->
     (OriginalType v = "FLOAT_64" -> Type_ v = "STRING") /\
     (OriginalType v <> "FLOAT_64" -> Type_ v = "FLOAT_64")).
Proof.
  intros H Hin.
  destruct (GetVariables_inferred _ _ _ _ _ _ _ _ H Hin) as (raw & d & w & m & E).
  pose proof (inferred_tags (Name v) raw d (OriginalType v) w m) as T.
  cbv zeta in T. rewrite <- E in T.
  split; intros x V; rewrite V in T.
  - destruct (String.eqb_spec (OriginalType v) "INTEGER"); split; congruence.
  - destruct (String.eqb_spec (OriginalType v) "FLOAT_64"); split; congruence.
Qed.

Lemma converted_value_of_same_named_type_witness :
  exists v u' c',
    GetVariables [] sampleUPS (clientOn (listingOf "battery.charge" "100" "INTEGER"))
    = Returns ([v], None, u') c' /\
    Value v = VInt 100 /\ OriginalType v = "INTEGER" /\ Type_ v = "STRING".
Proof.
  set (c := clientOn _).
  destruct (GetVariables [] sampleUPS c) as [[[vars err] u'] c'|] eqn:E;
    [|vm_compute in E; discriminate].
  assert (R : exists v, vars = [v] /\ err = None /\ Value v = VInt 100 /\
                        OriginalType v = "INTEGER").
  { vm_compute in E. injection E as <- <- _ _. eexists. repeat split. }
  destruct R as (v & -> & -> & V & O).
  exists v, u', c'. split; [reflexivity|]. split; [exact V|]. split; [exact O|].
  destruct (converted_value_of_same_named_type [] _ _ _ _ _ _ v E) as [I _];
    [now left|].
  exact (proj1 (I _ V) O).
Defined.

(** ** The numeric pattern *)

Lemma digits1_app_point (ip fp : string) :
  digits1 ip = true -> floatBody (ip ++ String "." fp) false = digits1 fp.
Proof.
  intros H. rewrite floatBody_app by now apply digits1_allDigits.
  destruct ip; [discriminate|reflexivity].
Qed.

(** X16: [numericRegex] accepts exactly the strings made of an optional
    minus sign, one digit or more and, optionally, a point followed by
    one digit or more. *)
Theorem numericRegex_grammar (s : string) :
  numericRegex s = true <->
  exists sign ip,
    (sign = EmptyString \/ sign = "-") /\ digits1 ip = true /\
    (s = sign ++ ip \/ exists fp, digits1 fp = true /\ s = sign ++ ip ++ "." ++ fp).
Proof.
  rewrite numericRegex_patterns. unfold intPattern, floatPattern. split.
  - intros H.
    assert (U : exists sign, (sign = EmptyString \/ sign = "-") /\ s = sign ++ unsigned s).
    { destruct s as [|c r]; [exists EmptyString; auto|]. cbn [unsigned].
      destruct (Ascii.eqb_spec c "-") as [->|_]; [exists "-"|exists EmptyString]; auto. }
    destruct U as (sign & Hs & Es). apply orb_true_iff in H as [H|H].
    + exists sign, (unsigned s). auto.
    + destruct (floatBody_split _ _ H) as (ip & fp & E & Hip & Hne & Hfp).
      exists sign, ip. split; [exact Hs|]. split.
      * destruct ip; [discriminate|exact Hip].
      * right. exists fp. split; [exact Hfp|]. rewrite Es at 1. now rewrite E.
  - intros (sign & ip & Hs & Hip & [->|(fp & Hfp & ->)]).
    + assert (U : unsigned (sign ++ ip) = ip).
      { destruct Hs as [-> | ->]; [|reflexivity]. cbn [String.append].
        destruct ip as [|c r]; [discriminate|]. cbn [unsigned].
        destruct (Ascii.eqb_spec c "-") as [->|_]; [discriminate|reflexivity]. }
      now rewrite U, Hip.
    + assert (U : unsigned (sign ++ ip ++ "." ++ fp) = ip ++ String "." fp).
      { destruct Hs as [-> | ->]; [|reflexivity]. cbn [String.append].
        destruct ip as [|c r]; [discriminate|]. cbn [unsigned String.append].
        destruct (Ascii.eqb_spec c "-") as [->|_]; [discriminate|reflexivity]. }
      rewrite U, (digits1_app_point _ _ Hip), Hfp. apply orb_true_r.
Qed.

(** ** Decimal numerals *)

Lemma digits_value_app (s t : string) (n : Z) :
  digits_value (s ++ t) n = digits_value t (digits_value s n).
Proof. revert n. induction s as [|c s IH]; intros n; cbn; auto. Qed.

Lemma allDigits_app (s t : string) :
  allDigits (s ++ t) = allDigits s && allDigits t.
Proof.
  induction s as [|c s IH]; [reflexivity|].
  cbn [String.append allDigits]. now rewrite IH, andb_assoc.
Qed.

Lemma digit_char (d : Z) :
  (0 <= d <= 9)%Z ->
  is_digit (ascii_of_nat (48 + Z.to_nat d)) = true /\
  digit_val (ascii_of_nat (48 + Z.to_nat d)) = d.
Proof.
  intros H.
  assert (E : exists k, (k <= 9)%nat /\ d = Z.of_nat k).
  { exists (Z.to_nat d). split; lia. }
  destruct E as (k & Hk & ->). rewrite Nat2Z.id.
  do 10 (destruct k as [|k]; [now vm_compute|]). lia.
Qed.

Lemma digitsOf_spec (fuel : nat) :
  forall n, (0 <= n < 10 ^ Z.of_nat fuel)%Z -> (0 < fuel)%nat ->
    digits1 (digitsOf fuel n) = true /\ digits_value (digitsOf fuel n) 0 = n.
Proof.
  induction fuel as [|fuel IH]; intros n Hn Hf; [lia|].
  cbn [digitsOf].
  assert (Hm : (0 <= n mod 10 <= 9)%Z) by (pose proof (Z.mod_pos_bound n 10); lia).
  destruct (digit_char _ Hm) as [D1 D2].
  destruct (Z.ltb_spec n 10) as [L|L].
  - cbn [String.append str1 digits1 allDigits digits_value]. rewrite D1, D2.
    split; [reflexivity|]. rewrite Z.mod_small; lia.
  - assert (Hq : (0 <= n / 10 < 10 ^ Z.of_nat fuel)%Z).
    { split; [apply Z.div_pos; lia|]. apply Z.div_lt_upper_bound; [lia|].
      rewrite Nat2Z.inj_succ, Z.pow_succ_r in Hn; lia. }
    assert (Hf' : (0 < fuel)%nat).
    { destruct fuel; [|lia]. cbn in Hn. lia. }
    destruct (IH _ Hq Hf') as [I1 I2].
    rewrite digits_value_app, I2. cbn [str1 digits_value]. rewrite D2.
    split.
    + pose proof (digits1_allDigits _ I1) as A.
      destruct (digitsOf fuel (n / 10)) as [|a s] eqn:E; [discriminate|].
      cbn [String.append digits1].
      change (allDigits (String a (s ++ str1 (ascii_of_nat (48 + Z.to_nat (n mod 10))))))
        with (allDigits (String a s ++ str1 (ascii_of_nat (48 + Z.to_nat (n mod 10))))).
      rewrite allDigits_app, A. cbn [str1 allDigits andb]. now rewrite D1.
    + pose proof (Z.div_mod n 10). lia.
Qed.

Lemma first_digit_not_minus (s : string) :
  digits1 s = true -> unsigned s = s /\ negative s = false.
Proof.
  destruct s as [|c r]; [discriminate|]. cbn [digits1 allDigits unsigned negative].
  intros H. apply andb_true_iff in H as [H _].
  destruct (Ascii.eqb_spec c "-") as [->|_]; [discriminate|auto].
Qed.

Lemma decimal_spec (n : Z) :
  (- 2 ^ 63 <= n <= 2 ^ 63 - 1)%Z ->
  intPattern (decimal n) = true /\ intValue (decimal n) = n.
Proof.
  intros H. unfold decimal, intPattern, intValue.
  destruct (Z.ltb_spec n 0) as [L|L].
  - destruct (digitsOf_spec 20 (- n)) as [D V]; [lia|lia|].
    cbn [String.append unsigned negative Ascii.eqb Bool.eqb]. cbv iota.
    rewrite D, V. split; [reflexivity|lia].
  - destruct (digitsOf_spec 20 n) as [D V]; [lia|lia|].
    destruct (first_digit_not_minus _ D) as [-> ->]. auto.
Qed.

Lemma Atoi_decimal (n : Z) :
  (- 2 ^ 63 <= n <= 2 ^ 63 - 1)%Z -> Atoi (decimal n) = inl n.
Proof.
  intros H. destruct (decimal_spec n H) as [P V]. unfold Atoi.
  rewrite (ParseInt_spec _ P), V.
  destruct (Z.leb_spec (- 2 ^ 63) n), (Z.leb_spec n (2 ^ 63 - 1)); cbn; auto; lia.
Qed.

(** ** Splitting at a byte *)

Lemma split_from_none (c : ascii) (s : string) :
  mem c s = false -> split_from (str1 c) s 0 = (s, []).
Proof.
  induction s as [|x s IH]; intros H; [reflexivity|].
  cbn [mem] in H. apply orb_false_iff in H as [H1 H2].
  cbn [split_from str1 String.prefix].
  destruct (ascii_dec c x) as [->|_]; [now rewrite Ascii.eqb_refl in H1|].
  change (String c EmptyString) with (str1 c). now rewrite (IH H2).
Qed.

Lemma split_from_at (c : ascii) (a rest : string) :
  mem c a = false ->
  split_from (str1 c) (a ++ String c rest) 0
  = (a, let (p, ps) := split_from (str1 c) rest 0 in p :: ps).
Proof.
  induction a as [|x a IH]; intros H.
  - cbn [String.append split_from str1 String.prefix].
    destruct (ascii_dec c c) as [_|N]; [|congruence].
    now rewrite str_prefix_empty.
  - cbn [mem] in H. apply orb_false_iff in H as [H1 H2].
    cbn [String.append split_from str1 String.prefix].
    destruct (ascii_dec c x) as [->|_]; [now rewrite Ascii.eqb_refl in H1|].
    change (String c EmptyString) with (str1 c). now rewrite (IH H2).
Qed.

Lemma Split_none (c : ascii) (s : string) :
  mem c s = false -> Split s (str1 c) = [s].
Proof. intros H. unfold Split. now rewrite split_from_none. Qed.

Lemma Split_at (c : ascii) (a rest : string) :
  mem c a = false ->
  Split (a ++ String c rest) (str1 c) = a :: Split rest (str1 c).
Proof. intros H. unfold Split. now rewrite split_from_at. Qed.

Lemma split_from_single (c : ascii) (s p : string) :
  split_from (str1 c) s 0 = (p, []) -> p = s.
Proof.
  revert p. induction s as [|x s IH]; intros p P.
  - now injection P as <-.
  - cbn [split_from str1 String.prefix] in P.
    destruct (ascii_dec c x).
    + rewrite str_prefix_empty in P. destruct (split_from _ s _). discriminate.
    + change (String c EmptyString) with (str1 c) in P.
      destruct (split_from (str1 c) s 0) as [q qs] eqn:Q.
      injection P as <- ->. now rewrite (IH q eq_refl).
Qed.

Lemma allDigits_mem (c : ascii) (s : string) :
  is_digit c = false -> allDigits s = true -> mem c s = false.
Proof.
  intros Hc. induction s as [|x s IH]; [reflexivity|].
  cbn [allDigits mem]. intros H. apply andb_true_iff in H as [H1 H2].
  rewrite (IH H2), orb_false_r.
  destruct (Ascii.eqb_spec c x) as [->|_]; congruence.
Qed.

Lemma decimal_mem (c : ascii) (n : Z) :
  (- 2 ^ 63 <= n <= 2 ^ 63 - 1)%Z ->
  is_digit c = false -> c <> "-"%char -> mem c (decimal n) = false.
Proof.
  intros H Hc Hm. unfold decimal. destruct (Z.ltb_spec n 0) as [L|L].
  - destruct (digitsOf_spec 20 (- n)) as [D _]; [lia|lia|].
    cbn [String.append mem].
    rewrite (allDigits_mem _ _ Hc (digits1_allDigits _ D)), orb_false_r.
    now apply Ascii.eqb_neq.
  - destruct (digitsOf_spec 20 n) as [D _]; [lia|lia|].
    apply (allDigits_mem _ _ Hc (digits1_allDigits _ D)).
Qed.

(** ** The TYPE response, in general *)

Lemma Split_flagged (flag : TypeFlag) (tok : string) :
  mem space tok = false ->
  Split (flagWord flag ++ tok) " "
  = match flag with
    | FlagRW => ["RW"; tok]
    | FlagRO => ["RO"; tok]
    | NoFlag => [tok]
    end.
Proof.
  intros H. change " " with (str1 space). destruct flag; cbn [flagWord].
  - change ("RW " ++ tok) with ("RW" ++ String space tok).
    rewrite Split_at by reflexivity. now rewrite Split_none.
  - change ("RO " ++ tok) with ("RO" ++ String space tok).
    rewrite Split_at by reflexivity. now rewrite Split_none.
  - now rewrite Split_none.
Qed.

Lemma typeOfResponse_flagged u variableName flag tok more :
  mem space tok = false ->
  typeOfResponse u variableName ((typePrefix u variableName ++ flagWord flag ++ tok) :: more)
  = splitStringType tok (isRW flag).
Proof.
  intros H. unfold typeOfResponse. rewrite TrimPrefix_app, (Split_flagged _ _ H).
  destruct flag; reflexivity.
Qed.

Lemma splitStringType_length (n : Z) (w : bool) :
  (- 2 ^ 63 <= n <= 2 ^ 63 - 1)%Z ->
  splitStringType ("STRING:" ++ decimal n) w = ("STRING", w, n, None).
Proof.
  intros H. unfold splitStringType.
  change (HasPrefix ("STRING:" ++ decimal n) "STRING:")
    with (String.prefix "STRING:" ("STRING:" ++ decimal n)).
  rewrite str_prefix_app.
  assert (E : Split ("STRING:" ++ decimal n) ":" = ["STRING"; decimal n]).
  { assert (M : mem ":"%char (decimal n) = false)
      by (apply decimal_mem; [exact H|reflexivity|discriminate]).
    exact (eq_trans (Split_at ":"%char "STRING" (decimal n) eq_refl)
             (f_equal (cons "STRING") (Split_none ":"%char (decimal n) M))). }
  rewrite E.
  cbn [length Nat.leb nth]. now rewrite (Atoi_decimal _ H).
Qed.

(** X17: [GetVariableType] on a response line with the RW flag, the RO flag
    or no flag. The type STRING:n, where n is the decimal numeral of
    any 64-bit integer, a negative one included, gives the type STRING
    and the maximum length n. Any other type word without a space
    gives that word and the length 0. The variable is writeable exactly
    for the flag RW. *)
Theorem GetVariableType_parses taxonomy u variableName c flag more c' :
  (forall n,
     (- 2 ^ 63 <= n <= 2 ^ 63 - 1)%Z ->
     SendCommand taxonomy (getTypeCommand u variableName) c
     = Returns ((typePrefix u variableName ++ flagWord flag ++ "STRING:" ++ decimal n)
                :: more, None) c' ->
     GetVariableType taxonomy u variableName c
     = Returns ("STRING", isRW flag, n, None) c') /\
  (forall ty,
     mem space ty = false -> HasPrefix ty "STRING:" = false ->
     SendCommand taxonomy (getTypeCommand u variableName) c
     = Returns ((typePrefix u variableName ++ flagWord flag ++ ty) :: more, None) c' ->
     GetVariableType taxonomy u variableName c
     = Returns (ty, isRW flag, 0%Z, None) c').
Proof.
  split.
  - intros n Hn S. unfold GetVariableType, bind, ret.
    fold (getTypeCommand u variableName). rewrite S. cbv iota beta.
    rewrite typeOfResponse_flagged.
    + now rewrite splitStringType_length.
    + change ("STRING:" ++ decimal n) with ("STRING:" ++ (decimal n)).
      rewrite mem_app. cbn [orb]. rewrite decimal_mem; auto; discriminate.
  - intros ty Hs Hp S. unfold GetVariableType, bind, ret.
    fold (getTypeCommand u variableName). rewrite S. cbv iota beta.
    rewrite (typeOfResponse_flagged _ _ _ _ _ Hs). unfold splitStringType.
    now rewrite Hp.
Qed.

Lemma GetVariableType_parses_witness :
  exists c',
    GetVariableType [] sampleUPS "ups.id" (clientOn ["TYPE ups ups.id RO STRING:32"])
    = Returns ("STRING", false, 32%Z, None) c'.
Proof.
  set (c := clientOn _).
  destruct (SendCommand [] (getTypeCommand sampleUPS "ups.id") c)
    as [[resp err] c'|] eqn:E; [|vm_compute in E; discriminate].
  assert (R : resp = [typePrefix sampleUPS "ups.id" ++ flagWord FlagRO ++ "STRING:"
                      ++ decimal 32] /\ err = None)
    by (vm_compute in E |- *; split; congruence).
  destruct R as [-> ->]. exists c'.
  apply (proj1 (GetVariableType_parses [] sampleUPS "ups.id" c FlagRO [] c') 32%Z);
    [lia|exact E].
Defined.

(** ** The two copies of the TYPE parser *)

(** X18: the two copies of [GetVariableType] return the same on every
    response whose first line carries the RW or RO flag and a second
    word. On a line of a single word the earlier copy fails with the
    type UNKNOWN and the length -1, where the later copy returns a
    result that is not writeable. *)
Theorem GetVariableType_copies taxonomy u variableName c :
  ((forall first more c',
      SendCommand taxonomy (getTypeCommand u variableName) c
      = Returns (first :: more, None) c' ->
      flagged u variableName first = true) ->
   GetVariableTypeEager taxonomy u variableName c
   = GetVariableType taxonomy u variableName c) /\
  (forall first more c',
     SendCommand taxonomy (getTypeCommand u variableName) c
     = Returns (first :: more, None) c' ->
     length (Split (TrimPrefix first (typePrefix u variableName)) " ") = 1%nat ->
     (exists e, GetVariableTypeEager taxonomy u variableName c
                = Returns ("UNKNOWN",
                           String.eqb (TrimPrefix first (typePrefix u variableName)) "RW",
                           (-1)%Z, Some (ErrNew e)) c') /\
     exists r, GetVariableType taxonomy u variableName c = Returns r c' /\
               snd (fst (fst r)) = false).
Proof.
  split.
  - intros F. unfold GetVariableTypeEager, GetVariableType, bind, ret.
    fold (getTypeCommand u variableName).
    destruct (SendCommand taxonomy (getTypeCommand u variableName) c)
      as [[[|first more] [e|]] c'|] eqn:S; try reflexivity.
    specialize (F first more c' eq_refl). unfold flagged in F.
    apply andb_true_iff in F as [L Fl].
    unfold typeOfResponseEager, typeOfResponse.
    set (splitLine := Split _ " ") in *. rewrite L, Fl. cbn [andb].
    apply Nat.leb_le in L.
    destruct (Nat.ltb_spec (length splitLine) 1); [lia|].
    destruct (Nat.ltb_spec (length splitLine) 2); [lia|].
    destruct (String.eqb (nth 0 splitLine EmptyString) "RW"); reflexivity.
  - intros first more c' S L. unfold GetVariableTypeEager, GetVariableType, bind, ret.
    fold (getTypeCommand u variableName). rewrite S. cbv iota beta.
    unfold typeOfResponseEager, typeOfResponse.
    set (line := TrimPrefix first (typePrefix u variableName)) in *.
    destruct (Split line " ") as [|tok [|tok2 rest]] eqn:E; try discriminate.
    assert (Q : tok = line).
    { unfold Split in E. change " " with (str1 space) in E.
      destruct (split_from (str1 space) line 0) as [p ps] eqn:P.
      injection E as -> ->. now apply (split_from_single space). }
    subst tok. cbn [length Nat.ltb Nat.leb nth andb].
    split.
    + destruct (String.eqb line "RW"); eexists; reflexivity.
    + eexists. split; [reflexivity|]. unfold splitStringType.
      destruct (HasPrefix line "STRING:"); [|reflexivity].
      destruct (2 <=? length (Split line ":"))%nat; [|reflexivity].
      destruct (Atoi _); reflexivity.
Qed.

Lemma GetVariableType_copies_witness :
  GetVariableTypeEager [] sampleUPS "ups.id" (clientOn ["TYPE ups ups.id RW STRING:20"])
  = GetVariableType [] sampleUPS "ups.id" (clientOn ["TYPE ups ups.id RW STRING:20"]).
Proof.
  apply (proj1 (GetVariableType_copies [] sampleUPS "ups.id"
                  (clientOn ["TYPE ups ups.id RW STRING:20"]))).
  intros first more c' S. vm_compute in S. injection S as <- _ _. reflexivity.
Defined.

(** ** The number of logins *)

(** X19: [GetNumberOfLogins] returns the number that the server printed
    after the echo of the request, for every 64-bit integer, and stores
    it in the UPS. Whenever it returns an error, the number returned is
    0 and the UPS is as before. *)
Theorem GetNumberOfLogins_reads_numeral taxonomy u c :
  (forall n more c',
     (- 2 ^ 63 <= n <= 2 ^ 63 - 1)%Z ->
     SendCommand taxonomy ("GET NUMLOGINS " ++ quoteName (UPSName u)) c
     = Returns (("NUMLOGINS " ++ UPSName u ++ " " ++ decimal n) :: more, None) c' ->
     GetNumberOfLogins taxonomy u c = Returns (n, None, setNumberOfLogins u n) c') /\
  (forall n e u' c',
     GetNumberOfLogins taxonomy u c = Returns (n, Some e, u') c' ->
     n = 0%Z /\ u' = u).
Proof.
  split.
  - intros n more c' Hn S. unfold GetNumberOfLogins, bind, ret. rewrite S. cbv iota beta.
    replace ("NUMLOGINS " ++ UPSName u ++ " " ++ decimal n)
      with (("NUMLOGINS " ++ UPSName u ++ " ") ++ decimal n)
      by (now rewrite !str_app_assoc).
    now rewrite TrimPrefix_app, (Atoi_decimal _ Hn).
  - intros n e u' c'. unfold GetNumberOfLogins, bind, ret.
    destruct (SendCommand _ _ c) as [[[|first more] [e'|]] c1|]; try discriminate;
      try (intros H; injection H as <- _ <- _; auto).
    destruct (Atoi _); intros H; [discriminate|]. injection H as <- _ <- _. auto.
Qed.

Lemma GetNumberOfLogins_reads_numeral_witness :
  exists c',
    GetNumberOfLogins [] sampleUPS (clientOn ["NUMLOGINS ups 3"])
    = Returns (3%Z, None, setNumberOfLogins sampleUPS 3) c'.
Proof.
  set (c := clientOn _).
  destruct (SendCommand [] ("GET NUMLOGINS " ++ quoteName (UPSName sampleUPS)) c)
    as [[resp err] c'|] eqn:E; [|vm_compute in E; discriminate].
  assert (R : resp = ["NUMLOGINS " ++ UPSName sampleUPS ++ " " ++ decimal 3]
              /\ err = None)
    by (vm_compute in E |- *; split; congruence).
  destruct R as [-> ->]. exists c'.
  apply (proj1 (GetNumberOfLogins_reads_numeral [] sampleUPS c) 3%Z [] c'); [lia|exact E].
Defined.

(** ** The clients of a UPS *)

Lemma map_TrimPrefix (p : string) (l : list string) :
  map (fun line => TrimPrefix line p) (map (String.append p) l) = l.
Proof.
  induction l as [|a l IH]; [reflexivity|]. cbn [map]. now rewrite TrimPrefix_app, IH.
Qed.

(** X20: [GetClients] returns the addresses of the entry lines between the
    header and the sentinel, in their order, and caches them in the
    UPS. On a response of fewer than two lines it returns the empty
    list and leaves the cache as it is. With an error it returns no
    address and leaves the UPS as it is. *)
Theorem GetClients_addresses taxonomy u c :
  (forall header addresses last c',
     SendCommand taxonomy ("LIST CLIENT " ++ quoteName (UPSName u)) c
     = Returns (header :: map (String.append ("CLIENT " ++ UPSName u ++ " ")) addresses
                       ++ [last], None) c' ->
     GetClients taxonomy u c
     = Returns (addresses, None, setUPSClients u addresses) c') /\
  (forall resp c',
     SendCommand taxonomy ("LIST CLIENT " ++ quoteName (UPSName u)) c
     = Returns (resp, None) c' ->
     (length resp < 2)%nat ->
     GetClients taxonomy u c = Returns ([], None, u) c') /\
  (forall l e u' c',
     GetClients taxonomy u c = Returns (l, Some e, u') c' -> l = [] /\ u' = u).
Proof.
  split; [|split].
  - intros header addresses last c' S. unfold GetClients, bind, ret. rewrite S.
    cbv iota beta.
    destruct (Nat.ltb_spec (length (header :: map (String.append ("CLIENT " ++ UPSName u ++ " ")) addresses ++ [last])) 2) as [L|_].
    { cbn [length] in L. rewrite List.length_app in L. cbn in L. lia. }
    now rewrite middle_framed, map_TrimPrefix.
  - intros resp c' S L. unfold GetClients, bind, ret. rewrite S. cbv iota beta.
    destruct (Nat.ltb_spec (length resp) 2); [reflexivity|lia].
  - intros l e u' c'. unfold GetClients, bind, ret.
    destruct (SendCommand _ _ c) as [[resp [e'|]] c1|]; try discriminate.
    + intros H. injection H as <- _ <- _. auto.
    + destruct (length resp <? 2)%nat; discriminate.
Qed.

Lemma GetClients_addresses_witness :
  exists c',
    GetClients [] sampleUPS
      (clientOn ["BEGIN LIST CLIENT ups"; "CLIENT ups 10.0.0.7"; "CLIENT ups ::1";
                 "END LIST CLIENT ups"])
    = Returns (["10.0.0.7"; "::1"], None, setUPSClients sampleUPS ["10.0.0.7"; "::1"]) c'.
Proof.
  set (c := clientOn _).
  destruct (SendCommand [] ("LIST CLIENT " ++ quoteName (UPSName sampleUPS)) c)
    as [[resp err] c'|] eqn:E; [|vm_compute in E; discriminate].
  assert (R : resp = "BEGIN LIST CLIENT ups"
                     :: map (String.append ("CLIENT " ++ UPSName sampleUPS ++ " "))
                          ["10.0.0.7"; "::1"] ++ ["END LIST CLIENT ups"]
              /\ err = None)
    by (vm_compute in E |- *; split; congruence).
  destruct R as [-> ->]. exists c'.
  exact (proj1 (GetClients_addresses [] sampleUPS c) _ _ _ c' E).
Defined.

(** ** The commands of a UPS *)

Lemma GetCommandDescription_ok taxonomy u name c d c' :
  GetCommandDescription taxonomy u name c = Returns (d, None) c' ->
  exists resp, SendCommand taxonomy (getCmdDescCommand u name) c = Returns (resp, None) c'.
Proof.
  unfold GetCommandDescription, bind, ret. fold (getCmdDescCommand u name).
  destruct (SendCommand taxonomy (getCmdDescCommand u name) c)
    as [[[|first more] [e|]] c1|]; try discriminate.
  intros H. injection H as _ <-. eauto.
Qed.

Lemma commandsLoop_order taxonomy u linePrefix lines :
  forall list0 c cmds err c',
    conn c <> None ->
    commandsLoop taxonomy u linePrefix lines list0 c = Returns (cmds, err) c' ->
    exists extra,
      cmds = (list0 ++ extra)%list /\
      (err = None ->
       map CmdName extra = map (fun line => TrimPrefix line linePrefix) lines /\
       sent c c' (map (getCmdDescCommand u) (map CmdName extra))).
Proof.
  induction lines as [|line rest IH]; intros list0 c cmds err c' C H.
  - cbn in H. injection H as <- <- <-. exists []. rewrite app_nil_r.
    split; [reflexivity|]. intros _. split; [reflexivity|]. now apply sent_nil.
  - cbn [commandsLoop] in H. unfold bind in H.
    destruct (GetCommandDescription taxonomy u (TrimPrefix line linePrefix) c)
      as [[description [e|]] c1|] eqn:D; try discriminate.
    { injection H as <- <- <-. exists []. rewrite app_nil_r.
      split; [reflexivity|discriminate]. }
    destruct (GetCommandDescription_ok _ _ _ _ _ _ D) as [r1 S1].
    pose proof (SendCommand_sent _ _ _ _ _ S1) as T1.
    assert (C1 : conn c1 <> None) by (destruct T1 as (? & ? & _ & -> & _); discriminate).
    destruct (IH _ _ _ _ _ C1 H) as (extra & -> & Q).
    eexists (_ :: extra). rewrite <- app_assoc. split; [reflexivity|].
    intros He. destruct (Q He) as [Q1 Q2]. cbn [map CmdName]. rewrite Q1.
    split; [reflexivity|].
    rewrite <- Q1.
    apply (sent_app c c1 c' [getCmdDescCommand u (TrimPrefix line linePrefix)] _ T1 Q2).
Qed.

(** X21: when [GetCommands] returns an error, the UPS is as it was. When it
    returns no error, the commands are cached in the UPS, their names
    are the entry lines between the header and the sentinel without the
    echo of the request, in the order of the listing, and exactly these
    commands went out, one per line: LIST CMD, then GET CMDDESC for
    each command in turn. *)
Theorem GetCommands_in_listing_order taxonomy u c cmds err u' c' :
  GetCommands taxonomy u c = Returns (cmds, err, u') c' ->
  (err <> None -> u' = u) /\
  (err = None ->
   u' = setCommands u cmds /\
   exists resp c1,
     SendCommand taxonomy (listCmdCommand u) c = Returns (resp, None) c1 /\
     map CmdName cmds
     = map (fun line => TrimPrefix line ("CMD " ++ UPSName u ++ " ")) (middle resp) /\
     sent c c' (listCmdCommand u :: map (getCmdDescCommand u) (map CmdName cmds))).
Proof.
  unfold GetCommands, bind, ret. fold (listCmdCommand u). intros H.
  destruct (SendCommand taxonomy (listCmdCommand u) c) as [[resp [e|]] c1|] eqn:S;
    try discriminate.
  { injection H as <- <- <- <-. split; [reflexivity|discriminate]. }
  pose proof (SendCommand_sent _ _ _ _ _ S) as T0.
  assert (C1 : conn c1 <> None) by (destruct T0 as (? & ? & _ & -> & _); discriminate).
  destruct (Nat.ltb_spec (length resp) 2) as [L|L].
  { injection H as <- <- <- <-. split; [congruence|]. intros _. split; [reflexivity|].
    exists resp, c1. split; [reflexivity|].
    destruct resp as [|h [|h2 t]]; cbn in L; try lia; cbn; auto. }
  destruct (commandsLoop _ _ _ _ _ c1) as [[vs [e|]] c2|] eqn:V; try discriminate.
  { injection H as <- <- <- <-. split; [reflexivity|discriminate]. }
  injection H as <- <- <- <-. split; [congruence|]. intros _. split; [reflexivity|].
  destruct (commandsLoop_order _ _ _ _ _ _ _ _ _ C1 V) as (extra & -> & Q).
  destruct (Q eq_refl) as [Q1 Q2].
  cbn [app]. exists resp, c1. split; [reflexivity|]. split; [exact Q1|].
  apply (sent_app c c1 c2 [listCmdCommand u] _ T0 Q2).
Qed.

Lemma GetCommands_in_listing_order_witness :
  exists cmds c',
    GetCommands [] sampleUPS
      (clientOn ["BEGIN LIST CMD ups"; "CMD ups beeper.on"; "END LIST CMD ups";
                 "CMDDESC ups beeper.on " ++ dq ++ "Turn the beeper on" ++ dq])
    = Returns (cmds, None, setCommands sampleUPS cmds) c' /\
    map CmdName cmds = ["beeper.on"].
Proof.
  set (c := clientOn _).
  destruct (GetCommands [] sampleUPS c) as [[[cmds err] u'] c'|] eqn:E;
    [|vm_compute in E; discriminate].
  assert (R : err = None) by (vm_compute in E; congruence). subst err.
  destruct (GetCommands_in_listing_order [] _ _ _ _ _ _ E) as [_ H].
  destruct (H eq_refl) as (-> & resp & c1 & S & N & _).
  exists cmds, c'. split; [reflexivity|]. rewrite N.
  vm_compute in S. injection S as <- _. reflexivity.
Defined.

(** ** Setting a variable *)

Lemma SendCommand_acknowledged taxonomy cmd c first more c' (word : string) :
  isList cmd = false ->
  SendCommand taxonomy cmd c = Returns (first :: more, None) c' ->
  sent c c' [cmd] /\
  (String.eqb first word = true ->
   exists k rest, conn c = Some k /\ incoming k = wire [word] ++ rest).
Proof.
  intros L S. split; [eapply SendCommand_sent; eauto|]. intros W.
  apply String.eqb_eq in W. subst first.
  apply SendCommand_line_ok in S as (k & body & rest & Hk & B & I & _ & _); [|exact L].
  injection B as -> _. exists k, rest. cbn [wire].
  now rewrite str_app_assoc, str_app_empty_r.
Qed.

(** X22: [SetVariable] always sends the value between double quotes, with
    its backslashes and double quotes escaped, and unquoting that
    literal gives the value back, for every value. SET VAR with this
    literal is the only command that goes out, and the call answers
    true only if the server answered the line OK. *)
Theorem SetVariable_sends_escaped taxonomy u variableName value c :
  unquote (dq ++ escape value ++ dq) = value /\
  forall ok c',
    SetVariable taxonomy u variableName value c = Returns (ok, None) c' ->
    sent c c' [setVarCommand u variableName value] /\
    (ok = true ->
     exists k rest, conn c = Some k /\ incoming k = wire ["OK"] ++ rest).
Proof.
  split.
  - unfold unquote. now rewrite stripQuotes_wrapped, unescape_escape.
  - intros ok c'. unfold SetVariable, bind, ret. rewrite escape_two_passes.
    fold (setVarCommand u variableName value).
    destruct (SendCommand taxonomy (setVarCommand u variableName value) c)
      as [[[|first more] [e|]] c1|] eqn:S; try discriminate.
    + intros H. injection H as <- <-.
      split; [eapply SendCommand_sent; eauto|discriminate].
    + intros H. injection H as <- <-.
      apply (SendCommand_acknowledged _ _ _ _ _ _ "OK") in S; [exact S|(apply isList_head; [reflexivity | discriminate])].
Qed.

Lemma SetVariable_sends_escaped_witness :
  exists c',
    SetVariable [] sampleUPS "ups.id" ("rack " ++ dq ++ "4" ++ dq) (clientOn ["OK"])
    = Returns (true, None) c' /\
    sent (clientOn ["OK"]) c'
      ["SET VAR ups ups.id " ++ dq ++ "rack " ++ bs ++ dq ++ "4" ++ bs ++ dq ++ dq].
Proof.
  set (c := clientOn _).
  destruct (SetVariable [] sampleUPS "ups.id" ("rack " ++ dq ++ "4" ++ dq) c)
    as [[ok err] c'|] eqn:E; [|vm_compute in E; discriminate].
  assert (R : ok = true /\ err = None) by (vm_compute in E; split; congruence).
  destruct R as [-> ->]. exists c'. split; [reflexivity|].
  exact (proj1 (proj2 (SetVariable_sends_escaped [] sampleUPS "ups.id"
                         ("rack " ++ dq ++ "4" ++ dq) c) true c' E)).
Defined.

(** ** Acknowledgements *)

(** X23: the acknowledgements. [CheckIfMaster] answers true only for the
    line OK, and sets the master flag then; when it answers false the
    UPS is as it was. The method SendCommand of a UPS answers true only
    for the line OK, and [ForceShutdown] only for the line OK
    FSD-SET. *)
Theorem acknowledgement_words taxonomy u commandName c c' :
  (forall u',
     CheckIfMaster taxonomy u c = Returns (true, None, u') c' ->
     u' = setMaster u /\
     exists k rest, conn c = Some k /\ incoming k = wire ["OK"] ++ rest) /\
  (forall e u',
     CheckIfMaster taxonomy u c = Returns (false, e, u') c' -> u' = u) /\
  (UPS_SendCommand taxonomy u commandName c = Returns (true, None) c' ->
   exists k rest, conn c = Some k /\ incoming k = wire ["OK"] ++ rest) /\
  (ForceShutdown taxonomy u c = Returns (true, None) c' ->
   exists k rest, conn c = Some k /\ incoming k = wire ["OK FSD-SET"] ++ rest).
Proof.
  split; [|split; [|split]].
  - intros u'. unfold CheckIfMaster, bind, ret.
    destruct (SendCommand _ _ c) as [[[|first more] [e|]] c1|] eqn:S; try discriminate.
    destruct (String.eqb first "OK") eqn:W; intros H; [|discriminate].
    injection H as <- <-. split; [reflexivity|].
    apply (SendCommand_acknowledged _ _ _ _ _ _ "OK") in S as [_ S];
      [auto|(apply isList_head; [reflexivity | discriminate])].
  - intros e u'. unfold CheckIfMaster, bind, ret.
    destruct (SendCommand _ _ c) as [[[|first more] [e'|]] c1|]; try discriminate;
      try (intros H; now injection H as _ <- _).
    destruct (String.eqb first "OK"); intros H; [discriminate|]. now injection H as _ <- _.
  - unfold UPS_SendCommand, bind, ret.
    destruct (SendCommand _ _ c) as [[[|first more] [e|]] c1|] eqn:S; try discriminate.
    intros H. injection H as W <-.
    apply (SendCommand_acknowledged _ _ _ _ _ _ "OK") in S as [_ S];
      [auto|(apply isList_head; [reflexivity | discriminate])].
  - unfold ForceShutdown, bind, ret.
    destruct (SendCommand _ _ c) as [[[|first more] [e|]] c1|] eqn:S; try discriminate.
    intros H. injection H as W <-.
    apply (SendCommand_acknowledged _ _ _ _ _ _ "OK FSD-SET") in S as [_ S];
      [auto|(apply isList_head; [reflexivity | discriminate])].
Qed.

Lemma acknowledgement_words_witness :
  exists k rest,
    conn (clientOn ["OK FSD-SET"]) = Some k /\
    incoming k = wire ["OK FSD-SET"] ++ rest.
Proof.
  destruct (ForceShutdown [] sampleUPS (clientOn ["OK FSD-SET"])) as [r c'|] eqn:E;
    [|vm_compute in E; discriminate].
  assert (R : r = (true, None)) by (vm_compute in E; congruence). subst r.
  exact (proj2 (proj2 (proj2 (acknowledgement_words [] sampleUPS EmptyString
                                (clientOn ["OK FSD-SET"]) c'))) E).
Defined.

(** ** The two ways of sending *)

(** X24: [sendCommandUnsafe] and [SendCommand] agree on every command and
    every client: both panic, on the nil connection, or both return,
    with the same lines and the same error, and they leave the client
    in the same state but for the metrics, which only
    [sendCommandUnsafe] touches. *)
Theorem send_paths_agree taxonomy cmd c :
  match sendCommandUnsafe taxonomy cmd c, SendCommand taxonomy cmd c with
  | Returns r1 c1, Returns r2 c2 => r1 = r2 /\ c2 = setMetrics c1 (metrics c)
  | Panics, Panics => conn c = None
  | _, _ => False
  end.
Proof.
  unfold sendCommandUnsafe, SendCommand, SendCommandWithContext.
  cbn [Background doneAtStart doneWhileReading].
  destruct c as [ver pv [k|] tls mt]; [|reflexivity].
  destruct mt as [m|]; run_do; cbn [Background doneWhileReading].
  - destruct (hd false (wfail k)); red_do; [split; reflexivity|].
    destruct (hd false (dfail k)); red_do; [split; reflexivity|].
    destruct (readLoop _ _ _ (incoming k) []) as [[lines|] rest]; red_do;
      [|split; reflexivity].
    destruct (serverError taxonomy lines); red_do; split; reflexivity.
  - destruct (hd false (wfail k)); red_do; [split; reflexivity|].
    destruct (hd false (dfail k)); red_do; [split; reflexivity|].
    destruct (readLoop _ _ _ (incoming k) []) as [[lines|] rest]; red_do;
      [|split; reflexivity].
    destruct (serverError taxonomy lines); red_do; split; reflexivity.
Qed.

Local Open Scope Z_scope.

(** ** Closing through the pool *)

Lemma ClientClose_conn (c : Client) : conn (snd (ClientClose c)) = None.
Proof. unfold ClientClose. destruct (conn c) eqn:E; cbn; auto. Qed.

Lemma closeAt_heap id w :
  conn (deref (heap (snd (closeAt id w))) id) = None /\
  (forall j, j <> id -> heap (snd (closeAt id w)) !! j = heap w !! j) /\
  nextId (snd (closeAt id w)) = nextId w.
Proof.
  unfold closeAt. pose proof (ClientClose_conn (deref (heap w) id)) as C.
  destruct (ClientClose (deref (heap w) id)) as [err c]. cbn [snd setHeap heap nextId] in *.
  split; [|split; [|reflexivity]].
  - unfold deref. rewrite lookup_insert_eq. exact C.
  - intros j Hj. now apply lookup_insert_ne.
Qed.

Lemma closeAt_keeps_closed id w j :
  conn (deref (heap w) j) = None -> conn (deref (heap (snd (closeAt id w))) j) = None.
Proof.
  intros H. destruct (closeAt_heap id w) as (C & O & _).
  destruct (Nat.eq_dec j id) as [->|N]; [exact C|].
  unfold deref in *. now rewrite (O j N).
Qed.

Lemma closeAll_heap ids : forall lastErr w,
  (forall id, In id ids -> conn (deref (heap (snd (closeAll ids lastErr w))) id) = None) /\
  (forall j, ~ In j ids -> heap (snd (closeAll ids lastErr w)) !! j = heap w !! j) /\
  (forall j, conn (deref (heap w) j) = None ->
             conn (deref (heap (snd (closeAll ids lastErr w))) j) = None) /\
  nextId (snd (closeAll ids lastErr w)) = nextId w.
Proof.
  induction ids as [|id ids IH]; intros lastErr w.
  - cbn. repeat split; auto. contradiction.
  - cbn [closeAll]. destruct (closeAt_heap id w) as (C & O & N).
    pose proof (closeAt_keeps_closed id w) as K.
    destruct (closeAt id w) as [err w1]. cbn [snd] in *.
    destruct (IH (match err with Some e => Some e | None => lastErr end) w1)
      as (I1 & I2 & I3 & I4).
    split; [|split; [|split]].
    + intros j [<-|Hj]; [apply I3, C|apply I1, Hj].
    + intros j Hj. rewrite I2 by (intros ?; apply Hj; now right).
      apply O. intros ->. apply Hj. now left.
    + intros j Hj. apply I3, K, Hj.
    + now rewrite I4.
Qed.

(** X25: [Close] on an open pool marks it closed, empties the queue and
    closes the connection of every client that was queued; it touches
    no other client. [Stats] then reports no idle client and the same
    count of active clients as before. [Get] fails with the error pool
    is closed, and a second [Close] does nothing. *)
Theorem PoolClose_closes_idle taxonomy env w :
  closed (pool w) = false ->
  let w' := snd (PoolClose w) in
  closed (pool w') = true /\ clients (pool w') = [] /\
  Stats w' = (0, activeClients (pool w)) /\
  (forall id, In id (clients (pool w)) -> conn (deref (heap w') id) = None) /\
  (forall id, ~ In id (clients (pool w)) -> heap w' !! id = heap w !! id) /\
  Get taxonomy env w' = (GetErr (ErrNew "pool is closed"), w') /\
  PoolClose w' = (None, w').
Proof.
  intros H.
  set (w0 := setPool (setPool w (setClosed (pool w))) (setClients (setClosed (pool w)) [])).
  assert (E : PoolClose w = closeAll (clients (pool w)) None w0).
  { unfold PoolClose. cbv zeta. now rewrite H. }
  rewrite E. clear E. intros w'.
  assert (P : pool w' = setClients (setClosed (pool w)) []).
  { unfold w'. now rewrite closeAll_pool. }
  destruct (closeAll_heap (clients (pool w)) None w0) as (I1 & I2 & _ & _).
  fold w' in I1, I2.
  split; [now rewrite P|]. split; [now rewrite P|].
  split; [unfold Stats; now rewrite P|].
  split; [exact I1|]. split; [exact I2|].
  split; [unfold Get; now rewrite P|]. unfold PoolClose. now rewrite P.
Qed.

Lemma PoolClose_closes_idle_witness :
  let w' := snd (PoolClose idleWorld) in
  Stats w' = (0, 1) /\ conn (deref (heap w') 0%nat) = None /\
  Get [] helloEnv w' = (GetErr (ErrNew "pool is closed"), w').
Proof.
  destruct (PoolClose_closes_idle [] helloEnv idleWorld eq_refl)
    as (_ & _ & S & C & _ & G & _).
  split; [exact S|]. split; [|exact G]. apply C. now left.
Defined.

(** ** A closed pool *)

Lemma step_closed taxonomy call r :
  closed (pool (world r)) = true ->
  let r' := step taxonomy r call in
  pool (world r') = pool (world r) /\ nextId (world r') = nextId (world r) /\
  (forall id, conn (deref (heap (world r)) id) = None ->
              conn (deref (heap (world r')) id) = None) /\
  (length (checkedOut r') <= length (checkedOut r))%nat.
Proof.
  intros H. destruct call as [env|[id|]| |id]; cbn [step].
  - unfold Get. rewrite H. cbn. auto.
  - unfold Put. rewrite H. cbn [world checkedOut].
    rewrite closeAt_pool. destruct (closeAt_heap id (world r)) as (_ & _ & N).
    split; [reflexivity|]. split; [exact N|].
    split; [intros j; apply closeAt_keeps_closed|].
    clear. induction (checkedOut r) as [|x l IH]; [cbn; lia|].
    cbn [removeOne]. destruct (Nat.eqb x id); cbn [length] in *; lia.
  - cbn. auto.
  - unfold PoolClose. rewrite H. cbn. auto.
  - cbn [world checkedOut]. rewrite closeAt_pool.
    destruct (closeAt_heap id (world r)) as (_ & _ & N).
    split; [reflexivity|]. split; [exact N|].
    split; [intros j; apply closeAt_keeps_closed|lia].
Qed.

(** X26: a closed pool stays as it is under every sequence of calls: the
    pool and the next pointer do not change, so no connection is
    created; connections that are closed stay closed; no client is
    handed out; and every [Get] fails with the error pool is closed. *)
Theorem closed_pool_is_final taxonomy calls r :
  closed (pool (world r)) = true ->
  let r' := fold_left (step taxonomy) calls r in
  pool (world r') = pool (world r) /\ nextId (world r') = nextId (world r) /\
  (forall id, conn (deref (heap (world r)) id) = None ->
              conn (deref (heap (world r')) id) = None) /\
  (length (checkedOut r') <= length (checkedOut r))%nat /\
  (forall env, Get taxonomy env (world r') = (GetErr (ErrNew "pool is closed"), world r')).
Proof.
  revert r. induction calls as [|call calls IH]; intros r H; cbn [fold_left].
  - repeat split; auto. intros env. unfold Get. now rewrite H.
  - destruct (step_closed taxonomy call r H) as (P & N & K & L).
    assert (H' : closed (pool (world (step taxonomy r call))) = true) by now rewrite P.
    destruct (IH _ H') as (P' & N' & K' & L' & G').
    split; [congruence|]. split; [congruence|]. split; [auto|]. split; [lia|exact G'].
Qed.

Lemma closed_pool_is_final_witness :
  let r0 := run [] singlePool [CallGet helloEnv; CallClose] in
  let r := fold_left (step []) [CallPut (Some 0%nat); CallGet helloEnv] r0 in
  pool (world r) = pool (world r0) /\ nextId (world r) = nextId (world r0) /\
  (length (checkedOut r) <= length (checkedOut r0))%nat.
Proof.
  intros r0 r.
  assert (H : closed (pool (world r0)) = true) by (vm_compute; reflexivity).
  destruct (closed_pool_is_final [] [CallPut (Some 0%nat); CallGet helloEnv] r0 H)
    as (P & N & _ & L & _).
  auto.
Defined.

(** ** The queue of the pool *)

Lemma Put_queues id w :
  closed (pool w) = false ->
  Z.of_nat (length (clients (pool w))) < maxSize (pool w) ->
  Put (Some id) w = (None, setPool w (setClients (pool w) (clients (pool w) ++ [id]))).
Proof.
  intros H L. unfold Put. cbv zeta. rewrite H.
  destruct (Z.ltb_spec (Z.of_nat (length (clients (pool w)))) (maxSize (pool w)));
    [reflexivity|lia].
Qed.

Lemma Puts_queue ids : forall w,
  closed (pool w) = false ->
  Z.of_nat (length (clients (pool w)) + length ids) <= maxSize (pool w) ->
  let w1 := fold_left (fun w id => snd (Put (Some id) w)) ids w in
  w1 = setPool w (setClients (pool w) (clients (pool w) ++ ids)).
Proof.
  induction ids as [|id ids IH]; intros w H L; cbn [fold_left].
  - rewrite app_nil_r. now destruct w as [h n []].
  - cbn [length] in L. rewrite Put_queues by (auto; lia). cbn [snd].
    rewrite IH; cbn [pool setPool setClients closed clients maxSize]; auto.
    + now rewrite <- app_assoc.
    + rewrite List.length_app. cbn [length]. lia.
Qed.

(** X27: the queue is first in, first out. Releasing clients into an open
    pool whose queue has room for them appends them in their order and
    changes neither the store of the clients nor the counter of active
    clients. [Get] then hands out the oldest queued client, if its
    connection is not nil, opens no connection and leaves the others
    queued. *)
Theorem pool_queue_is_fifo taxonomy env w ids :
  closed (pool w) = false ->
  Z.of_nat (length (clients (pool w)) + length ids) <= maxSize (pool w) ->
  let w1 := fold_left (fun w id => snd (Put (Some id) w)) ids w in
  clients (pool w1) = (clients (pool w) ++ ids)%list /\
  heap w1 = heap w /\ nextId w1 = nextId w /\
  activeClients (pool w1) = activeClients (pool w) /\
  (forall id rest,
     (clients (pool w) ++ ids)%list = id :: rest ->
     conn (deref (heap w) id) <> None ->
     Get taxonomy env w1 = (GetOk Idle id, setPool w1 (setClients (pool w1) rest))).
Proof.
  intros H L w1. unfold w1. rewrite (Puts_queue ids w H L).
  cbn [pool setPool setClients clients heap nextId activeClients].
  repeat split; auto. intros id rest E C. unfold Get. cbv zeta.
  cbn [pool setPool setClients clients closed heap]. rewrite H, E.
  destruct (conn (deref (heap w) id)); [reflexivity|congruence].
Qed.

Lemma pool_queue_is_fifo_witness :
  let w := {| heap := <[ 0%nat := clientOn [] ]> (<[ 1%nat := clientOn [] ]> ∅);
              nextId := 2%nat;
              pool := {| hostname := "localhost"; port := 3493; opts := []; clients := [];
                         maxSize := 2; closed := false; activeClients := 2 |} |} in
  let w1 := snd (Put (Some 0%nat) (snd (Put (Some 1%nat) w))) in
  exists w2, Get [] helloEnv w1 = (GetOk Idle 1%nat, w2) /\ clients (pool w2) = [0%nat].
Proof.
  intros w w1.
  destruct (pool_queue_is_fifo [] helloEnv w [1%nat; 0%nat] eq_refl) as (_ & _ & _ & _ & G).
  { cbn. lia. }
  eexists. split; [apply (G 1%nat [0%nat] eq_refl); discriminate|reflexivity].
Defined.

(** ** Pointers *)

(** What [createOrWait] does to the store, the queue and the next
    pointer: it leaves the first and the last and hands out a queued
    client, if any, or it stores a new client under the next pointer. *)
Lemma createOrWait_effect taxonomy env w res w' :
  createOrWait taxonomy env w = (res, w') ->
  (nextId w' = nextId w /\ heap w' = heap w /\
   (forall id, In id (clients (pool w')) -> In id (clients (pool w))) /\
   (forall path id, res = GetOk path id -> In id (clients (pool w)))) \/
  (res = GetOk Created (nextId w) /\ nextId w' = S (nextId w) /\
   (exists client, heap w' = <[ nextId w := client ]> (heap w)) /\
   clients (pool w') = clients (pool w)).
Proof.
  unfold createOrWait. intros H. cbv zeta in H.
  destruct (maxSize (pool w) <=? activeClients (pool w)).
  - left. destruct (clients (pool w)) as [|q rest] eqn:Q.
    + destruct (ctxDone env); injection H as <- <-; rewrite Q;
        repeat split; auto; discriminate.
    + destruct (ctxDone env) as [e|]; [destruct (ctxFirst env)|];
        injection H as <- <-; cbn [nextId heap pool setPool setClients clients];
        rewrite ?Q; repeat split; auto; try discriminate;
        try (intros id Hid; now right);
        try (intros path id E; injection E as _ <-; now left).
  - destruct (ConnectWithOptionsAndConfig taxonomy _ (dial env)) as [client|err];
      injection H as <- <-.
    + right. cbn [incActive nextId heap pool setPool setActive clients]. eauto.
    + left. cbn [incActive decActive nextId heap pool setPool setActive clients].
      repeat split; auto; discriminate.
Qed.

Lemma Get_effect taxonomy env w res w' :
  Get taxonomy env w = (res, w') ->
  (nextId w' = nextId w /\ heap w' = heap w /\
   (forall id, In id (clients (pool w')) -> In id (clients (pool w))) /\
   (forall path id, res = GetOk path id -> In id (clients (pool w)))) \/
  (res = GetOk Created (nextId w) /\ nextId w' = S (nextId w) /\
   (exists client, heap w' = <[ nextId w := client ]> (heap w)) /\
   (forall id, In id (clients (pool w')) -> In id (clients (pool w)))).
Proof.
  unfold Get. intros H. cbv zeta in H.
  destruct (closed (pool w)).
  { injection H as <- <-. left. repeat split; auto; discriminate. }
  destruct (clients (pool w)) as [|q rest] eqn:Q.
  - destruct (createOrWait_effect _ _ _ _ _ H) as [(N & Hp & I & R)|(E & N & Hp & I)].
    + left. rewrite Q in *. auto.
    + right. rewrite I, Q. auto.
  - cbn [heap setPool] in H.
    destruct (conn (deref (heap w) q)).
    + injection H as <- <-. left. cbn [nextId heap pool setPool setClients clients].
      split; [reflexivity|]. split; [reflexivity|].
      split; [intros id Hid; now right|].
      intros path id E. injection E as _ <-. now left.
    + destruct (createOrWait_effect _ _ _ _ _ H) as [(N & Hp & I & R)|(E & N & Hp & I)];
        cbn [decActive nextId heap pool setPool setActive setClients clients] in *.
      * left. split; [exact N|]. split; [exact Hp|].
        split; [intros id Hid; right; now apply I|].
        intros path id E. right. exact (R path id E).
      * right. split; [exact E|]. split; [exact N|]. split; [exact Hp|].
        intros id Hid. right. now rewrite I in Hid.
Qed.

Lemma removeOne_In id x l : In x (removeOne id l) -> In x l.
Proof.
  induction l as [|y l IH]; cbn [removeOne]; [auto|].
  destruct (Nat.eqb y id); [now right|].
  intros [->|H]; [now left | right; auto].
Qed.

(** A step keeps the known pointers allocated, when a pointer given to
    [Put] is. *)
Lemma step_known taxonomy r call :
  known r ->
  (forall id, call = CallPut (Some id) -> (id < nextId (world r))%nat) ->
  known (step taxonomy r call).
Proof.
  intros [Kq Kc] Hp. destruct call as [env|[id|]| |id]; cbn [step].
  - destruct (Get taxonomy env (world r)) as [res w'] eqn:G.
    unfold known. cbn [world checkedOut].
    destruct (Get_effect _ _ _ _ _ G) as [(N & _ & I & R)|(E & N & _ & I)]; rewrite N.
    + split; [intros id Hid; apply Kq, I, Hid|].
      destruct res as [path i| |]; [|exact Kc|exact Kc].
      intros id [<-|Hid]; [apply Kq; exact (R path i eq_refl) | now apply Kc].
    + subst res. split; [intros id Hid; apply Nat.lt_lt_succ_r, Kq, I, Hid|].
      intros id [<-|Hid]; [lia | apply Nat.lt_lt_succ_r, Kc, Hid].
  - specialize (Hp id eq_refl). unfold known. cbn [world checkedOut]. unfold Put.
    destruct (closed (pool (world r))).
    { rewrite closeAt_pool. destruct (closeAt_heap id (world r)) as (_ & _ & ->).
      split; [exact Kq|]. intros i Hi. apply Kc. eapply removeOne_In, Hi. }
    destruct (Z.of_nat (length (clients (pool (world r)))) <? maxSize (pool (world r))).
    + cbn [snd pool setPool setClients clients nextId].
      split; [|intros i Hi; apply Kc; eapply removeOne_In, Hi].
      intros i Hi. apply in_app_or in Hi as [Hi|[<-|[]]]; [now apply Kq | exact Hp].
    + rewrite closeAt_pool. destruct (closeAt_heap id (decActive (world r))) as (_ & _ & ->).
      cbn [decActive pool setPool setActive clients nextId].
      split; [exact Kq|]. intros i Hi. apply Kc. eapply removeOne_In, Hi.
  - exact (conj Kq Kc).
  - unfold known. cbn [world checkedOut]. unfold PoolClose.
    destruct (closed (pool (world r))); cbn [snd]; [exact (conj Kq Kc)|].
    rewrite closeAll_pool. destruct (closeAll_heap (clients (pool (world r))) None
      (setPool (setPool (world r) (setClosed (pool (world r))))
         (setClients (pool (setPool (world r) (setClosed (pool (world r))))) [])))
      as (_ & _ & _ & ->).
    cbn [pool setPool setClients clients nextId]. split; [contradiction | exact Kc].
  - unfold known. cbn [world checkedOut]. rewrite closeAt_pool.
    destruct (closeAt_heap id (world r)) as (_ & _ & ->). exact (conj Kq Kc).
Qed.





Lemma start_known p : clients p = [] -> known (start p).
Proof.
  intros Q. unfold known, start. cbn [world checkedOut pool clients]. rewrite Q.
  split; contradiction.
Qed.

Lemma NewPool_clients config p : NewPool config = inl p -> clients p = [] /\ opts p = ClientOptions config.
Proof.
  unfold NewPool. destruct (String.eqb (Hostname config) EmptyString); [discriminate|].
  intros H. injection H as <-. split; reflexivity.
Qed.

Lemma closeAt_lookup id w j c :
  heap (snd (closeAt id w)) !! j = Some c -> j = id \/ heap w !! j = Some c.
Proof.
  destruct (Nat.eq_dec j id) as [->|N]; [now left|].
  destruct (closeAt_heap id w) as (_ & O & _). rewrite (O j N). now right.
Qed.

Lemma closeAll_lookup ids lastErr w j c :
  heap (snd (closeAll ids lastErr w)) !! j = Some c -> In j ids \/ heap w !! j = Some c.
Proof.
  destruct (in_dec Nat.eq_dec j ids) as [I|N]; [now left|].
  destruct (closeAll_heap ids lastErr w) as (_ & O & _). rewrite (O j N). now right.
Qed.

(** A step keeps the pointers of the store allocated, when the pointer
    that the call names is. *)
Lemma step_stored taxonomy r call :
  known r -> stored (world r) ->
  match call with
  | CallPut (Some id) | CallClientClose id => (id < nextId (world r))%nat
  | _ => True
  end ->
  stored (world (step taxonomy r call)).
Proof.
  intros [Kq Kc] S Hp. destruct call as [env|[id|]| |id]; cbn [step].
  - destruct (Get taxonomy env (world r)) as [res w'] eqn:G. cbn [world].
    destruct (Get_effect _ _ _ _ _ G) as [(N & Hh & _)|(_ & N & (client & Hh) & _)];
      unfold stored; rewrite N, Hh; [exact S|].
    intros id c L. destruct (Nat.eq_dec id (nextId (world r))) as [->|Ne]; [lia|].
    rewrite lookup_insert_ne in L by congruence. apply Nat.lt_lt_succ_r. eauto.
  - cbn [world]. unfold Put.
    destruct (closed (pool (world r))).
    { unfold stored. destruct (closeAt_heap id (world r)) as (_ & _ & N). rewrite N.
      intros j c L. apply closeAt_lookup in L as [->|L]; [exact Hp | eauto]. }
    destruct (Z.of_nat (length (clients (pool (world r)))) <? maxSize (pool (world r))).
    + exact S.
    + unfold stored.
      destruct (closeAt_heap id (decActive (world r))) as (_ & _ & N). rewrite N.
      intros j c L. apply closeAt_lookup in L as [->|L]; [exact Hp | exact (S _ _ L)].
  - exact S.
  - cbn [world]. unfold PoolClose.
    destruct (closed (pool (world r))); cbn [snd]; [exact S|].
    unfold stored.
    match goal with |- context [closeAll ?ids ?e ?w0] =>
      destruct (closeAll_heap ids e w0) as (_ & _ & _ & N); rewrite N;
      intros j c L; apply closeAll_lookup in L as [L|L]
    end; cbn [nextId setPool heap] in *; [now apply Kq | eauto].
  - cbn [world]. unfold stored.
    destruct (closeAt_heap id (world r)) as (_ & _ & N). rewrite N.
    intros j c L. apply closeAt_lookup in L as [->|L]; [exact Hp | eauto].
Qed.

(** In a run whose calls name only clients of the pool, every pointer
    that the queue, the callers or the store hold is allocated. *)
Lemma run_own taxonomy calls : forall r,
  known r -> stored (world r) -> ownClients taxonomy r calls ->
  known (fold_left (step taxonomy) calls r) /\
  stored (world (fold_left (step taxonomy) calls r)).
Proof.
  induction calls as [|call calls IH]; intros r K S O; [auto|].
  cbn [fold_left ownClients] in *. destruct O as [O1 O2].
  apply IH; [| |exact O2].
  - apply step_known; [exact K|]. intros id ->. exact O1.
  - now apply step_stored.
Qed.

Lemma start_stored p : stored (world (start p)).
Proof. intros id c L. cbn in L. rewrite lookup_empty in L. discriminate. Qed.

(** ** The connection that [Get] creates *)

Lemma wrapInt_inc_dec (a : Z) :
  - 2 ^ 63 <= a <= 2 ^ 63 - 1 -> wrapInt (wrapInt (a + 1) - 1) = a.
Proof.
  intros H. unfold wrapInt.
  change (2 ^ 63) with 9223372036854775808 in *.
  change (2 ^ 64) with 18446744073709551616.
  destruct (Z.eq_dec a 9223372036854775807) as [->|N]; [reflexivity|].
  rewrite (Z.mod_small (a + 1 + _)) by lia.
  rewrite Z.mod_small; lia.
Qed.

(** X28: when [Get] on an open pool with an empty queue and room for a
    connection cannot connect, because the dial or one of the two
    version queries fails, it returns that error and leaves the pool
    exactly as it was: the counter of active clients is back at its
    value. *)
Theorem Get_failed_connect_leaves_pool taxonomy env w e :
  closed (pool w) = false -> clients (pool w) = [] ->
  activeClients (pool w) < maxSize (pool w) ->
  - 2 ^ 63 <= activeClients (pool w) -> maxSize (pool w) <= 2 ^ 63 - 1 ->
  ConnectWithOptionsAndConfig taxonomy (opts (pool w)) (dial env) = inr e ->
  Get taxonomy env w = (GetErr e, w).
Proof.
  intros H Q L Lo Hi C. unfold Get. cbv zeta. rewrite H, Q.
  unfold createOrWait. cbv zeta.
  destruct (Z.leb_spec (maxSize (pool w)) (activeClients (pool w))); [lia|].
  cbn [incActive pool setPool setActive heap nextId]. rewrite C.
  unfold decActive, incActive. cbn [pool setPool setActive activeClients].
  rewrite wrapInt_inc_dec by lia. now destruct w as [h n []].
Qed.

Lemma Get_failed_connect_leaves_pool_witness :
  let env := {| dial := inr (ErrNet Timeout); ctxDone := None; ctxFirst := false |} in
  let w := {| heap := ∅; nextId := 0%nat; pool := singlePool |} in
  Get [] env w = (GetErr (ErrNet Timeout), w).
Proof.
  intros env w.
  apply (Get_failed_connect_leaves_pool [] env w (ErrNet Timeout));
    try reflexivity; cbn; lia.
Defined.

Lemma createOrWait_created taxonomy env w id w' :
  createOrWait taxonomy env w = (GetOk Created id, w') ->
  exists client,
    ConnectWithOptionsAndConfig taxonomy (opts (pool w)) (dial env) = inl client /\
    id = nextId w /\
    w' = {| heap := <[ nextId w := withMetrics (addReconnects 1) client ]> (heap w);
            nextId := S (nextId w); pool := pool (incActive w) |}.
Proof.
  unfold createOrWait. intros H. cbv zeta in H.
  destruct (maxSize (pool w) <=? activeClients (pool w)).
  { destruct (clients (pool w)), (ctxDone env); try destruct (ctxFirst env);
      discriminate. }
  destruct (ConnectWithOptionsAndConfig taxonomy _ (dial env)) as [client|e] eqn:C;
    [|discriminate].
  injection H as <- <-. exists client. cbn [incActive nextId heap setPool pool] in *.
  auto.
Qed.

Lemma Get_created taxonomy env w id w' :
  Get taxonomy env w = (GetOk Created id, w') ->
  exists w0,
    createOrWait taxonomy env w0 = (GetOk Created id, w') /\
    heap w0 = heap w /\ nextId w0 = nextId w /\ opts (pool w0) = opts (pool w).
Proof.
  unfold Get. cbv zeta. destruct (closed (pool w)); [discriminate|].
  destruct (clients (pool w)) as [|q rest]; [intros H; exists w; auto|].
  cbn [heap setPool]. destruct (conn (deref (heap w) q)); [discriminate|].
  intros H. eexists. split; [exact H|]. auto.
Qed.

(** X29: a client that [Get] created is stored under the next pointer
    and no other client is touched. In a run from [NewPool] whose calls
    name only clients of the pool, that pointer is new: the store holds
    nothing under it, and neither the queue nor a caller holds it. The
    client holds the two lines that the server answered as its version
    and its protocol version and its connection is not nil. Its TLS
    flag is the one that the options of the pool left, and its metrics
    are those that they left with Reconnects incremented; for a pool
    without options TLS is off and [GetMetrics] reports 1 for
    Reconnects and 0 for every other counter: the two version queries
    are not counted. *)
Theorem Get_created_is_fresh taxonomy env w id w' :
  Get taxonomy env w = (GetOk Created id, w') ->
  id = nextId w /\ nextId w' = S id /\
  (forall j, j <> id -> heap w' !! j = heap w !! j) /\
  (forall config p calls,
     NewPool config = inl p -> ownClients taxonomy (start p) calls ->
     w = world (run taxonomy p calls) ->
     heap w !! id = None /\ ~ In id (clients (pool w)) /\
     ~ In id (checkedOut (run taxonomy p calls))) /\
  exists client k v pv rest,
    heap w' !! id = Some client /\
    dial env = inl k /\ incoming k = wire [v; pv] ++ rest /\
    Version client = v /\ ProtocolVersion client = pv /\
    conn client <> None /\
    UseTLS client = UseTLS (configured (opts (pool w))) /\
    metrics client
    = option_map (addReconnects 1) (metrics (configured (opts (pool w)))) /\
    (opts (pool w) = [] ->
     UseTLS client = false /\
     GetMetrics client
     = {| CommandsSent := 0; CommandsFailed := 0; BytesSent := 0;
          BytesReceived := 0; Reconnects := 1 |}).
Proof.
  intros G. destruct (Get_created _ _ _ _ _ G) as (w0 & H & Hh & Hn & Ho).
  destruct (createOrWait_created _ _ _ _ _ H) as (client & C & -> & ->).
  rewrite Hh, Hn, Ho in *. cbn [nextId heap].
  split; [reflexivity|]. split; [reflexivity|].
  split; [intros j Hj; now apply lookup_insert_ne|]. split.
  - intros config p calls HN O ->.
    destruct (run_own taxonomy calls (start p)
                (start_known p (proj1 (NewPool_clients _ _ HN))) (start_stored p) O)
      as [[Kq Kc] S].
    fold (run taxonomy p calls) in Kq, Kc, S.
    split; [|split].
    + destruct (heap (world (run taxonomy p calls)) !! nextId (world (run taxonomy p calls)))
        as [c|] eqn:L; [|reflexivity].
      apply S in L. lia.
    + intros I. apply Kq in I. lia.
    + intros I. apply Kc in I. lia.
  - destruct (dial env) as [k|e] eqn:D;
      [|unfold ConnectWithOptionsAndConfig in C; discriminate].
    destruct (Connect_ok _ _ _ _ C) as (v & pv & rest & I & _ & _ & ->).
    eexists _, k, v, pv, rest. split; [apply lookup_insert_eq|].
    split; [reflexivity|]. split; [exact I|].
    assert (Z0 : opts (pool w) = [] ->
                 UseTLS (configured (opts (pool w))) = false /\
                 metrics (configured (opts (pool w))) = Some zeroMetrics)
      by (intros E; rewrite E; split; reflexivity).
    unfold withMetrics. cbn [metrics].
    destruct (metrics (configured (opts (pool w)))) as [m|];
      cbn [setMetrics Version ProtocolVersion conn UseTLS metrics option_map];
      (split; [reflexivity|]; split; [reflexivity|]; split; [discriminate|];
       split; [reflexivity|]; split; [reflexivity|]);
      intros E; destruct (Z0 E) as [T M]; [|discriminate].
    injection M as ->. split; [exact T | reflexivity].
Qed.

Lemma Get_created_is_fresh_witness :
  let w := world (run [] singlePool []) in
  exists w' client,
    Get [] helloEnv w = (GetOk Created 0%nat, w') /\
    heap w !! 0%nat = None /\
    heap w' !! 0%nat = Some client /\
    Version client = "Network UPS Tools upsd 2.8.0" /\ ProtocolVersion client = "1.3" /\
    UseTLS client = false /\
    Reconnects (GetMetrics client) = 1 /\ CommandsSent (GetMetrics client) = 0.
Proof.
  intros w. destruct (Get [] helloEnv w) as [res w'] eqn:G.
  assert (R : res = GetOk Created 0%nat) by (vm_compute in G; congruence).
  subst res.
  destruct (Get_created_is_fresh [] _ _ _ _ G)
    as (_ & _ & _ & F & client & k & v & pv & rest & L & D & I & V & P & _ & _ & _ & M).
  destruct (F singleConfig singlePool [] eq_refl Logic.I eq_refl) as (Hh & _ & _).
  destruct (M eq_refl) as [T M'].
  exists w', client. split; [reflexivity|]. split; [exact Hh|]. split; [exact L|].
  rewrite M', T. clear - G L. vm_compute in G. injection G as <-.
  vm_compute in L. injection L as <-. auto.
Defined.

(** ** Releasing into a full or closed pool *)

(** X30: [Put] into a closed pool or into a full queue closes the client
    instead of queueing it. Its connection is nil afterwards, no other
    client and not the queue are touched, and the result is the error
    of closing, which is connection already closed for a client without
    a connection. The counter of active clients goes down by one when
    the queue was full and stays when the pool was closed. *)
Theorem Put_overflow_closes id w :
  (closed (pool w) = true \/ maxSize (pool w) <= Z.of_nat (length (clients (pool w)))) ->
  let c := deref (heap w) id in
  let w' := snd (Put (Some id) w) in
  fst (Put (Some id) w)
  = match conn c with
    | None => Some (ErrNew "connection already closed")
    | Some k => if closeFails k then Some (ErrNet NetFailure) else None
    end /\
  conn (deref (heap w') id) = None /\
  (forall j, j <> id -> heap w' !! j = heap w !! j) /\
  clients (pool w') = clients (pool w) /\
  closed (pool w') = closed (pool w) /\
  activeClients (pool w')
  = (if closed (pool w) then activeClients (pool w)
     else wrapInt (activeClients (pool w) - 1)).
Proof.
  intros H c w'.
  assert (E : Put (Some id) w
              = closeAt id (if closed (pool w) then w else decActive w)).
  { unfold Put. cbv zeta. destruct (closed (pool w)); [reflexivity|].
    destruct H as [H|H]; [discriminate|].
    destruct (Z.ltb_spec (Z.of_nat (length (clients (pool w)))) (maxSize (pool w)));
      [lia|reflexivity]. }
  unfold w'. rewrite E. clear E w'.
  set (w0 := if closed (pool w) then w else decActive w).
  assert (H0 : heap w0 = heap w) by (unfold w0; now destruct (closed (pool w))).
  destruct (closeAt_heap id w0) as (C & O & _). rewrite closeAt_pool.
  split; [|split; [exact C|split; [intros j Hj; now rewrite (O j Hj), H0|]]].
  - unfold closeAt, ClientClose. rewrite H0. fold c.
    destruct (conn c) as [k|]; reflexivity.
  - clear. subst w0. destruct (closed (pool w)) eqn:Hc; cbn; rewrite ?Hc;
      repeat split; reflexivity.
Qed.

Lemma Put_overflow_closes_witness :
  let w' := snd (Put (Some 5%nat) idleWorld) in
  fst (Put (Some 5%nat) idleWorld) = Some (ErrNew "connection already closed") /\
  clients (pool w') = [0%nat] /\ activeClients (pool w') = 0.
Proof.
  destruct (Put_overflow_closes 5%nat idleWorld) as (E & _ & _ & Q & _ & A).
  { right. cbn. lia. }
  split; [exact E|]. split; [exact Q|exact A].
Defined.

(** * Closed clients in the queue

    What [Get] does with a closed client that it takes from the queue,
    on top of the lemmas on the pointers of a run. *)



